(** * Tagsonomy client-side helpers (tagso/static/common.js)

    A shallow embedding of the browser script: the list filter, the delete
    dispatcher, the URI composer, the repeatable alt-label rows and the
    cascading selects, in both forms the file takes (the page-specific
    functions driven by element ids, and the binder driven by [data-*]
    attributes), together with the properties of the written specification
    that concern them. *)

From Stdlib Require Import NArith String Ascii List Lia Bool.
From stdpp Require Import base option list gmap.
Import ListNotations.

Local Open Scope N_scope.

(** ** JavaScript strings

    A JavaScript string is a finite sequence of UTF-16 code units. *)

Abbreviation jsstring := (list N).

(** The code units of an ASCII literal of the source text. *)
Definition lit (s : string) : jsstring :=
  map N_of_ascii (list_ascii_of_string s).

(** [Array.prototype.join] on strings. *)
Fixpoint join (sep : jsstring) (parts : list jsstring) : jsstring :=
  match parts with
  | [] => []
  | [p] => p
  | p :: ps => p ++ sep ++ join sep ps
  end.

(** [s.startsWith(p)]. *)
Fixpoint startsWith (s p : jsstring) {struct p} : bool :=
  match p, s with
  | [], _ => true
  | _ :: _, [] => false
  | a :: p', b :: s' => (a =? b) && startsWith s' p'
  end.

(** [s.includes(q)], which is also [s.indexOf(q) > -1]. *)
Fixpoint includes (s q : jsstring) : bool :=
  startsWith s q ||
  match s with
  | [] => false
  | _ :: s' => includes s' q
  end.

(** JavaScript truthiness of a string value that may be [undefined]. *)
Definition truthy (v : option jsstring) : bool :=
  match v with
  | Some (_ :: _) => true
  | _ => false
  end.

(** [v || d] for a string operand. *)
Definition orElse (v : option jsstring) (d : jsstring) : jsstring :=
  match v with
  | Some (c :: s) => c :: s
  | _ => d
  end.

(** ** [encodeURIComponent] (ECMA-262, Encode with an empty extra set) *)

Definition inRange (lo hi c : N) : bool := (lo <=? c) && (c <=? hi).

Definition memN (c : N) (set : jsstring) : bool := existsb (N.eqb c) set.

Definition uriAlpha (c : N) : bool := inRange 65 90 c || inRange 97 122 c.
Definition decimalDigit (c : N) : bool := inRange 48 57 c.
Definition uriMark : jsstring := lit "-_.!~*'()".
Definition uriReserved : jsstring := lit ";/?:@&=+$,".

(** The characters that [encodeURIComponent] copies unchanged. *)
Definition uriUnescaped (c : N) : bool :=
  uriAlpha c || decimalDigit c || memN c uriMark.

Definition isLeadingSurrogate (c : N) : bool := inRange 55296 56319 c.
Definition isTrailingSurrogate (c : N) : bool := inRange 56320 57343 c.

Definition UTF16SurrogatePairToCodePoint (lead trail : N) : N :=
  (lead - 55296) * 1024 + (trail - 56320) + 65536.

(** The octets of the UTF-8 encoding of a code point. *)
Definition utf8 (cp : N) : list N :=
  if cp <? 128 then [cp]
  else if cp <? 2048 then
    [N.lor 192 (N.shiftr cp 6); N.lor 128 (N.land cp 63)]
  else if cp <? 65536 then
    [N.lor 224 (N.shiftr cp 12);
     N.lor 128 (N.land (N.shiftr cp 6) 63);
     N.lor 128 (N.land cp 63)]
  else
    [N.lor 240 (N.shiftr cp 18);
     N.lor 128 (N.land (N.shiftr cp 12) 63);
     N.lor 128 (N.land (N.shiftr cp 6) 63);
     N.lor 128 (N.land cp 63)].

Definition hexDigits : jsstring := lit "0123456789ABCDEF".

Definition hexDigit (d : N) : N := nth (N.to_nat (N.land d 15)) hexDigits 48.

Definition percent : N := 37.

(** ["%XX"] for one octet. *)
Definition percentOctet (o : N) : jsstring :=
  [percent; hexDigit (N.shiftr o 4); hexDigit o].

Definition percentEncode (cp : N) : jsstring :=
  flat_map percentOctet (utf8 cp).

(** [None] stands for the [URIError] thrown on an unpaired surrogate. *)
Fixpoint encodeURIComponent (s : jsstring) : option jsstring :=
  match s with
  | [] => Some []
  | c :: rest =>
      if uriUnescaped c then cons c <$> encodeURIComponent rest
      else if isLeadingSurrogate c then
        match rest with
        | d :: rest' =>
            if isTrailingSurrogate d then
              app (percentEncode (UTF16SurrogatePairToCodePoint c d))
                <$> encodeURIComponent rest'
            else None
        | [] => None
        end
      else if isTrailingSurrogate c then None
      else app (percentEncode c) <$> encodeURIComponent rest
  end.

(** Well-formed UTF-16: every surrogate is half of a pair. *)
Fixpoint wellFormed (s : jsstring) : bool :=
  match s with
  | [] => true
  | c :: rest =>
      if isLeadingSurrogate c then
        match rest with
        | d :: rest' => isTrailingSurrogate d && wellFormed rest'
        | [] => false
        end
      else negb (isTrailingSurrogate c) && wellFormed rest
  end.

(** ** The document tree *)

(** The function that [addAltLabelField] puts in [removeBtn.onclick]. *)
Inductive InlineHandler := OnclickRemoveAltLabelField.

Global Instance InlineHandler_eq_dec : EqDecision InlineHandler.
Proof. solve_decision. Defined.

(** An element carries the state the script reads or writes.  [dataset]
    holds the [data-*] attributes under their [dataset] keys, so that the
    selector [[data-delete]] is "the key [delete] is present".  [value] is
    the current value of an input (or the [value] attribute of an option);
    it is [None] on elements without a [value] property, and unused on a
    select, whose value is derived from its options.  [display] is
    [style.display]. *)
Record Element := mkElement {
  tagName : jsstring;
  id : jsstring;
  classList : list jsstring;
  dataset : gmap jsstring jsstring;
  attributes : list (jsstring * jsstring);
  value : option jsstring;
  hidden : bool;
  disabled : bool;
  required : bool;
  selected : bool;
  display : jsstring;
  onclick : option InlineHandler
}.

#[warnings="-register-all"]
Inductive Node :=
| Text (data : jsstring)
| Elem (e : Element) (children : list Node).

(** An element reference is the position of the element in the current
    tree: the child indices leading to it from the document node, which is
    the root and has the empty path. *)
Abbreviation Path := (list nat).

Definition children (n : Node) : list Node :=
  match n with
  | Elem _ ch => ch
  | Text _ => []
  end.

Definition isElement (n : Node) : bool :=
  match n with
  | Elem _ _ => true
  | Text _ => false
  end.

(** The node at a position, if there is one. *)
Fixpoint getNode (p : Path) (n : Node) : option Node :=
  match p with
  | [] => Some n
  | i :: p' =>
      match children n !! i with
      | Some c => getNode p' c
      | None => None
      end
  end.

(** The tree with [f] applied to the node at a position; the tree itself
    when there is no such node. *)
Fixpoint alterNode (f : Node -> Node) (p : Path) (n : Node) : Node :=
  match p with
  | [] => f n
  | i :: p' =>
      match n with
      | Elem e ch => Elem e (alter (alterNode f p') i ch)
      | Text _ => n
      end
  end.

Definition alterElement (f : Element -> Element) (n : Node) : Node :=
  match n with
  | Elem e ch => Elem (f e) ch
  | Text _ => n
  end.

Definition setChildren (ch : list Node) (n : Node) : Node :=
  match n with
  | Elem e _ => Elem e ch
  | Text _ => n
  end.

(** [node.textContent]. *)
Fixpoint textContent (n : Node) : jsstring :=
  match n with
  | Text s => s
  | Elem _ ch => flat_map textContent ch
  end.

Definition indexedFlatMap {A B} (f : nat -> A -> list B)
  : nat -> list A -> list B :=
  fix go i l :=
    match l with
    | [] => []
    | x :: l' => f i x ++ go (S i) l'
    end.

Definition under {A} (i : nat) (x : Path * A) : Path * A := (i :: x.1, x.2).

(** The elements of a subtree in document order, its root included. *)
Fixpoint elementsOf (n : Node) : list (Path * Node) :=
  match n with
  | Text _ => []
  | Elem e ch =>
      ([], n) :: indexedFlatMap (fun i c => map (under i) (elementsOf c)) 0 ch
  end.

(** The element descendants of a node in document order. *)
Definition descendantsOf (n : Node) : list (Path * Node) :=
  indexedFlatMap (fun i c => map (under i) (elementsOf c)) 0 (children n).

(** *** Selectors *)

(** The selectors of the script look at one element: an attribute
    selector [[data-key]], a class selector, a type selector. *)
Definition Selector := Element -> bool.

Definition eqs (a b : jsstring) : bool := bool_decide (a = b).

Definition byData (key : string) : Selector :=
  fun e => bool_decide (is_Some (dataset e !! lit key)).
Definition byClass (c : string) : Selector :=
  fun e => existsb (eqs (lit c)) (classList e).
Definition byTag (t : string) : Selector :=
  fun e => eqs (tagName e) (lit t).

Definition matches (sel : Selector) (n : Node) : bool :=
  match n with
  | Elem e _ => sel e
  | Text _ => false
  end.

(** [root.querySelectorAll(sel)], as element references relative to
    [root]. *)
Definition querySelectorAll (sel : Selector) (root : Node)
  : list (Path * Node) :=
  List.filter (fun x => matches sel x.2) (descendantsOf root).

Definition querySelector (sel : Selector) (root : Node)
  : option (Path * Node) :=
  head (querySelectorAll sel root).

(** [document.getElementById(i)]: the first element in document order
    whose id is [i]; the empty string is no id. *)
Definition hasId (i : jsstring) (n : Node) : bool :=
  match n with
  | Elem e _ => eqs (id e) i
  | Text _ => false
  end.

Definition getElementById (i : jsstring) (doc : Node) : option Path :=
  match i with
  | [] => None
  | _ => fst <$> List.find (fun x => hasId i x.2) (descendantsOf doc)
  end.

(** The prefixes of a path, shortest first. *)
Fixpoint inits (p : Path) : list Path :=
  [] :: match p with
        | [] => []
        | i :: p' => map (cons i) (inits p')
        end.

(** An element and its element ancestors, nearest first; the document
    node itself, at the empty path, is not an element. *)
Definition inclusiveAncestors (p : Path) : list Path :=
  rev (tail (inits p)).

Definition matchesAt (sel : Selector) (doc : Node) (p : Path) : bool :=
  match getNode p doc with
  | Some n => matches sel n
  | None => false
  end.

(** [el.closest(sel)] for the element at [p]. *)
Definition closest (sel : Selector) (doc : Node) (p : Path) : option Path :=
  List.find (matchesAt sel doc) (inclusiveAncestors p).

(** *** Values of form controls *)

(** The value of an option: its [value] attribute, or its text. *)
Definition optionValue (n : Node) : jsstring :=
  match n with
  | Elem e _ => match value e with Some v => v | None => textContent n end
  | Text _ => []
  end.

Definition isSelectedOption (n : Node) : bool :=
  match n with
  | Elem e _ => eqs (tagName e) (lit "option") && selected e
  | Text _ => false
  end.

(** [el.value]: for a select, the value of its first selected option and
    the empty string when there is none. *)
Definition valueOf (n : Node) : option jsstring :=
  match n with
  | Elem e ch =>
      if eqs (tagName e) (lit "select") then
        match List.find isSelectedOption ch with
        | Some o => Some (optionValue o)
        | None => Some []
        end
      else value e
  | Text _ => None
  end.

(** [document.getElementById(i)?.value]. *)
Definition valueById (i : jsstring) (doc : Node) : option jsstring :=
  match getElementById i doc with
  | Some p => match getNode p doc with
              | Some n => valueOf n
              | None => None
              end
  | None => None
  end.

(** *** Writes to an element *)

Definition withValue (v : option jsstring) (e : Element) : Element :=
  mkElement (tagName e) (id e) (classList e) (dataset e) (attributes e)
    v (hidden e) (disabled e) (required e) (selected e) (display e)
    (onclick e).

Definition withHidden (b : bool) (e : Element) : Element :=
  mkElement (tagName e) (id e) (classList e) (dataset e) (attributes e)
    (value e) b (disabled e) (required e) (selected e) (display e)
    (onclick e).

Definition withDisabled (b : bool) (e : Element) : Element :=
  mkElement (tagName e) (id e) (classList e) (dataset e) (attributes e)
    (value e) (hidden e) b (required e) (selected e) (display e)
    (onclick e).

Definition withSelected (b : bool) (e : Element) : Element :=
  mkElement (tagName e) (id e) (classList e) (dataset e) (attributes e)
    (value e) (hidden e) (disabled e) (required e) b (display e)
    (onclick e).

Definition withDisplay (s : jsstring) (e : Element) : Element :=
  mkElement (tagName e) (id e) (classList e) (dataset e) (attributes e)
    (value e) (hidden e) (disabled e) (required e) (selected e) s
    (onclick e).

(** Assigning the value of a select: every option is deselected, then the
    first option with that value is selected. *)
Fixpoint selectByValue (v : jsstring) (ch : list Node) : list Node :=
  match ch with
  | [] => []
  | o :: rest =>
      if matches (byTag "option") o && eqs (optionValue o) v then
        alterElement (withSelected true) o
          :: map (alterElement (withSelected false)) rest
      else alterElement (withSelected false) o :: selectByValue v rest
  end.

(** [el.value = v]. *)
Definition assignValue (v : jsstring) (n : Node) : Node :=
  match n with
  | Elem e ch =>
      if eqs (tagName e) (lit "select") then Elem e (selectByValue v ch)
      else Elem (withValue (Some v) e) ch
  | Text _ => n
  end.

(** [el.remove()]: the node leaves its parent's child list. *)
Definition removeNode (p : Path) (doc : Node) : Node :=
  match rev p with
  | [] => doc
  | i :: rparent =>
      alterNode (fun n => setChildren (delete i (children n)) n)
        (rev rparent) doc
  end.

(** [parent.appendChild(c)] for a node [c] that is not yet in the tree. *)
Definition appendChild (c : Node) (n : Node) : Node :=
  setChildren (children n ++ [c]) n.

(** *** Selectedness *)

Definition hasAttribute (name : string) (e : Element) : bool :=
  existsb (fun a => eqs a.1 (lit name)) (attributes e).

Definition isEnabledOption (n : Node) : bool :=
  match n with
  | Elem e _ => eqs (tagName e) (lit "option") && negb (disabled e)
  | Text _ => false
  end.

Fixpoint selectFirst (ch : list Node) : list Node :=
  match ch with
  | [] => []
  | o :: rest =>
      if isEnabledOption o then alterElement (withSelected true) o :: rest
      else o :: selectFirst rest
  end.

(** What a drop-down does when its options change: with no option
    selected, the first enabled one becomes selected. *)
Definition resetSelectedness (n : Node) : Node :=
  match n with
  | Elem e ch =>
      if eqs (tagName e) (lit "select") && negb (hasAttribute "multiple" e)
         && negb (hasAttribute "size" e) && negb (existsb isSelectedOption ch)
      then Elem e (selectFirst ch)
      else n
  | Text _ => n
  end.

(** *** More of the string library *)

(** [s.split(sep)] for a separator of one code unit. *)
Fixpoint split (sep : N) (s : jsstring) : list jsstring :=
  match s with
  | [] => [[]]
  | c :: s' =>
      if c =? sep then [] :: split sep s'
      else match split sep s' with
           | h :: t => (c :: h) :: t
           | [] => [[c]]
           end
  end.

(** White space and line terminators of ECMA-262. *)
Definition isWhiteSpace (c : N) : bool :=
  inRange 9 13 c || (c =? 32) || (c =? 160) || (c =? 5760)
  || inRange 8192 8202 c || (c =? 8232) || (c =? 8233) || (c =? 8239)
  || (c =? 8287) || (c =? 12288) || (c =? 65279).

Fixpoint trimStart (s : jsstring) : jsstring :=
  match s with
  | c :: s' => if isWhiteSpace c then trimStart s' else s
  | [] => []
  end.

(** [s.trim()]. *)
Definition trim (s : jsstring) : jsstring :=
  rev (trimStart (rev (trimStart s))).

Definition nonEmpty (s : jsstring) : bool :=
  match s with
  | [] => false
  | _ :: _ => true
  end.

Definition quote : N := 34.
Definition comma : N := 44.
Definition slash : N := 47.
Definition colon : N := 58.

(** ** Markup written by the script *)

Definition element (tag : string) : Element :=
  mkElement (lit tag) [] [] ∅ [] None false false false false [] None.

Definition withAttributes (a : list (jsstring * jsstring)) (e : Element)
  : Element :=
  mkElement (tagName e) (id e) (classList e) (dataset e) a
    (value e) (hidden e) (disabled e) (required e) (selected e) (display e)
    (onclick e).

Definition withClassList (c : list jsstring) (e : Element) : Element :=
  mkElement (tagName e) (id e) c (dataset e) (attributes e)
    (value e) (hidden e) (disabled e) (required e) (selected e) (display e)
    (onclick e).

Definition withDataset (d : gmap jsstring jsstring) (e : Element) : Element :=
  mkElement (tagName e) (id e) (classList e) d (attributes e)
    (value e) (hidden e) (disabled e) (required e) (selected e) (display e)
    (onclick e).

Definition withRequired (b : bool) (e : Element) : Element :=
  mkElement (tagName e) (id e) (classList e) (dataset e) (attributes e)
    (value e) (hidden e) (disabled e) b (selected e) (display e)
    (onclick e).

Definition withOnclick (h : option InlineHandler) (e : Element) : Element :=
  mkElement (tagName e) (id e) (classList e) (dataset e) (attributes e)
    (value e) (hidden e) (disabled e) (required e) (selected e) (display e)
    h.

(** [<option value="v">label</option>]. *)
Definition optionMarkup (v label : jsstring) : jsstring :=
  lit "<option value=" ++ [quote] ++ v ++ [quote] ++ lit ">" ++ label
  ++ lit "</option>".

Definition optionNode (sel : bool) (v label : jsstring) : Node :=
  Elem (withSelected sel (withValue (Some v) (element "option")))
       (match label with [] => [] | _ => [Text label] end).

Definition loadingMarkup : jsstring := optionMarkup [] (lit "Loading...").
Definition errorMarkup : jsstring := optionMarkup [] (lit "Error loading").

(** [<option value="">Select ${name}...</option>]. *)
Definition selectMarkup (name : jsstring) : jsstring :=
  optionMarkup [] (lit "Select " ++ name ++ lit "...").

Definition newline : N := 10.
Definition spaces (n : nat) : jsstring := repeat 32 n.

(** The template literal of [createAltLabelField]. *)
Definition altLabelMarkup : jsstring :=
  [newline] ++ spaces 12
  ++ lit "<input type=" ++ [quote] ++ lit "text" ++ [quote]
  ++ lit " name=" ++ [quote] ++ lit "alt_labels" ++ [quote]
  ++ lit " placeholder=" ++ [quote] ++ lit "Alternative label" ++ [quote]
  ++ lit " required>"
  ++ [newline] ++ spaces 12
  ++ lit "<button type=" ++ [quote] ++ lit "button" ++ [quote]
  ++ lit " data-remove-field>Remove</button>"
  ++ [newline] ++ spaces 8.

Definition altLabelDiv : Element :=
  withClassList [lit "alt-label-field"] (element "div").

Definition altLabelInput : Element :=
  withRequired true
    (withValue (Some [])
       (withAttributes
          [(lit "type", lit "text"); (lit "name", lit "alt_labels");
           (lit "placeholder", lit "Alternative label")]
          (element "input"))).

Definition removeFieldButton : Element :=
  withDataset {[ lit "removeField" := [] ]}
    (withAttributes [(lit "type", lit "button")] (element "button")).

(** The nodes that the markup of [createAltLabelField] stands for. *)
Definition altLabelChildren : list Node :=
  [ Text ([newline] ++ spaces 12);
    Elem altLabelInput [];
    Text ([newline] ++ spaces 12);
    Elem removeFieldButton [Text (lit "Remove")];
    Text ([newline] ++ spaces 8) ].

(** ** The platform

    What the script takes from the browser and this development leaves
    open: Unicode upper-casing, the rendered text [el.innerText], and the
    HTML fragment parser behind
    [el.innerHTML = markup] (the children that the assignment gives the
    context element).  Of the parser only two facts are used: what it
    makes of the error placeholder inside a select, whatever selectedness
    the select then gives the option, and what it makes of the markup of a
    new alt-label row inside its fresh div.  The parser of the reference
    platform, further down, computes both from the markup. *)

Class Platform := {
  toUpperCase : jsstring -> jsstring;
  toUpperCase_empty : toUpperCase [] = [];
  innerText : Node -> jsstring;
  parseFragment : Element -> jsstring -> list Node;
  parseFragment_error : forall e,
    tagName e = lit "select" ->
    exists sel,
      parseFragment e errorMarkup = [optionNode sel [] (lit "Error loading")];
  parseFragment_altLabel :
    parseFragment altLabelDiv altLabelMarkup = altLabelChildren
}.

(** [el.innerHTML = markup]. *)
Definition assignInnerHTML `{Platform} (markup : jsstring) (n : Node) : Node :=
  match n with
  | Elem e _ => Elem e (parseFragment e markup)
  | Text _ => n
  end.

(** ** Effects

    A handler runs against the document and leaves a chronological record
    of what it did: its writes to the document, the dialogs it opened, the
    requests it issued, the events it dispatched. *)

Record Request := mkRequest {
  method : jsstring;
  url : option jsstring;
  contentType : option jsstring;
  body : option (gmap jsstring jsstring)
}.

Inductive Action :=
| SetValue (p : Path) (v : jsstring)
| SetHidden (p : Path) (b : bool)
| SetDisabled (p : Path) (b : bool)
| SetDisplay (p : Path) (s : jsstring)
| SetInnerHTML (p : Path) (markup : jsstring)
| ReplaceChildren (p : Path) (ch : list Node)
| AppendChild (p : Path) (c : Node)
| RemoveNode (p : Path)
| DispatchEvent (p : Path) (type : jsstring)
| Confirm (message : jsstring)
| Alert (message : jsstring)
| ConsoleError
| Reload
| Fetch (r : Request)
| Uncaught (error : jsstring).

Record World := mkWorld {
  document : Node;
  log : list Action
}.

Definition M (A : Type) : Type := World -> A * World.

Definition ret {A} (a : A) : M A := fun w => (a, w).

Definition bind {A B} (m : M A) (k : A -> M B) : M B :=
  fun w => let (a, w') := m w in k a w'.

Notation "'do' x <- m ; k" := (bind m (fun x => k))
  (at level 10, x name, m at level 100, k at level 200,
   format "'[v' 'do'  x  <-  m ; '/' k ']'").
Notation "m >> k" := (bind m (fun _ => k))
  (at level 100, k at level 200, right associativity).

Definition getDocument : M Node := fun w => (document w, w).

Definition emit (a : Action) : M unit :=
  fun w => (tt, mkWorld (document w) (log w ++ [a])).

Definition modify (f : Node -> Node) : M unit :=
  fun w => (tt, mkWorld (f (document w)) (log w)).

Fixpoint forEach {A} (f : A -> M unit) (l : list A) : M unit :=
  match l with
  | [] => ret tt
  | x :: l' => f x >> forEach f l'
  end.

Definition setValue (p : Path) (v : jsstring) : M unit :=
  emit (SetValue p v) >> modify (alterNode (assignValue v) p).

Definition setHidden (p : Path) (b : bool) : M unit :=
  emit (SetHidden p b) >> modify (alterNode (alterElement (withHidden b)) p).

Definition setDisabled (p : Path) (b : bool) : M unit :=
  emit (SetDisabled p b)
  >> modify (alterNode (alterElement (withDisabled b)) p).

Definition setDisplay (p : Path) (s : jsstring) : M unit :=
  emit (SetDisplay p s)
  >> modify (alterNode (alterElement (withDisplay s)) p).

Definition setInnerHTML `{Platform} (p : Path) (markup : jsstring) : M unit :=
  emit (SetInnerHTML p markup) >> modify (alterNode (assignInnerHTML markup) p).

Definition replaceChildren (p : Path) (ch : list Node) : M unit :=
  emit (ReplaceChildren p ch) >> modify (alterNode (setChildren ch) p).

Definition appendChildAt (p : Path) (c : Node) : M unit :=
  emit (AppendChild p c) >> modify (alterNode (appendChild c) p).

Definition removeAt (p : Path) : M unit :=
  emit (RemoveNode p) >> modify (removeNode p).

(** *** Requests and their outcomes *)

(** A JSON response body, as far as the script looks at it: an array (its
    items held by their string conversion, which is all the script uses),
    a string, or any other value (a number, a boolean, null, an object). *)
Inductive Json :=
| JArray (items : list jsstring)
| JString (s : jsstring)
| JOther.

Inductive ResponseBody :=
| NotJson
| IsJson (j : Json).

(** How a [fetch] settles: the promise rejects, or a response arrives with
    its [ok] flag (a 2xx status) and its body. *)
Inductive FetchOutcome :=
| NetworkError
| Response (ok : bool) (b : ResponseBody).

(** What a handler leaves waiting for a request to settle. *)
Inductive Continuation :=
| DeleteSettled (itemType : jsstring)
| CascadeSettled (target : Path) (enables : jsstring)
| LegacyDeleteSettled (itemType : jsstring)
| LoadSchemasSettled (schemaSelect : Path).


(** ** Events and listeners *)

Record Event := mkEvent {
  eventType : jsstring;
  target : Path;
  bubbles : bool
}.

(** The binding of one [[data-uri-from]] input, as [initUriGeneration]
    reads it. *)
Record UriBinding := mkUriBinding {
  uriInput : Path;
  sourceIds : list jsstring;
  userNs : jsstring;
  separator : jsstring
}.

(** The listener functions of the attribute-driven script. *)
Inductive Handler :=
| FilterHandler (input list : Path)
| DeleteClickHandler
| UpdateUriHandler (b : UriBinding)
| AltLabelClickHandler
| CascadeChangeHandler (select : Path).

(** One [target.addEventListener(type, handler)]. *)
Record Registration := mkRegistration {
  listensOn : Path;
  listensFor : jsstring;
  handler : Handler
}.

Global Instance UriBinding_eq_dec : EqDecision UriBinding.
Proof. solve_decision. Defined.
Global Instance Handler_eq_dec : EqDecision Handler.
Proof. solve_decision. Defined.
Global Instance Registration_eq_dec : EqDecision Registration.
Proof. solve_decision. Defined.

(** Registering the same listener twice on a target has no effect. *)
Definition addEventListener (r : Registration) (regs : list Registration)
  : list Registration :=
  if bool_decide (r ∈ regs) then regs else regs ++ [r].

(** The targets an event visits: the target alone, or for a bubbling event
    the target, its ancestors and the document. *)
Definition propagationPath (ev : Event) : list Path :=
  if bubbles ev then rev (inits (target ev)) else [target ev].

Definition listenersAt (regs : list Registration) (type : jsstring) (p : Path)
  : list Handler :=
  map handler
    (List.filter
       (fun r => bool_decide (listensOn r = p) && eqs (listensFor r) type)
       regs).

Definition listenersFor (regs : list Registration) (ev : Event)
  : list Handler :=
  flat_map (listenersAt regs (eventType ev)) (propagationPath ev).

(** Runs the handlers one after the other and gathers what they leave
    pending. *)
Fixpoint runAll {A} (f : A -> M (list Continuation)) (l : list A)
  : M (list Continuation) :=
  match l with
  | [] => ret []
  | x :: l' => do ks <- f x; do ks' <- runAll f l'; ret (ks ++ ks')
  end.

Definition inputEvent (p : Path) : Event := mkEvent (lit "input") p true.
Definition changeEvent (p : Path) : Event := mkEvent (lit "change") p true.
Definition clickEvent (p : Path) : Event := mkEvent (lit "click") p true.
(** [new Event('recalculate')] does not bubble. *)
Definition recalculateEvent (p : Path) : Event :=
  mkEvent (lit "recalculate") p false.

(** [el.dataset[key]] for the element at [p]. *)
Definition datasetAt (p : Path) (key : string) (doc : Node)
  : option jsstring :=
  match getNode p doc with
  | Some (Elem e _) => dataset e !! lit key
  | _ => None
  end.

(** [el.value] for the element at [p]. *)
Definition valueAt (p : Path) (doc : Node) : option jsstring :=
  match getNode p doc with
  | Some n => valueOf n
  | None => None
  end.

(** The positions of the element children of a node ([el.children]). *)
Definition elementIndices (ch : list Node) : list nat :=
  indexedFlatMap (fun i c => if isElement c then [i] else []) 0%nat ch.

(** * The attribute-driven script *)

Module Binder.
Section Binder.
Context `{Platform}.

(** ** List filtering *)

(** The upper-cased text that [filter] searches in one item. *)
Definition searchableText (item : Node) : jsstring :=
  let searchable :=
    match querySelector (byData "searchable") item with
    | Some _ => querySelectorAll (byData "searchable") item
    | None => querySelectorAll (byTag "span") item
    end in
  toUpperCase (join (lit " ") (map (fun el => textContent el.2) searchable)).

(** The closure [filter] of [initFiltering], for its [input] and [list]. *)
Definition filter (input list : Path) : M unit :=
  do doc <- getDocument;
  match valueAt input doc with
  | None => emit (Uncaught (lit "TypeError"))
  | Some v =>
      let query := toUpperCase v in
      forEach
        (fun i =>
           do d <- getDocument;
           match getNode (list ++ [i]) d with
           | Some item =>
               setHidden (list ++ [i])
                 (negb (includes (searchableText item) query))
           | None => ret tt
           end)
        (match getNode list doc with
         | Some l => elementIndices (children l)
         | None => []
         end)
  end.

Fixpoint initFilteringEach (inputs : list Path) (regs : list Registration)
  : M (list Registration) :=
  match inputs with
  | [] => ret regs
  | input :: rest =>
      do doc <- getDocument;
      match getElementById (default [] (datasetAt input "filterFor" doc)) doc
      with
      | None => initFilteringEach rest regs
      | Some list =>
          let regs' :=
            addEventListener
              (mkRegistration input (lit "input") (FilterHandler input list))
              regs in
          (if truthy (valueAt input doc) then filter input list else ret tt)
          >> initFilteringEach rest regs'
      end
  end.

Definition initFiltering (regs : list Registration) : M (list Registration) :=
  do doc <- getDocument;
  initFilteringEach (map fst (querySelectorAll (byData "filterFor") doc)) regs.

(** ** Delete operations *)

Definition excludedKeys : list jsstring := [lit "url"; lit "type"; lit "delete"].

(** [body[key] = value] on the object literal [body], for a string
    [value].  The key [__proto__] names no property of [body] itself: the
    assignment reaches the setter that every object inherits from
    [Object.prototype], which ignores a value that is neither an object
    nor [null], and [body] is left without such a property.  Any other key
    becomes a property of [body]. *)
Definition assignProperty (key value : jsstring)
    (body : gmap jsstring jsstring) : gmap jsstring jsstring :=
  if eqs key (lit "__proto__") then body else <[key := value]> body.

(** The loop that copies the entries of [btn.dataset] into [body]. *)
Definition buildBody (entries : list (jsstring * jsstring))
  : gmap jsstring jsstring :=
  foldl
    (fun body kv =>
       if existsb (eqs kv.1) excludedKeys then body
       else assignProperty kv.1 kv.2 body)
    ∅ entries.

Definition confirmMessage (itemType : jsstring) : jsstring :=
  lit "Are you sure you want to delete this " ++ itemType ++ lit "?".

Definition errorMessage (itemType : jsstring) : jsstring :=
  lit "Error deleting " ++ itemType.

(** The click listener of [initDeleteButtons]; [answer] is what the user
    replies to the confirmation dialog. *)
Definition deleteClick (answer : bool) (clicked : Path)
  : M (list Continuation) :=
  do doc <- getDocument;
  match closest (byData "delete") doc clicked with
  | None => ret []
  | Some btn =>
      match getNode btn doc with
      | Some (Elem e _) =>
          let url := dataset e !! lit "url" in
          let itemType := orElse (dataset e !! lit "type") (lit "item") in
          emit (Confirm (confirmMessage itemType))
          >> if answer then
               emit (Fetch (mkRequest (lit "DELETE") url
                              (Some (lit "application/json"))
                              (Some (buildBody (map_to_list (dataset e))))))
               >> ret [DeleteSettled itemType]
             else ret []
      | _ => ret []
      end
  end.

(** [.then(r => r.ok ? location.reload() : Promise.reject())
     .catch(() => alert(...))]. *)
Definition deleteSettled (itemType : jsstring) (r : FetchOutcome) : M unit :=
  match r with
  | Response true _ => emit Reload
  | _ => emit (Alert (errorMessage itemType))
  end.

Definition initDeleteButtons (regs : list Registration) : list Registration :=
  addEventListener (mkRegistration [] (lit "click") DeleteClickHandler) regs.

(** ** URI generation *)

(** The closure [updateUri] of [initUriGeneration]. *)
Definition updateUri (b : UriBinding) : M unit :=
  do doc <- getDocument;
  let parts :=
    List.filter truthy (map (fun i => valueById i doc) (sourceIds b)) in
  if (length parts =? length (sourceIds b))%nat && forallb truthy parts then
    match encodeURIComponent (join (separator b) (map (default []) parts)) with
    | Some encoded => setValue (uriInput b) (userNs b ++ encoded)
    | None => emit (Uncaught (lit "URIError"))
    end
  else ret tt.

Definition readUriBinding (doc : Node) (uriInput : Path) : UriBinding :=
  mkUriBinding uriInput
    (map trim (split comma (default [] (datasetAt uriInput "uriFrom" doc))))
    (match querySelector (byData "userNs") doc with
     | Some (_, Elem e _) => orElse (dataset e !! lit "userNs") []
     | _ => []
     end)
    (orElse (datasetAt uriInput "uriSeparator" doc) (lit ".")).

Definition initUriGeneration (doc : Node) (regs : list Registration)
  : list Registration :=
  foldl
    (fun regs uriInput =>
       let b := readUriBinding doc uriInput in
       foldl
         (fun regs i =>
            match getElementById i doc with
            | Some el =>
                addEventListener
                  (mkRegistration el (lit "input") (UpdateUriHandler b)) regs
            | None => regs
            end)
         regs (sourceIds b))
    regs (map fst (querySelectorAll (byData "uriFrom") doc)).

(** ** Alternative labels *)

Definition createAltLabelField : Node :=
  Elem altLabelDiv (parseFragment altLabelDiv altLabelMarkup).

(** The click listener of [initAltLabels]. *)
Definition altLabelClick (clicked : Path) : M unit :=
  do doc <- getDocument;
  match closest (byData "addAltLabel") doc clicked with
  | Some addBtn =>
      match
        getElementById (default [] (datasetAt addBtn "addAltLabel" doc)) doc
      with
      | Some container => appendChildAt container createAltLabelField
      | None => ret tt
      end
  | None =>
      match closest (byData "removeField") doc clicked with
      | Some removeBtn =>
          match closest (byClass "alt-label-field") doc removeBtn with
          | Some row => removeAt row
          | None => ret tt
          end
      | None => ret tt
      end
  end.

Definition initAltLabels (regs : list Registration) : list Registration :=
  addEventListener (mkRegistration [] (lit "click") AltLabelClickHandler) regs.

(** ** Cascade selects *)

(** One round of [resets.forEach]. *)
Definition resetDependent (i : jsstring) : M unit :=
  do d <- getDocument;
  match getElementById i d with
  | Some el => setInnerHTML el (selectMarkup i) >> setDisabled el true
  | None => ret tt
  end.

(** The request path: every segment [:name] of the template becomes the
    value of the element with that id. *)
Definition buildUrl (apiPath : jsstring) (doc : Node) : jsstring :=
  join [slash]
    (map
       (fun part =>
          if startsWith part [colon] then orElse (valueById (drop 1 part) doc) []
          else part)
       (split slash apiPath)).

Definition getRequest (u : jsstring) : Request :=
  mkRequest (lit "GET") (Some u) None None.

(** The change listener of [initCascadeSelects], up to the point where it
    awaits the response; [dispatch] delivers the events it dispatches. *)
Definition cascadeChange (dispatch : Event -> M (list Continuation))
    (select : Path) : M (list Continuation) :=
  do doc <- getDocument;
  let apiPath := datasetAt select "cascade" doc in
  let resets :=
    List.filter nonEmpty
      (split comma (orElse (datasetAt select "resets" doc) [])) in
  let enables := datasetAt select "enables" doc in
  let targetSelect :=
    if truthy enables then getElementById (default [] enables) doc
    else None in
  forEach resetDependent resets
  >> do d1 <- getDocument;
     do ks <-
       runAll
         (fun el =>
            emit (DispatchEvent el (lit "recalculate"))
            >> dispatch (recalculateEvent el))
         (map fst (querySelectorAll (byData "uriFrom") d1));
     do d2 <- getDocument;
     match targetSelect with
     | Some t =>
         if truthy (valueAt select d2) then
           match apiPath with
           | Some path =>
               setInnerHTML t loadingMarkup
               >> emit (Fetch (getRequest (buildUrl path d2)))
               >> ret (ks ++ [CascadeSettled t (default [] enables)])
           | None => emit (Uncaught (lit "TypeError")) >> ret ks
           end
         else ret ks
     | None => ret ks
     end.

(** The rest of the change listener, once the request has settled: the
    body of [try] when the response parses to an array, the body of
    [catch] when the request or [r.json()] rejects or [items.map] is not a
    function. *)
Definition cascadeSettled (t : Path) (enables : jsstring) (r : FetchOutcome)
  : M unit :=
  match r with
  | Response _ (IsJson (JArray items)) =>
      setInnerHTML t
        (selectMarkup enables
         ++ join [] (map (fun item => optionMarkup item item) items))
      >> setDisabled t false
  | _ => setInnerHTML t errorMarkup
  end.

Definition initCascadeSelects (doc : Node) (regs : list Registration)
  : list Registration :=
  foldl
    (fun regs select =>
       addEventListener
         (mkRegistration select (lit "change") (CascadeChangeHandler select))
         regs)
    regs (map fst (querySelectorAll (byData "cascade") doc)).

(** ** Dispatch *)

Definition runHandler (dispatch : Event -> M (list Continuation))
    (answer : bool) (ev : Event) (h : Handler) : M (list Continuation) :=
  match h with
  | FilterHandler input list => filter input list >> ret []
  | DeleteClickHandler => deleteClick answer (target ev)
  | UpdateUriHandler b => updateUri b >> ret []
  | AltLabelClickHandler => altLabelClick (target ev) >> ret []
  | CascadeChangeHandler select => cascadeChange dispatch select
  end.

(** Delivery of an event to the registered listeners.  A listener may
    dispatch further events; [depth] bounds that nesting. *)
Fixpoint dispatchEvent (depth : nat) (regs : list Registration)
    (answer : bool) (ev : Event) : M (list Continuation) :=
  match depth with
  | O => ret []
  | S d =>
      runAll (runHandler (dispatchEvent d regs answer) answer ev)
        (listenersFor regs ev)
  end.

(** ** Initialisation on [DOMContentLoaded] *)

Definition DOMContentLoaded : M (list Registration) :=
  do regs <- initFiltering [];
  do doc <- getDocument;
  ret (initCascadeSelects doc
         (initAltLabels (initUriGeneration doc (initDeleteButtons regs)))).

End Binder.
End Binder.

(** * The page-specific functions *)

Module Legacy.

(** [window.TAGSO_CONFIG], every key of which may be missing. *)
Record Config := mkConfig {
  conceptDeleteUrl : option jsstring;
  propertyDeleteUrl : option jsstring;
  tableDeleteUrl : option jsstring;
  columnDeleteUrl : option jsstring;
  relationshipDeleteUrl : option jsstring;
  userNs : option jsstring
}.

(** What [loadTables] and [loadColumns] leave waiting for their request to
    settle. *)
Inductive Pending :=
| LoadTablesSettled (tableSelect : Path)
| LoadColumnsSettled (columnSelect : Path).

Section Legacy.
Context `{Platform}.
Variable config : Config.

(** ** Generic list filtering *)

Definition byClassName (c : jsstring) : Selector :=
  fun e => existsb (eqs c) (classList e).

(** [el.textContent || el.innerText]. *)
Definition textOf (n : Node) : jsstring :=
  match textContent n with
  | [] => innerText n
  | t => t
  end.

(** The string [txt] that [filterList] builds for one item. *)
Definition itemText (searchableClass : option jsstring) (item : Node)
  : jsstring :=
  if truthy searchableClass then
    foldl (fun txt span => txt ++ textOf span.2) []
      (querySelectorAll (byClassName (default [] searchableClass)) item)
  else
    foldl (fun txt span => txt ++ lit " " ++ textOf span.2) []
      (querySelectorAll (byTag "span") item).

Definition filterList (searchInputId listId : jsstring)
    (searchableClass : option jsstring) : M unit :=
  do doc <- getDocument;
  match valueById searchInputId doc, getElementById listId doc with
  | Some v, Some ul =>
      let filter := toUpperCase v in
      forEach
        (fun i =>
           do d <- getDocument;
           match getNode (ul ++ [i]) d with
           | Some item =>
               if includes (toUpperCase (itemText searchableClass item)) filter
               then setDisplay (ul ++ [i]) []
               else setDisplay (ul ++ [i]) (lit "none")
           | None => ret tt
           end)
        (match getNode ul doc with
         | Some l => elementIndices (children l)
         | None => []
         end)
  | _, _ => emit (Uncaught (lit "TypeError"))
  end.

Definition filter_concepts : M unit :=
  filterList (lit "concept_search") (lit "concept_list") None.
Definition filter_properties : M unit :=
  filterList (lit "property_search") (lit "property_list") None.
Definition filter_tables : M unit :=
  filterList (lit "table_search") (lit "table_list") (Some (lit "searchable")).
Definition filter_columns : M unit :=
  filterList (lit "column_search") (lit "column_list")
    (Some (lit "searchable")).

(** ** Delete operations *)

Definition deleteRequest (deleteUrl : option jsstring)
    (b : gmap jsstring jsstring) : Request :=
  mkRequest (lit "DELETE") deleteUrl (Some (lit "application/json")) (Some b).

Definition deleteItem (answer : bool) (uri : jsstring)
    (deleteUrl : option jsstring) (itemType : jsstring)
  : M (list Continuation) :=
  emit (Confirm (lit "Are you sure you want to delete this " ++ itemType
                 ++ lit "?"))
  >> if answer then
       emit (Fetch (deleteRequest deleteUrl {[ lit "uri" := uri ]}))
       >> ret [LegacyDeleteSettled itemType]
     else ret [].

Definition deleteItemSettled (itemType : jsstring) (r : FetchOutcome)
  : M unit :=
  match r with
  | Response true _ => emit Reload
  | Response false _ => emit (Alert (lit "Error deleting " ++ itemType))
  | NetworkError =>
      emit ConsoleError >> emit (Alert (lit "Error deleting " ++ itemType))
  end.

Definition delete_concept (answer : bool) (concept_uri : jsstring) :=
  deleteItem answer concept_uri (conceptDeleteUrl config) (lit "concept").
Definition delete_property (answer : bool) (property_uri : jsstring) :=
  deleteItem answer property_uri (propertyDeleteUrl config) (lit "property").
Definition delete_table (answer : bool) (table_uri : jsstring) :=
  deleteItem answer table_uri (tableDeleteUrl config) (lit "table").
Definition delete_column (answer : bool) (column_uri : jsstring) :=
  deleteItem answer column_uri (columnDeleteUrl config) (lit "column").

Definition delete_relationship (answer : bool)
    (subject_uri predicate_type object_uri : jsstring)
  : M (list Continuation) :=
  emit (Confirm (lit "Are you sure you want to delete this relationship?"))
  >> if answer then
       emit (Fetch (deleteRequest (relationshipDeleteUrl config)
                      (<[ lit "subject_uri" := subject_uri ]>
                         (<[ lit "predicate_type" := predicate_type ]>
                            {[ lit "object_uri" := object_uri ]}))))
       >> ret [LegacyDeleteSettled (lit "relationship")]
     else ret [].

(** ** URI generation

    A result of [None] is a [URIError] thrown by [encodeURIComponent]. *)

Definition getUserNs : jsstring := orElse (userNs config) [].

Definition generate_uri_from_label (label : jsstring) : option jsstring :=
  match label with
  | [] => Some []
  | _ => app getUserNs <$> encodeURIComponent label
  end.

Definition generateUriFromTableName (catalog schema tableName : jsstring)
  : option jsstring :=
  if negb (nonEmpty catalog) || negb (nonEmpty schema)
     || negb (nonEmpty tableName)
  then Some []
  else app getUserNs
         <$> encodeURIComponent
               (catalog ++ lit "." ++ schema ++ lit "." ++ tableName).

Definition generateUriFromColumnName (catalog schema table column : jsstring)
  : option jsstring :=
  if negb (nonEmpty catalog) || negb (nonEmpty schema)
     || negb (nonEmpty table) || negb (nonEmpty column)
  then Some []
  else app getUserNs
         <$> encodeURIComponent
               (catalog ++ lit "." ++ schema ++ lit "." ++ table ++ lit "."
                ++ column).

(** [uriInput.value = generated], or the error that the generation threw. *)
Definition writeUri (uriInput : Path) (generated : option jsstring) : M unit :=
  match generated with
  | Some v => setValue uriInput v
  | None => emit (Uncaught (lit "URIError"))
  end.

Definition update_uri_from_label : M unit :=
  do doc <- getDocument;
  match getElementById (lit "label") doc, getElementById (lit "uri") doc with
  | Some labelInput, Some uriInput =>
      match valueAt labelInput doc with
      | Some v => writeUri uriInput (generate_uri_from_label v)
      | None => setValue uriInput []
      end
  | _, _ => ret tt
  end.

Definition updateUriFromSelection : M unit :=
  do doc <- getDocument;
  let catalog := orElse (valueById (lit "catalog") doc) [] in
  let schema := orElse (valueById (lit "schema") doc) [] in
  let table := orElse (valueById (lit "table") doc) [] in
  let column := orElse (valueById (lit "column") doc) [] in
  match getElementById (lit "uri") doc with
  | Some uriInput =>
      if nonEmpty column then
        writeUri uriInput
          (generateUriFromColumnName catalog schema table column)
      else writeUri uriInput (generateUriFromTableName catalog schema table)
  | None => ret tt
  end.

(** ** Alternative labels *)

Definition removeButton : Element :=
  withOnclick (Some OnclickRemoveAltLabelField)
    (withAttributes [(lit "type", lit "button")] (element "button")).

(** The row that [addAltLabelField] builds. *)
Definition newField : Node :=
  Elem altLabelDiv
    [Elem altLabelInput []; Elem removeButton [Text (lit "Remove")]].

Definition addAltLabelField (containerId : option jsstring) : M unit :=
  do doc <- getDocument;
  match getElementById (orElse containerId (lit "alt_labels_container")) doc
  with
  | Some container => appendChildAt container newField
  | None => ret tt
  end.

(** [button.parentElement.remove()]; the document node is no element. *)
Definition removeAltLabelField (button : Path) : M unit :=
  match removelast button with
  | [] => emit (Uncaught (lit "TypeError"))
  | parent => removeAt parent
  end.

(** A click reaches the [onclick] handlers of the clicked element and of
    its ancestors, nearest first. *)
Definition inlineClick (clicked : Path) : M unit :=
  do doc <- getDocument;
  forEach removeAltLabelField
    (List.filter
       (fun p =>
          matchesAt
            (fun e => bool_decide (onclick e = Some OnclickRemoveAltLabelField))
            doc p)
       (inclusiveAncestors clicked)).

(** ** Cascade select *)

Definition SELECT_PLACEHOLDERS_loading : jsstring := lit "Loading...".
Definition SELECT_PLACEHOLDERS_schema : jsstring := lit "Select Schema...".
Definition SELECT_PLACEHOLDERS_table : jsstring := lit "Select Table...".
Definition SELECT_PLACEHOLDERS_column : jsstring := lit "Select Column...".

(** [selectElement.add(new Option(text, value))]. *)
Definition addOption (p : Path) (text v : jsstring) : M unit :=
  appendChildAt p (optionNode false v text) >> modify (alterNode resetSelectedness p).

Definition populateSelect (selectElement : Path) (items : list jsstring)
    (placeholder : jsstring) : M unit :=
  replaceChildren selectElement []
  >> addOption selectElement placeholder []
  >> forEach (fun item => addOption selectElement item item) items.

(** [loadSchemas] up to the point where it awaits the response. *)
Definition loadSchemas : M (list Continuation) :=
  do doc <- getDocument;
  let typeError : M (list Continuation) :=
    emit (Uncaught (lit "TypeError")) >> ret [] in
  match getElementById (lit "catalog") doc, getElementById (lit "schema") doc
  with
  | Some _, Some schemaSelect =>
      let catalog := valueById (lit "catalog") doc in
      populateSelect schemaSelect [] SELECT_PLACEHOLDERS_loading
      >> match getElementById (lit "table") doc with
         | Some tableSelect =>
             populateSelect tableSelect [] SELECT_PLACEHOLDERS_table
             >> setDisabled tableSelect true
             >> match getElementById (lit "column") doc with
                | Some columnSelect =>
                    populateSelect columnSelect [] SELECT_PLACEHOLDERS_column
                    >> setDisabled columnSelect true
                | None => ret tt
                end
             >> updateUriFromSelection
             >> if truthy catalog then
                  emit (Fetch (mkRequest (lit "GET")
                                 (Some (lit "/api/schemas/"
                                        ++ default [] catalog))
                                 None None))
                  >> ret [LoadSchemasSettled schemaSelect]
                else
                  populateSelect schemaSelect [] SELECT_PLACEHOLDERS_schema
                  >> setDisabled schemaSelect true
                  >> ret []
         | None => typeError
         end
  | _, _ => typeError
  end.

(** The code points of a string, as [for ... of] yields them. *)
Fixpoint codePoints (s : jsstring) : list jsstring :=
  match s with
  | [] => []
  | c :: rest =>
      match rest with
      | d :: rest' =>
          if isLeadingSurrogate c && isTrailingSurrogate d
          then [c; d] :: codePoints rest'
          else [c] :: codePoints rest
      | [] => [[c]]
      end
  end.

(** The rest of [loadSchemas] once the request has settled.  A rejected
    request or an unparsable body ends the function with the rejection; a
    body that cannot be iterated does so after the placeholder has been
    put in place. *)
Definition loadSchemasSettled (schemaSelect : Path) (r : FetchOutcome)
  : M unit :=
  match r with
  | Response _ (IsJson (JArray items)) =>
      populateSelect schemaSelect items SELECT_PLACEHOLDERS_schema
      >> setDisabled schemaSelect false
  | Response _ (IsJson (JString s)) =>
      populateSelect schemaSelect (codePoints s) SELECT_PLACEHOLDERS_schema
      >> setDisabled schemaSelect false
  | Response _ (IsJson JOther) =>
      populateSelect schemaSelect [] SELECT_PLACEHOLDERS_schema
      >> emit (Uncaught (lit "TypeError"))
  | _ => emit (Uncaught (lit "rejection"))
  end.

(** A value inside a template literal; [undefined] reads "undefined". *)
Definition interpolate (v : option jsstring) : jsstring :=
  default (lit "undefined") v.

(** [loadTables] up to the point where it awaits the response. *)
Definition loadTables : M (list Pending) :=
  do doc <- getDocument;
  let typeError : M (list Pending) :=
    emit (Uncaught (lit "TypeError")) >> ret [] in
  match getElementById (lit "catalog") doc, getElementById (lit "schema") doc
  with
  | Some _, Some _ =>
      let catalog := valueById (lit "catalog") doc in
      let schema := valueById (lit "schema") doc in
      match getElementById (lit "column") doc with
      | Some columnSelect =>
          populateSelect columnSelect [] SELECT_PLACEHOLDERS_column
          >> setDisabled columnSelect true
      | None => ret tt
      end
      >> match getElementById (lit "table") doc with
         | Some tableSelect =>
             if truthy schema then
               populateSelect tableSelect [] SELECT_PLACEHOLDERS_loading
               >> emit (Fetch (mkRequest (lit "GET")
                                 (Some (lit "/api/tables/"
                                        ++ interpolate catalog ++ lit "/"
                                        ++ interpolate schema))
                                 None None))
               >> ret [LoadTablesSettled tableSelect]
             else
               populateSelect tableSelect [] SELECT_PLACEHOLDERS_table
               >> setDisabled tableSelect true
               >> updateUriFromSelection
               >> ret []
         | None => typeError
         end
  | _, _ => typeError
  end.

(** The rest of [loadTables] once the request has settled. *)
Definition loadTablesSettled (tableSelect : Path) (r : FetchOutcome)
  : M unit :=
  match r with
  | Response _ (IsJson (JArray items)) =>
      populateSelect tableSelect items SELECT_PLACEHOLDERS_table
      >> setDisabled tableSelect false
      >> updateUriFromSelection
  | Response _ (IsJson (JString s)) =>
      populateSelect tableSelect (codePoints s) SELECT_PLACEHOLDERS_table
      >> setDisabled tableSelect false
      >> updateUriFromSelection
  | Response _ (IsJson JOther) =>
      populateSelect tableSelect [] SELECT_PLACEHOLDERS_table
      >> emit (Uncaught (lit "TypeError"))
  | _ => emit (Uncaught (lit "rejection"))
  end.

(** [loadColumns] up to the point where it awaits the response. *)
Definition loadColumns : M (list Pending) :=
  do doc <- getDocument;
  match getElementById (lit "catalog") doc, getElementById (lit "schema") doc,
        getElementById (lit "table") doc
  with
  | Some _, Some _, Some _ =>
      let catalog := valueById (lit "catalog") doc in
      let schema := valueById (lit "schema") doc in
      let table := valueById (lit "table") doc in
      match getElementById (lit "column") doc with
      | None => ret []
      | Some columnSelect =>
          if truthy table then
            populateSelect columnSelect [] SELECT_PLACEHOLDERS_loading
            >> emit (Fetch (mkRequest (lit "GET")
                              (Some (lit "/api/columns/"
                                     ++ interpolate catalog ++ lit "/"
                                     ++ interpolate schema ++ lit "/"
                                     ++ interpolate table))
                              None None))
            >> ret [LoadColumnsSettled columnSelect]
          else
            populateSelect columnSelect [] SELECT_PLACEHOLDERS_column
            >> setDisabled columnSelect true
            >> updateUriFromSelection
            >> ret []
      end
  | _, _, _ => emit (Uncaught (lit "TypeError")) >> ret []
  end.

(** The rest of [loadColumns] once the request has settled. *)
Definition loadColumnsSettled (columnSelect : Path) (r : FetchOutcome)
  : M unit :=
  match r with
  | Response _ (IsJson (JArray items)) =>
      populateSelect columnSelect items SELECT_PLACEHOLDERS_column
      >> setDisabled columnSelect false
      >> updateUriFromSelection
  | Response _ (IsJson (JString s)) =>
      populateSelect columnSelect (codePoints s) SELECT_PLACEHOLDERS_column
      >> setDisabled columnSelect false
      >> updateUriFromSelection
  | Response _ (IsJson JOther) =>
      populateSelect columnSelect [] SELECT_PLACEHOLDERS_column
      >> emit (Uncaught (lit "TypeError"))
  | _ => emit (Uncaught (lit "rejection"))
  end.

(** What follows when a request of [loadTables] or [loadColumns] has
    settled. *)
Definition settlePending (k : Pending) (r : FetchOutcome) : M unit :=
  match k with
  | LoadTablesSettled tableSelect => loadTablesSettled tableSelect r
  | LoadColumnsSettled columnSelect => loadColumnsSettled columnSelect r
  end.

End Legacy.
End Legacy.

(** * Settling a request *)

Definition settle `{Platform} (k : Continuation) (r : FetchOutcome) : M unit :=
  match k with
  | DeleteSettled itemType => Binder.deleteSettled itemType r
  | CascadeSettled t enables => Binder.cascadeSettled t enables r
  | LegacyDeleteSettled itemType => Legacy.deleteItemSettled itemType r
  | LoadSchemasSettled schemaSelect => Legacy.loadSchemasSettled schemaSelect r
  end.

(** * A reference platform

    A platform on which the definitions can be run: upper-casing of the
    ASCII letters, the text content as rendered text, and a parser for
    markup of the kind that the script writes: elements with their
    attributes, quoted or bare, the text between them, and [input] among
    the elements that have no end tag.  Character references are not
    decoded, and the context element only decides the selectedness of the
    options of a select. *)

Definition asciiUpper (c : N) : N :=
  if inRange 97 122 c then c - 32 else c.

Fixpoint breakAt (stop : N) (s : jsstring) : option (jsstring * jsstring) :=
  match s with
  | [] => None
  | c :: s' =>
      if c =? stop then Some ([], s')
      else match breakAt stop s' with
           | Some (a, b) => Some (c :: a, b)
           | None => None
           end
  end.

Definition lessThan : N := 60.
Definition greaterThan : N := 62.
Definition equalsSign : N := 61.
Definition hyphen : N := 45.
Definition blank : N := 32.

(** The longest prefix of code units that satisfy [f], and the rest. *)
Fixpoint takeWhile (f : N -> bool) (s : jsstring) : jsstring * jsstring :=
  match s with
  | c :: s' =>
      if f c then let (a, b) := takeWhile f s' in (c :: a, b) else ([], s)
  | [] => ([], [])
  end.

(** The white space of HTML. *)
Definition isSpace (c : N) : bool :=
  (c =? 32) || (c =? 9) || (c =? 10) || (c =? 12) || (c =? 13).

Definition inName (c : N) : bool :=
  negb (isSpace c || (c =? equalsSign) || (c =? greaterThan)).

(** The attributes of a start tag, up to and including its [>]: each is a
    name, followed or not by [="value"]. *)
Fixpoint parseAttributes (fuel : nat) (s : jsstring)
  : list (jsstring * jsstring) * jsstring :=
  match fuel with
  | O => ([], s)
  | S fuel' =>
      match s with
      | [] => ([], [])
      | c :: s1 =>
          if c =? greaterThan then ([], s1)
          else if inName c then
            let (name, s2) := takeWhile inName s in
            match s2 with
            | e :: q :: s3 =>
                if (e =? equalsSign) && (q =? quote) then
                  match breakAt quote s3 with
                  | Some (v, s4) =>
                      let (l, rest) := parseAttributes fuel' s4 in
                      ((name, v) :: l, rest)
                  | None => ([], [])
                  end
                else
                  let (l, rest) := parseAttributes fuel' s2 in
                  ((name, []) :: l, rest)
            | _ =>
                let (l, rest) := parseAttributes fuel' s2 in
                ((name, []) :: l, rest)
            end
          else parseAttributes fuel' s1
      end
  end.

(** The [dataset] key of an attribute [data-*]: a hyphen before a small
    letter goes, and the letter becomes a capital. *)
Fixpoint camelCase (s : jsstring) : jsstring :=
  match s with
  | [] => []
  | c :: s' =>
      match s' with
      | d :: s'' =>
          if (c =? hyphen) && inRange 97 122 d then (d - 32) :: camelCase s''
          else c :: camelCase s'
      | [] => [c]
      end
  end.

Definition setId (i : jsstring) (e : Element) : Element :=
  mkElement (tagName e) i (classList e) (dataset e) (attributes e)
    (value e) (hidden e) (disabled e) (required e) (selected e) (display e)
    (onclick e).

(** A fresh element; an input has a value, the empty string. *)
Definition createElement (tag : jsstring) : Element :=
  mkElement tag [] [] ∅ []
    (if eqs tag (lit "input") then Some [] else None)
    false false false false [] None.

(** What an attribute of the markup makes of the element. *)
Definition applyAttribute (e : Element) (a : jsstring * jsstring) : Element :=
  if eqs a.1 (lit "value") then withValue (Some a.2) e
  else if eqs a.1 (lit "required") then withRequired true e
  else if eqs a.1 (lit "disabled") then withDisabled true e
  else if eqs a.1 (lit "hidden") then withHidden true e
  else if eqs a.1 (lit "selected") then withSelected true e
  else if eqs a.1 (lit "id") then setId a.2 e
  else if eqs a.1 (lit "class") then
    withClassList (List.filter nonEmpty (split blank a.2)) e
  else if startsWith a.1 (lit "data-") then
    withDataset (<[camelCase (drop 5 a.1) := a.2]> (dataset e)) e
  else withAttributes (attributes e ++ [a]) e.

Definition isVoid (tag : jsstring) : bool :=
  existsb (eqs tag) [lit "input"; lit "br"; lit "hr"; lit "img"].

(** The nodes that a run of markup stands for, up to the end tag of the
    element that they are the children of, and the markup after that end
    tag. *)
Fixpoint parseNodes (fuel : nat) (s : jsstring) : list Node * jsstring :=
  match fuel with
  | O => ([], [])
  | S fuel' =>
      match s with
      | [] => ([], [])
      | c :: s1 =>
          if c =? lessThan then
            match s1 with
            | [] => ([Text [c]], [])
            | d :: s2 =>
                if d =? slash then
                  match breakAt greaterThan s2 with
                  | Some (_, rest) => ([], rest)
                  | None => ([], [])
                  end
                else
                  let (tag, s3) :=
                    takeWhile
                      (fun c => negb (isSpace c || (c =? greaterThan))) s1 in
                  let (attrs, s4) := parseAttributes (S (length s3)) s3 in
                  let e := foldl applyAttribute (createElement tag) attrs in
                  if isVoid tag then
                    let (siblings, rest) := parseNodes fuel' s4 in
                    (Elem e [] :: siblings, rest)
                  else
                    let (ch, s5) := parseNodes fuel' s4 in
                    let (siblings, rest) := parseNodes fuel' s5 in
                    (Elem e ch :: siblings, rest)
            end
          else
            let (text, s2) := takeWhile (fun c => negb (c =? lessThan)) s in
            let (siblings, rest) := parseNodes fuel' s2 in
            (Text text :: siblings, rest)
      end
  end.

Definition referenceParse (context : Element) (markup : jsstring)
  : list Node :=
  children
    (resetSelectedness
       (Elem context (parseNodes (S (length markup)) markup).1)).

Global Instance referencePlatform : Platform.
Proof.
  refine {| toUpperCase := map asciiUpper;
            toUpperCase_empty := eq_refl;
            innerText := textContent;
            parseFragment := referenceParse;
            parseFragment_error := _;
            parseFragment_altLabel := _ |}.
  - intros e Htag. unfold referenceParse.
    replace (parseNodes (S (length errorMarkup)) errorMarkup).1
      with [optionNode false [] (lit "Error loading")]
      by (vm_compute; reflexivity).
    unfold resetSelectedness.
    destruct (_ && _); eexists; reflexivity.
  - vm_compute. reflexivity.
Defined.

(** * Notions used in the statements *)

(** The characters of which the result of [encodeURIComponent] is made:
    the unescaped ones and the percent sign of the escapes. *)
Definition inAlphabet (c : N) : Prop := uriUnescaped c = true \/ c = percent.

(** The string does not begin with the second half of a surrogate pair. *)
Definition headNotTrailing (s : jsstring) : Prop :=
  match s with
  | d :: _ => isTrailingSurrogate d = false
  | [] => True
  end.

Definition fullStop : N := 46.
Definition leftParenthesis : N := 40.

(** The reserved characters of RFC 3986: the general delimiters, then the
    sub-delimiters. *)
Definition rfc3986Reserved : jsstring := lit ":/?#[]@!$&'()*+,;=".

(** The octets of a code point in UTF-8, as RFC 3629 tabulates them: up
    to U+007F the code point itself; beyond, its bits, six to each
    continuation octet [10xxxxxx], and those that are left under the mark
    [110], [1110] or [11110] of the first octet. *)
Definition continuationOctet (bits : N) : N := 128 + bits mod 64.

Definition utf8Octets (cp : N) : list N :=
  if cp <? 128 then [cp]
  else if cp <? 2048 then [192 + cp / 64; continuationOctet cp]
  else if cp <? 65536 then
    [224 + cp / 4096; continuationOctet (cp / 64); continuationOctet cp]
  else
    [240 + cp / 262144; continuationOctet (cp / 4096);
     continuationOctet (cp / 64); continuationOctet cp].

(** The escape of a code point: [%XX] for each of its octets. *)
Definition escapeOf (cp : N) : jsstring :=
  flat_map percentOctet (utf8Octets cp).

(** The code point that a surrogate pair stands for: ten bits from each
    half, above U+FFFF. *)
Definition pairCodePoint (lead trail : N) : N :=
  65536 + 1024 * (lead - 55296) + (trail - 56320).

(** Every configured source field is non-empty. *)
Definition allNonEmpty (ids : list jsstring) (doc : Node) : Prop :=
  forall i, In i ids -> truthy (valueById i doc) = true.

(** The values of the source fields, in the configured order. *)
Definition sourceValues (ids : list jsstring) (doc : Node) : list jsstring :=
  map (fun i => default [] (valueById i doc)) ids.

(** The element at a position, without its children. *)
Definition elementAt (p : Path) (doc : Node) : option Element :=
  match getNode p doc with
  | Some (Elem e _) => Some e
  | _ => None
  end.

(** ** Pages for the examples *)

Definition withId (i : string) (e : Element) : Element :=
  mkElement (tagName e) (lit i) (classList e) (dataset e) (attributes e)
    (value e) (hidden e) (disabled e) (required e) (selected e) (display e)
    (onclick e).

Definition attr (key v : string) : jsstring * jsstring := (lit key, lit v).

Definition data (l : list (jsstring * jsstring)) : gmap jsstring jsstring :=
  list_to_map l.

Definition documentNode (ch : list Node) : Node :=
  Elem (element "#document") ch.

Definition inputNode (i : string) (v : jsstring)
    (d : list (jsstring * jsstring))
  : Node :=
  Elem (withId i (withValue (Some v) (withDataset (data d) (element "input"))))
    [].

(** A page whose label holds an unpaired surrogate. *)
Definition surrogatePage : Node :=
  documentNode
    [ Elem (withDataset (data [attr "userNs" "http://example.org/"])
              (element "div")) [];
      inputNode "label" [55296] [];
      inputNode "uri" (lit "old") [attr "uriFrom" "label"] ].

(** ** The list filter, in the words of the specification *)

Section FilterSpec.
Context `{Platform}.

(** The searchable descendants of an item: the explicitly marked ones or,
    when there is none, all its spans. *)
Definition searchableDescendants (item : Node) : list Node :=
  match List.filter (matches (byData "searchable"))
          (map snd (descendantsOf item))
  with
  | [] => List.filter (matches (byTag "span")) (map snd (descendantsOf item))
  | marked => marked
  end.

(** The searchable text of an item: the text contents of its searchable
    descendants, joined with a space. *)
Definition specSearchableText (item : Node) : jsstring :=
  join (lit " ") (map textContent (searchableDescendants item)).

(** [text] contains [query] as a substring, case put aside. *)
Definition containsIgnoringCase (text query : jsstring) : Prop :=
  exists pre post, toUpperCase text = pre ++ toUpperCase query ++ post.

(** What [filter] makes of one child of the list. *)
Definition hideUnless (query : jsstring) (item : Node) : Node :=
  alterElement
    (withHidden (negb (includes (Binder.searchableText item) query))) item.

(** One round of the loop of [filter]. *)
Definition filterRound (container : Path) (query : jsstring) (i : nat)
  : M unit :=
  do d <- getDocument;
  match getNode (container ++ [i]) d with
  | Some item =>
      setHidden (container ++ [i])
        (negb (includes (Binder.searchableText item) query))
  | None => ret tt
  end.

Definition filterLog (container : Path) (query : jsstring)
  : nat -> list Node -> list Action :=
  indexedFlatMap
    (fun i c =>
       if isElement c then
         [SetHidden (container ++ [i])
            (negb (includes (Binder.searchableText c) query))]
       else []).

End FilterSpec.

Definition spanNode (text : string) : Node :=
  Elem (element "span") [Text (lit text)].

Definition listItem (ch : list Node) : Node := Elem (element "li") ch.

(** A search input and its list of two items, the first of them hidden. *)
Definition filterPage (query : string) : Node :=
  documentNode
    [ inputNode "table_search" (lit query) [attr "filterFor" "table_list"];
      Elem (withId "table_list" (element "ul"))
        [ Elem (withHidden true (element "li")) [spanNode "Revenue"];
          listItem [spanNode "Customer"; spanNode "Count"] ] ].

(** A delete button around an icon. *)
Definition deleteButton : Element :=
  withDataset
    (data [ attr "delete" ""; attr "url" "/tables/delete";
            attr "type" "table"; attr "uri" "http://example.org/main.orders" ])
    (element "button").

Definition deletePage : Node :=
  documentNode [ listItem [ Elem deleteButton [spanNode "x"] ] ].

(** A delete button one of whose [data-*] attributes is
    [data-__proto__]. *)
Definition protoButton : Element :=
  withDataset
    (data [ attr "delete" ""; attr "url" "/tables/delete";
            attr "uri" "http://example.org/main.orders";
            attr "__proto__" "x" ])
    (element "button").

Definition protoPage : Node := documentNode [ Elem protoButton [] ].

(** The record consists of confirmation dialogs only. *)
Definition onlyConfirms (actions : list Action) : Prop :=
  Forall (fun a => exists message, a = Confirm message) actions.

Definition isFetch (a : Action) : bool :=
  match a with
  | Fetch _ => true
  | _ => false
  end.

(** ** The record of a run *)

(** A computation only ever adds to the record. *)
Definition appends {A} (m : M A) : Prop :=
  forall w, exists actions, log (m w).2 = log w ++ actions.

(** A computation adds nothing but actions that satisfy [P]. *)
Definition records {A} (P : Action -> Prop) (m : M A) : Prop :=
  forall w, exists actions, log (m w).2 = log w ++ actions /\ Forall P actions.

Definition isSetValue (a : Action) : bool :=
  match a with
  | SetValue _ _ => true
  | _ => false
  end.

(** ** Cascade selects, in the words of the specification *)

(** The ids that a cascade-bound select declares in [data-resets]. *)
Definition declaredResets (select : Path) (doc : Node) : list jsstring :=
  List.filter nonEmpty
    (split comma (orElse (datasetAt select "resets" doc) [])).

(** A request whose response the change handler does not take for a list
    of items: it rejects, or its body is not JSON, or not a JSON array. *)
Definition fetchFailed (r : FetchOutcome) : bool :=
  match r with
  | Response _ (IsJson (JArray _)) => false
  | _ => true
  end.

Definition noFetch (a : Action) : Prop := isFetch a = false.
Definition noSetValue (a : Action) : Prop := isSetValue a = false.
Definition anyAction (a : Action) : Prop := True.

Definition selectNode (i : string) (d : list (jsstring * jsstring))
    (options : list Node) : Node :=
  Elem (withId i (withDataset (data d) (element "select"))) options.

(** A catalog select that resets and then loads the schema select. *)
Definition cascadePage : Node :=
  documentNode
    [ selectNode "catalog"
        [ attr "cascade" "/api/schemas/:catalog";
          attr "resets" "schema,table"; attr "enables" "schema" ]
        [optionNode true (lit "main") (lit "main")];
      selectNode "schema" [] [optionNode true (lit "old") (lit "old")];
      selectNode "table" [] [] ].

(** The same without declared resets: the schema select is enabled and
    holds the options of an earlier load. *)
Definition staleSchemaPage : Node :=
  documentNode
    [ selectNode "catalog"
        [ attr "cascade" "/api/schemas/:catalog"; attr "enables" "schema" ]
        [optionNode true (lit "main") (lit "main")];
      selectNode "schema" [] [optionNode true (lit "old") (lit "old")] ].

(** A URI field composed from the catalog and the table, both of them
    chosen, and not yet computed.  The catalog select and the schema
    select are cascade-bound; the schema is not a source of the URI. *)
Definition uriPage : Node :=
  documentNode
    [ Elem (withDataset (data [attr "userNs" "http://example.org/"])
              (element "div")) [];
      selectNode "catalog" [attr "cascade" "/api/schemas/:catalog"]
        [optionNode true (lit "main") (lit "main")];
      selectNode "schema" [attr "cascade" "/api/tables/:catalog/:schema"]
        [optionNode true (lit "sales") (lit "sales")];
      selectNode "table" []
        [ optionNode false [] (lit "Select table...");
          optionNode true (lit "orders") (lit "orders") ];
      inputNode "uri" [] [attr "uriFrom" "catalog,table"] ].

(** The registration is not for the event that the change handler
    dispatches. *)
Definition notForRecalculate (r : Registration) : Prop :=
  listensFor r <> lit "recalculate".

Definition disabledAt (p : Path) (doc : Node) : option bool :=
  disabled <$> elementAt p doc.

Definition childrenAt (p : Path) (doc : Node) : option (list Node) :=
  children <$> getNode p doc.

(** ** Alternative labels, in the words of the specification *)

(** The element of a node, if it is one. *)
Definition elementOf (n : Node) : option Element :=
  match n with
  | Elem e _ => Some e
  | Text _ => None
  end.

(** A change to a node that leaves the element itself alone, whatever it
    does to the children. *)
Definition keepsElement (f : Node -> Node) : Prop :=
  forall n, elementOf (f n) = elementOf n.


(** The position of the remove control in a row: its fourth node. *)
Definition removeControl (row : Path) : Path := row ++ [3%nat].

(** A page on which a click on [clicked] adds a row to [container]: the
    clicked node exists, its nearest add control is [addBtn], which names
    by its id the container, an element with children [rows]. *)
Definition addsRowsTo (clicked addBtn container : Path) (e : Element)
    (rows : list Node) (doc : Node) : Prop :=
  is_Some (getNode clicked doc)
  /\ closest (byData "addAltLabel") doc clicked = Some addBtn
  /\ (exists containerId,
        datasetAt addBtn "addAltLabel" doc = Some containerId
        /\ getElementById containerId doc = Some container)
  /\ getNode container doc = Some (Elem e rows).

(** The element is not an add control and does not lie inside one. *)
Definition outsideAddControls (p : Path) (doc : Node) : Prop :=
  closest (byData "addAltLabel") doc p = None.


(** A remove control: an element that matches [[data-remove-field]]. *)
Definition isRemoveControl (n : Node) : Prop :=
  exists button label,
    n = Elem button label /\ byData "removeField" button = true.

(** The clicks of a run: [adds] clicks on [clicked], then one click on the
    remove control of a row for each of the [removals], given by the
    position of the row among the added rows that are left. *)
Definition addThenRemove (clicked container : Path) (before adds : nat)
    (removals : list nat) : list Path :=
  repeat clicked adds
  ++ map (fun k => removeControl (container ++ [(before + k)%nat])) removals.

(** An add button and the container that it names. *)
Definition altLabelPage : Node :=
  documentNode
    [ Elem (withId "alt_labels_container" (element "div")) [];
      Elem (withDataset (data [attr "addAltLabel" "alt_labels_container"])
              (element "button"))
        [Text (lit "Add")] ].

(** An add control that encloses the container it names, beside its
    label. *)
Definition nestedAltLabelPage : Node :=
  documentNode
    [ Elem (withDataset (data [attr "addAltLabel" "alt_labels_container"])
              (element "div"))
        [ Elem (withId "alt_labels_container" (element "div")) [];
          Elem (element "span") [Text (lit "Add")] ] ].

(** ** Pages for the page-specific functions *)

Definition exampleConfig : Legacy.Config :=
  Legacy.mkConfig None None (Some (lit "/tables/delete")) None None
    (Some (lit "http://example.org/")).

(** The three selects of the tables page, all of them chosen, and the URI
    field. *)
Definition tablesPage : Node :=
  documentNode
    [ selectNode "catalog" [] [optionNode true (lit "main") (lit "main")];
      selectNode "schema" [] [optionNode true (lit "sales") (lit "sales")];
      selectNode "table" [] [optionNode true (lit "orders") (lit "orders")];
      inputNode "uri" (lit "old") [] ].

Definition searchableSpan (text : string) : Node :=
  Elem (withClassList [lit "searchable"] (element "span")) [Text (lit text)].

(** A list whose only item holds two searchable spans, and the filter
    "bc", which neither of them contains. *)
Definition twoSpansPage : Node :=
  documentNode
    [ inputNode "table_search" (lit "bc") [];
      Elem (withId "table_list" (element "ul"))
        [ listItem [searchableSpan "ab"; searchableSpan "cd"] ] ].

Definition displayAt (p : Path) (doc : Node) : option jsstring :=
  display <$> elementAt p doc.

(** ** Notions used in the further properties *)

(** A string of UTF-16 code units: every unit fits sixteen bits. *)
Definition codeUnits (s : jsstring) : Prop := Forall (fun c => c < 65536) s.

(** The octets of a UTF-8 sequence, by the number of octets: the payload
    bits of the code point, six to a continuation octet. *)
Inductive utf8Shape (cp : N) : list N -> Prop :=
| OneOctet : cp < 128 -> utf8Shape cp [cp]
| TwoOctets a b :
    a < 32 -> b < 64 -> cp = 64 * a + b ->
    utf8Shape cp [192 + a; 128 + b]
| ThreeOctets a b c :
    a < 16 -> b < 64 -> c < 64 -> cp = 4096 * a + 64 * b + c ->
    utf8Shape cp [224 + a; 128 + b; 128 + c]
| FourOctets a b c d :
    a < 8 -> b < 64 -> c < 64 -> d < 64 ->
    cp = 262144 * a + 4096 * b + 64 * c + d ->
    utf8Shape cp [240 + a; 128 + b; 128 + c; 128 + d].

(** [document.getElementById(i)?.value || ''], as [updateUriFromSelection]
    reads its four sources. *)
Definition selectionValue (i : string) (doc : Node) : jsstring :=
  orElse (valueById (lit i) doc) [].

Definition placeholderOption : Node := optionNode true [] (lit "Select...").

(** The tables page with a catalog chosen and no schema yet. *)
Definition partialPage : Node :=
  documentNode
    [ selectNode "catalog" [] [optionNode true (lit "main") (lit "main")];
      selectNode "schema" [] [placeholderOption];
      selectNode "table" [] [placeholderOption];
      inputNode "uri" (lit "old") [] ].

(** The concept form: a label and the URI made from it. *)
Definition conceptPage (label : string) : Node :=
  documentNode
    [ inputNode "label" (lit label) [];
      inputNode "uri" (lit "old") [] ].

(** The position of the first element of a subtree, in document order,
    that satisfies [f]; and of the first one among the subtrees of a list
    of siblings, the first of which has index [k]. *)
Definition findElement (f : Node -> bool) (n : Node) : option Path :=
  fst <$> List.find (fun x => f x.2) (elementsOf n).

Definition findAmong (f : Node -> bool) (k : nat) (ch : list Node)
  : option Path :=
  fst <$> List.find (fun x => f x.2)
            (indexedFlatMap (fun i c => map (under i) (elementsOf c)) k ch).

(** [p] lies at [q] or below it. *)
Definition inside (p q : Path) : Prop := exists r, p = q ++ r.

(** Neither of two positions lies inside the other. *)
Definition apart (p q : Path) : Prop := ~ inside p q /\ ~ inside q p.

(** A test on nodes that looks at the element only. *)
Definition onElement (f : Node -> bool) : Prop :=
  (forall s, f (Text s) = false)
  /\ forall e ch ch', f (Elem e ch) = f (Elem e ch').

(** A change to a node that brings no element satisfying [f] into a
    subtree that had none. *)
Definition bringsNone (f : Node -> bool) (g : Node -> Node) : Prop :=
  forall n, findElement f n = None -> findElement f (g n) = None.

(** A select shown as a drop-down, which always has an option selected. *)
Definition dropDown (e : Element) : bool :=
  eqs (tagName e) (lit "select") && negb (hasAttribute "multiple" e)
  && negb (hasAttribute "size" e).

(** The options that [populateSelect] leaves in the select [e]. *)
Definition populated (e : Element) (items : list jsstring)
    (placeholder : jsstring) : list Node :=
  optionNode (dropDown e) [] placeholder
  :: map (fun item => optionNode false item item) items.

(** The four selects of the columns page, all of them chosen, and the URI
    field. *)
Definition columnsPage : Node :=
  documentNode
    [ selectNode "catalog" [] [optionNode true (lit "main") (lit "main")];
      selectNode "schema" [] [optionNode true (lit "sales") (lit "sales")];
      selectNode "table" [] [optionNode true (lit "orders") (lit "orders")];
      selectNode "column" [] [optionNode true (lit "id") (lit "id")];
      inputNode "uri" (lit "old") [] ].

(** The elements that the ids denote stand apart from the position [q]. *)
Definition standApart (ids : list jsstring) (q : Path) (doc : Node) : Prop :=
  forall i p, In i ids -> getElementById i doc = Some p -> apart p q.

(** What [populateSelect] followed by the assignment of [disabled] makes
    of the select [e]. *)
Definition repopulate (e : Element) (items : list jsstring)
    (placeholder : jsstring) (b : bool) (n : Node) : Node :=
  alterElement (withDisabled b) (setChildren (populated e items placeholder) n).

(** What [populateSelect] records. *)
Definition populateLog (p : Path) (items : list jsstring)
    (placeholder : jsstring) : list Action :=
  ReplaceChildren p []
  :: AppendChild p (optionNode false [] placeholder)
  :: map (fun item => AppendChild p (optionNode false item item)) items.

(** The request that [fetch(url)] issues. *)
Definition fetchOf (u : jsstring) : Action :=
  Fetch (mkRequest (lit "GET") (Some u) None None).

(** The reset of a select that the page may not have: what it records and
    what it makes of the document. *)
Definition resetLog (p : option Path) (placeholder : jsstring) : list Action :=
  match p with
  | Some c => populateLog c [] placeholder ++ [SetDisabled c true]
  | None => []
  end.

Definition resetAt (p : option Path) (placeholder : jsstring) (doc : Node)
  : Node :=
  match p with
  | Some c =>
      match getNode c doc with
      | Some (Elem e _) => alterNode (repopulate e [] placeholder true) c doc
      | _ => doc
      end
  | None => doc
  end.

(** The position, if there is one, does not hold [q] inside it. *)
Definition outsideOf (q : Path) (p : option Path) : Prop :=
  forall c, p = Some c -> ~ inside q c.

Definition apartFrom (q : Path) (p : option Path) : Prop :=
  forall c, p = Some c -> apart q c.

(** An action that, if it is a request, is a GET. *)
Definition noRequestButGet (a : Action) : Prop :=
  forall r, a = Fetch r -> method r = lit "GET".

(** An action that writes a [hidden] flag. *)
Definition hides (a : Action) : Prop := exists p b, a = SetHidden p b.

(** The registrations for one type of event. *)
Definition listeningFor (type : jsstring) (regs : list Registration)
  : list Registration :=
  List.filter (fun r => eqs (listensFor r) type) regs.

(** The two listeners that the script puts on the document. *)
Definition deleteListener : Registration :=
  mkRegistration [] (lit "click") DeleteClickHandler.

Definition altLabelListener : Registration :=
  mkRegistration [] (lit "click") AltLabelClickHandler.

(** The element that a cascade-bound select names in [data-enables], as
    the change handler looks it up. *)
Definition targetOf (select : Path) (doc : Node) : option Path :=
  if truthy (datasetAt select "enables" doc)
  then getElementById (default [] (datasetAt select "enables" doc)) doc
  else None.

(** The dispatches of [recalculate] on the URI fields of a document. *)
Definition recalculations (doc : Node) : list Action :=
  map (fun el => DispatchEvent el (lit "recalculate"))
    (map fst (querySelectorAll (byData "uriFrom") doc)).

(** What the change handler records after the dispatches: the loading
    placeholder and the request, when the select names an element to
    populate and has a value once its dependents are reset. *)
Definition cascadeRequest (select : Path) (doc : Node) (w1 : World)
  : list Action :=
  match targetOf select doc with
  | Some t =>
      if truthy (valueAt select (document w1)) then
        match datasetAt select "cascade" doc with
        | Some path =>
            [ SetInnerHTML t loadingMarkup;
              fetchOf (Binder.buildUrl path (document w1)) ]
        | None => [Uncaught (lit "TypeError")]
        end
      else []
  | None => []
  end.

(** A cascade-bound select with one option chosen and nothing to
    populate. *)
Definition lonelySelectPage : Node :=
  documentNode
    [ selectNode "catalog"
        [ attr "cascade" "/api/schemas/:catalog"; attr "resets" "schema" ]
        [optionNode true (lit "main") (lit "main")];
      selectNode "schema" [] [optionNode true (lit "old") (lit "old")];
      inputNode "uri" [] [attr "uriFrom" "catalog"] ].

(** A string in which the code unit [sep] does not occur. *)
Definition freeOf (sep : N) (s : jsstring) : Prop := Forall (fun c => c <> sep) s.

(** A segment of a path template that is a placeholder. *)
Definition isPlaceholder (part : jsstring) : bool := startsWith part [colon].

Definition hiddenAt (p : Path) (doc : Node) : option bool :=
  hidden <$> elementAt p doc.

(** A URI field whose sources are listed with a blank after the comma. *)
Definition spacedUriPage : Node :=
  documentNode
    [ inputNode "catalog" (lit "main") [];
      inputNode "table" (lit "orders") [];
      inputNode "uri" [] [attr "uriFrom" "catalog, table"] ].

(** ** [filterList], in its own words *)

Section FilterListSpec.
Context `{Platform}.

(** The value that [filterList] gives [style.display] for an item. *)
Definition displayFor (searchableClass : option jsstring) (filter : jsstring)
    (item : Node) : jsstring :=
  if includes (toUpperCase (Legacy.itemText searchableClass item)) filter
  then [] else lit "none".

Definition showOrHide (searchableClass : option jsstring) (filter : jsstring)
    (item : Node) : Node :=
  alterElement (withDisplay (displayFor searchableClass filter item)) item.

(** One round of the loop of [filterList]. *)
Definition filterListRound (ul : Path) (searchableClass : option jsstring)
    (filter : jsstring) (i : nat) : M unit :=
  do d <- getDocument;
  match getNode (ul ++ [i]) d with
  | Some item =>
      if includes (toUpperCase (Legacy.itemText searchableClass item)) filter
      then setDisplay (ul ++ [i]) []
      else setDisplay (ul ++ [i]) (lit "none")
  | None => ret tt
  end.

End FilterListSpec.

(** A list whose first item has no span and whose second has one. *)
Definition bareItemPage (query : string) : Node :=
  documentNode
    [ inputNode "concept_search" (lit query) [];
      Elem (withId "concept_list" (element "ul"))
        [ listItem [Text (lit "Revenue")];
          listItem [spanNode "Revenue"] ] ].

(** What [console.error] leaves aside, the record holds. *)
Definition withoutConsole (actions : list Action) : list Action :=
  List.filter
    (fun a => match a with ConsoleError => false | _ => true end) actions.

(** The [data-*] attributes of a delete button for one item. *)
Definition itemButtonData (deleted url itemType uri : jsstring)
  : gmap jsstring jsstring :=
  <[lit "delete" := deleted]>
    (<[lit "url" := url]> (<[lit "type" := itemType]> {[lit "uri" := uri]})).

(** The [data-*] attributes of a delete button for a relationship. *)
Definition relationshipButtonData
    (deleted url subject_uri predicate_type object_uri : jsstring)
  : gmap jsstring jsstring :=
  <[lit "delete" := deleted]>
    (<[lit "url" := url]>
       (<[lit "type" := lit "relationship"]>
          (<[lit "subject_uri" := subject_uri]>
             (<[lit "predicate_type" := predicate_type]>
                {[lit "object_uri" := object_uri]})))).

(** The same continuation, whichever script left it. *)
Definition sameSettling (ks : list Continuation) (ks' : list Continuation)
  : Prop :=
  Forall2
    (fun k k' =>
       exists itemType,
         k = DeleteSettled itemType /\ k' = LegacyDeleteSettled itemType)
    ks ks'.

Definition relationshipConfig : Legacy.Config :=
  Legacy.mkConfig None None None None (Some (lit "/relationships/delete"))
    None.

Definition relationshipPage : Node :=
  documentNode
    [ Elem (withDataset
              (relationshipButtonData [] (lit "/relationships/delete")
                 (lit "s") (lit "broader") (lit "o"))
              (element "button")) [] ].

(** * Properties *)

(** ** Strings *)

Lemma startsWith_spec s p : startsWith s p = true <-> exists t, s = p ++ t.
Proof.
  revert s. induction p as [|a p IH]; intros s; simpl.
  - split; [intros _; exists s; reflexivity | reflexivity].
  - destruct s as [|b s].
    + split; [discriminate | intros [t Ht]; discriminate].
    + rewrite andb_true_iff, N.eqb_eq, IH. split.
      * intros [-> [t ->]]. eauto.
      * intros [t Ht]. injection Ht as -> ->. eauto.
Qed.

Lemma includes_spec s q :
  includes s q = true <-> exists pre post, s = pre ++ q ++ post.
Proof.
  induction s as [|c s IH]; simpl.
  - rewrite orb_false_r, startsWith_spec. split.
    + intros [t Ht]. exists [], t. done.
    + intros (pre & post & Hs). destruct pre; [|discriminate].
      simpl in Hs. eauto.
  - rewrite orb_true_iff, startsWith_spec, IH. split.
    + intros [[t Ht] | (pre & post & ->)].
      * exists [], t. done.
      * exists (c :: pre), post. done.
    + intros (pre & post & Hs). destruct pre as [|c' pre].
      * left. simpl in Hs. eauto.
      * right. injection Hs as -> ->. eauto.
Qed.

Lemma includes_empty s : includes s [] = true.
Proof. destruct s; reflexivity. Qed.

(** ** Percent-encoding *)

Lemma hexDigit_unescaped d : uriUnescaped (hexDigit d) = true.
Proof.
  unfold hexDigit.
  assert (Hlt : (N.to_nat (N.land d 15) < 16)%nat).
  { change 15 with (N.ones 4). rewrite N.land_ones.
    pose proof (N.mod_upper_bound d (2 ^ 4)) as Hb. simpl in Hb. lia. }
  revert Hlt. generalize (N.to_nat (N.land d 15)). intros n Hn.
  do 16 (destruct n as [|n]; [reflexivity|]). lia.
Qed.

Lemma percentEncode_alphabet cp : Forall inAlphabet (percentEncode cp).
Proof.
  unfold percentEncode. induction (utf8 cp) as [|o os IH]; simpl.
  - constructor.
  - constructor; [right; reflexivity|].
    constructor; [left; apply hexDigit_unescaped|].
    constructor; [left; apply hexDigit_unescaped|]. exact IH.
Qed.

(** Induction that follows the way [encodeURIComponent] consumes its
    argument: one code unit, or a surrogate pair. *)
Lemma pair_ind (P : jsstring -> Prop) :
  P [] ->
  (forall c s, P s -> (forall d s', s = d :: s' -> P s') -> P (c :: s)) ->
  forall s, P s.
Proof.
  intros Hnil Hcons s.
  assert (H : P s /\ forall d s', s = d :: s' -> P s'); [|apply H].
  induction s as [|c s [IH1 IH2]].
  - split; [exact Hnil | discriminate].
  - split.
    + apply Hcons; assumption.
    + intros d s' [= <- <-]. exact IH1.
Qed.

Lemma encode_alphabet s out :
  encodeURIComponent s = Some out -> Forall inAlphabet out.
Proof.
  revert out. induction s as [|c s IH1 IH2] using pair_ind; intros out; simpl.
  - intros [= <-]. constructor.
  - destruct (uriUnescaped c) eqn:Hu.
    + destruct (encodeURIComponent s) as [o|]; [|discriminate].
      intros [= <-]. constructor; [left; exact Hu | eauto].
    + destruct (isLeadingSurrogate c).
      * destruct s as [|d s']; [discriminate|].
        destruct (isTrailingSurrogate d); [|discriminate].
        destruct (encodeURIComponent s') as [o|] eqn:Ho; [|discriminate].
        intros [= <-]. apply Forall_app. split.
        -- apply percentEncode_alphabet.
        -- eapply IH2; eauto.
      * destruct (isTrailingSurrogate c); [discriminate|].
        destruct (encodeURIComponent s) as [o|]; [|discriminate].
        intros [= <-]. apply Forall_app. split.
        -- apply percentEncode_alphabet.
        -- eauto.
Qed.

Lemma reserved_ascii c : memN c rfc3986Reserved = true -> c < 128.
Proof.
  unfold memN, rfc3986Reserved. simpl. rewrite !orb_true_iff, !N.eqb_eq. lia.
Qed.

(** A reserved character that is not among the unescaped ones is not in
    the alphabet of the results: the percent sign is not reserved. *)
Lemma reserved_not_in_alphabet c :
  memN c rfc3986Reserved = true -> uriUnescaped c = false -> ~ inAlphabet c.
Proof.
  intros Hr Hu [Hu' | ->]; [congruence | vm_compute in Hr; discriminate Hr].
Qed.

Lemma unescaped_ascii c : uriUnescaped c = true -> c < 128.
Proof.
  unfold uriUnescaped, uriAlpha, decimalDigit, memN, uriMark, inRange.
  simpl. rewrite !orb_true_iff, !andb_true_iff, !N.leb_le, !N.eqb_eq. lia.
Qed.

Lemma surrogate_not_unescaped c :
  isLeadingSurrogate c = true \/ isTrailingSurrogate c = true ->
  uriUnescaped c = false.
Proof.
  intros Hs. destruct (uriUnescaped c) eqn:Hu; [|reflexivity].
  apply unescaped_ascii in Hu.
  unfold isLeadingSurrogate, isTrailingSurrogate, inRange in Hs.
  rewrite !andb_true_iff, !N.leb_le in Hs. lia.
Qed.

Lemma trailing_not_leading c :
  isTrailingSurrogate c = true -> isLeadingSurrogate c = false.
Proof.
  unfold isLeadingSurrogate, isTrailingSurrogate, inRange.
  rewrite andb_true_iff, andb_false_iff, !N.leb_le, !N.leb_gt. lia.
Qed.

Lemma wellFormed_encodes s :
  wellFormed s = true <-> is_Some (encodeURIComponent s).
Proof.
  induction s as [|c s IH1 IH2] using pair_ind; simpl.
  - split; eauto.
  - destruct (isLeadingSurrogate c) eqn:Hlead.
    + rewrite surrogate_not_unescaped by auto.
      destruct s as [|d s']; [split; [discriminate | intros [? [=]]]|].
      destruct (isTrailingSurrogate d); simpl.
      * rewrite (IH2 d s' eq_refl), fmap_is_Some. done.
      * split; [discriminate | intros [? [=]]].
    + destruct (isTrailingSurrogate c) eqn:Htrail; simpl.
      * rewrite surrogate_not_unescaped by auto.
        split; [discriminate | intros [? [=]]].
      * destruct (uriUnescaped c); rewrite IH1, fmap_is_Some; done.
Qed.

Lemma encode_head s out :
  encodeURIComponent s = Some out -> headNotTrailing s.
Proof.
  destruct s as [|c s]; simpl; [done|].
  destruct (isTrailingSurrogate c) eqn:Ht; [|done].
  rewrite surrogate_not_unescaped, trailing_not_leading by auto.
  discriminate.
Qed.

(** A string that encodes can be followed by anything. *)
Lemma encode_app_Some s1 s2 o1 :
  encodeURIComponent s1 = Some o1 ->
  encodeURIComponent (s1 ++ s2) = app o1 <$> encodeURIComponent s2.
Proof.
  revert o1. induction s1 as [|c s IH1 IH2] using pair_ind; intros o1; simpl.
  - intros [= <-]. destruct (encodeURIComponent s2); reflexivity.
  - destruct (uriUnescaped c).
    + destruct (encodeURIComponent s) as [o|]; [|discriminate].
      intros [= <-]. rewrite (IH1 o eq_refl).
      destruct (encodeURIComponent s2); reflexivity.
    + destruct (isLeadingSurrogate c).
      * destruct s as [|d s']; [discriminate|]. simpl.
        destruct (isTrailingSurrogate d); [|discriminate].
        destruct (encodeURIComponent s') as [o|] eqn:Ho; [|discriminate].
        intros [= <-]. rewrite (IH2 d s' eq_refl o Ho).
        destruct (encodeURIComponent s2); simpl; [|reflexivity].
        by rewrite app_assoc.
      * destruct (isTrailingSurrogate c); [discriminate|].
        destruct (encodeURIComponent s) as [o|]; [|discriminate].
        intros [= <-]. rewrite (IH1 o eq_refl).
        destruct (encodeURIComponent s2); simpl; [|reflexivity].
        by rewrite app_assoc.
Qed.

(** A string that does not encode cannot be rescued by what follows,
    unless that begins with the missing half of a pair. *)
Lemma encode_app_None s1 s2 :
  headNotTrailing s2 ->
  encodeURIComponent s1 = None ->
  encodeURIComponent (s1 ++ s2) = None.
Proof.
  intros Hs2. induction s1 as [|c s IH1 IH2] using pair_ind; simpl.
  - discriminate.
  - destruct (uriUnescaped c).
    + destruct (encodeURIComponent s); [discriminate|].
      intros _. by rewrite IH1.
    + destruct (isLeadingSurrogate c).
      * destruct s as [|d s']; simpl.
        -- intros _. destruct s2 as [|d s2]; [reflexivity|].
           simpl in Hs2. by rewrite Hs2.
        -- destruct (isTrailingSurrogate d); [|reflexivity].
           destruct (encodeURIComponent s') eqn:Ho; [discriminate|].
           intros _. by rewrite (IH2 d s' eq_refl).
      * destruct (isTrailingSurrogate c); [reflexivity|].
        destruct (encodeURIComponent s); [discriminate|].
        intros _. by rewrite IH1.
Qed.

Lemma encode_app s1 s2 :
  headNotTrailing s2 ->
  encodeURIComponent (s1 ++ s2) =
  encodeURIComponent s1 ≫= fun o1 => app o1 <$> encodeURIComponent s2.
Proof.
  intros Hs2. destruct (encodeURIComponent s1) as [o1|] eqn:H1; simpl.
  - by apply encode_app_Some.
  - by apply encode_app_None.
Qed.

(** An ASCII character outside the unescaped set becomes one escape. *)
Lemma encode_cons_escaped c s :
  c < 128 -> uriUnescaped c = false ->
  encodeURIComponent (c :: s) = app (percentOctet c) <$> encodeURIComponent s.
Proof.
  intros Hc Hu. simpl. rewrite Hu.
  assert (isLeadingSurrogate c = false) as ->.
  { unfold isLeadingSurrogate, inRange. apply andb_false_iff. left.
    apply N.leb_gt. lia. }
  assert (isTrailingSurrogate c = false) as ->.
  { unfold isTrailingSurrogate, inRange. apply andb_false_iff. left.
    apply N.leb_gt. lia. }
  unfold percentEncode, utf8. apply N.ltb_lt in Hc. rewrite Hc. simpl.
  destruct (encodeURIComponent s); reflexivity.
Qed.

Lemma ascii_not_trailing c : c < 128 -> isTrailingSurrogate c = false.
Proof.
  intros Hc. unfold isTrailingSurrogate, inRange. apply andb_false_iff. left.
  apply N.leb_gt. lia.
Qed.

(** An occurrence of an ASCII character that is not unescaped becomes its
    escape, between the encodings of what is before and after it. *)
Lemma encode_split_escaped a c b out :
  c < 128 -> uriUnescaped c = false ->
  encodeURIComponent (a ++ c :: b) = Some out ->
  exists oa ob,
    encodeURIComponent a = Some oa /\ encodeURIComponent b = Some ob
    /\ out = oa ++ percentOctet c ++ ob.
Proof.
  intros Hc Hu.
  rewrite encode_app, encode_cons_escaped
    by (try assumption; by apply ascii_not_trailing).
  destruct (encodeURIComponent a) as [oa|]; [|discriminate].
  destruct (encodeURIComponent b) as [ob|]; [|discriminate].
  simpl. intros [= <-]. eauto.
Qed.

(** An occurrence of an unescaped character is copied. *)
Lemma encode_split_unescaped a c b out :
  uriUnescaped c = true ->
  encodeURIComponent (a ++ c :: b) = Some out ->
  exists oa ob,
    encodeURIComponent a = Some oa /\ encodeURIComponent b = Some ob
    /\ out = oa ++ c :: ob.
Proof.
  intros Hu.
  rewrite encode_app by (apply ascii_not_trailing; by apply unescaped_ascii).
  simpl. rewrite Hu.
  destruct (encodeURIComponent a) as [oa|]; [|discriminate].
  destruct (encodeURIComponent b) as [ob|]; [|discriminate].
  simpl. intros [= <-]. eauto.
Qed.

(** Encoding the joined string is encoding every part and joining the
    results with the encoded separator. *)
Lemma encode_join sep esep parts :
  sep <> [] ->
  encodeURIComponent sep = Some esep ->
  encodeURIComponent (join sep parts) =
  join esep <$> mapM encodeURIComponent parts.
Proof.
  intros Hne Hsep.
  assert (Hhead : forall t, headNotTrailing (sep ++ t)).
  { intros t. apply encode_head in Hsep. destruct sep; [done | exact Hsep]. }
  induction parts as [|p ps IH]; [reflexivity|].
  destruct ps as [|p' ps].
  - simpl. destruct (encodeURIComponent p); reflexivity.
  - change (join sep (p :: p' :: ps)) with (p ++ sep ++ join sep (p' :: ps)).
    rewrite encode_app by apply Hhead.
    rewrite (encode_app_Some _ _ _ Hsep), IH.
    cbn [mapM]. destruct (encodeURIComponent p) as [o|]; [|reflexivity].
    simpl. destruct (encodeURIComponent p') as [o'|]; [|reflexivity].
    simpl. destruct (mapM encodeURIComponent ps) as [os|]; reflexivity.
Qed.

Lemma lor_disjoint hi x k :
  x < 2 ^ k -> N.land hi (N.ones k) = 0 -> N.lor hi x = hi + x.
Proof.
  intros Hx Hhi.
  assert (Hland : N.land hi x = 0).
  { rewrite <- (N.mod_small x (2 ^ k)) by exact Hx.
    rewrite <- N.land_ones, (N.land_comm x), N.land_assoc, Hhi.
    apply N.land_0_l. }
  by rewrite <- N.lxor_lor, <- N.add_nocarry_lxor.
Qed.

(** The quotient and the remainder of a division by a power of two that
    the octets are cut at. *)
Lemma div_mod_64 x : exists q r, x / 64 = q /\ x mod 64 = r /\ x = 64 * q + r /\ r < 64.
Proof.
  exists (x / 64), (x mod 64). split; [reflexivity|]. split; [reflexivity|].
  split; [apply N.div_mod' | by apply N.mod_lt].
Qed.

(** The octets that the encoder makes of a code point are those of
    RFC 3629. *)
Lemma utf8_utf8Octets cp : cp < 2097152 -> utf8 cp = utf8Octets cp.
Proof.
  intros Hcp. unfold utf8, utf8Octets, continuationOctet.
  rewrite !N.shiftr_div_pow2.
  change 63 with (N.ones 6). rewrite !N.land_ones.
  change (2 ^ 6) with 64.
  replace (cp / 2 ^ 12) with (cp / 64 / 64)
    by (by rewrite N.Div0.div_div).
  replace (cp / 2 ^ 18) with (cp / 64 / 64 / 64)
    by (by rewrite !N.Div0.div_div).
  replace (cp / 4096) with (cp / 64 / 64)
    by (by rewrite N.Div0.div_div).
  replace (cp / 262144) with (cp / 64 / 64 / 64)
    by (by rewrite !N.Div0.div_div).
  destruct (div_mod_64 cp) as (q1 & r1 & -> & -> & Hq1 & Hr1).
  destruct (div_mod_64 q1) as (q2 & r2 & -> & -> & Hq2 & Hr2).
  destruct (div_mod_64 q2) as (q3 & r3 & -> & -> & Hq3 & Hr3).
  destruct (cp <? 128) eqn:H1; [reflexivity|].
  apply N.ltb_ge in H1.
  destruct (cp <? 2048) eqn:H2.
  { apply N.ltb_lt in H2.
    by rewrite (lor_disjoint 192 q1 5), (lor_disjoint 128 r1 6);
      [|simpl; lia|reflexivity|simpl; lia|reflexivity]. }
  apply N.ltb_ge in H2.
  destruct (cp <? 65536) eqn:H3.
  { apply N.ltb_lt in H3.
    by rewrite (lor_disjoint 224 q2 4), (lor_disjoint 128 r2 6),
      (lor_disjoint 128 r1 6);
      [|simpl; lia|reflexivity|simpl; lia|reflexivity|simpl; lia|reflexivity]. }
  apply N.ltb_ge in H3.
  by rewrite (lor_disjoint 240 q3 3), (lor_disjoint 128 r3 6),
    (lor_disjoint 128 r2 6), (lor_disjoint 128 r1 6);
    [|simpl; lia|reflexivity|simpl; lia|reflexivity|simpl; lia|reflexivity
     |simpl; lia|reflexivity].
Qed.

Lemma leading_not_trailing c :
  isLeadingSurrogate c = true -> isTrailingSurrogate c = false.
Proof.
  unfold isLeadingSurrogate, isTrailingSurrogate, inRange.
  rewrite andb_true_iff, andb_false_iff, !N.leb_le, !N.leb_gt. lia.
Qed.

(** An occurrence of a code unit beyond ASCII that is not half of a pair
    becomes the escapes of its octets. *)
Lemma encode_split_unit a c b out :
  128 <= c < 65536 ->
  isLeadingSurrogate c = false -> isTrailingSurrogate c = false ->
  encodeURIComponent (a ++ c :: b) = Some out ->
  exists oa ob,
    encodeURIComponent a = Some oa /\ encodeURIComponent b = Some ob
    /\ out = oa ++ escapeOf c ++ ob.
Proof.
  intros Hc Hlead Htrail.
  rewrite encode_app by exact Htrail. cbn [encodeURIComponent].
  assert (uriUnescaped c = false) as ->.
  { destruct (uriUnescaped c) eqn:Hu; [|reflexivity].
    apply unescaped_ascii in Hu. lia. }
  rewrite Hlead, Htrail. unfold percentEncode.
  rewrite utf8_utf8Octets by lia. fold (escapeOf c).
  destruct (encodeURIComponent a) as [oa|]; [|discriminate].
  destruct (encodeURIComponent b) as [ob|]; [|discriminate].
  simpl. intros [= <-]. eauto.
Qed.

(** An occurrence of a surrogate pair becomes the escapes of the octets of
    its code point. *)
Lemma encode_split_pair a lead trail b out :
  isLeadingSurrogate lead = true -> isTrailingSurrogate trail = true ->
  encodeURIComponent (a ++ lead :: trail :: b) = Some out ->
  exists oa ob,
    encodeURIComponent a = Some oa /\ encodeURIComponent b = Some ob
    /\ out = oa ++ escapeOf (pairCodePoint lead trail) ++ ob.
Proof.
  intros Hlead Htrail.
  rewrite encode_app by (by apply leading_not_trailing).
  cbn [encodeURIComponent].
  rewrite surrogate_not_unescaped by auto. rewrite Hlead, Htrail.
  assert (Hcp : UTF16SurrogatePairToCodePoint lead trail
                = pairCodePoint lead trail).
  { unfold UTF16SurrogatePairToCodePoint, pairCodePoint. lia. }
  assert (Hrange : pairCodePoint lead trail < 2097152).
  { unfold pairCodePoint.
    unfold isLeadingSurrogate, isTrailingSurrogate, inRange in Hlead, Htrail.
    rewrite andb_true_iff, !N.leb_le in Hlead, Htrail. lia. }
  unfold percentEncode. rewrite Hcp, utf8_utf8Octets by exact Hrange.
  fold (escapeOf (pairCodePoint lead trail)).
  destruct (encodeURIComponent a) as [oa|]; [|discriminate].
  destruct (encodeURIComponent b) as [ob|]; [|discriminate].
  simpl. intros [= <-]. eauto.
Qed.

(** C2 (amended).  The percent-encoding of the URI composer is applied
    to the separator-joined string as a whole.  It yields a result exactly
    when that string is well-formed UTF-16, and the result is made of
    unescaped characters and percent signs only.  Of the reserved URI
    characters of RFC 3986 the encoder keeps [! ' ( ) *] and no other.
    Every other one is absent from the result, each of its occurrences in
    the joined string having become its escape [%XX], as does every ASCII
    character that is not unescaped.  Every occurrence of a character
    beyond ASCII, be it one code unit or a surrogate pair, has become the
    escapes [%XX] of the octets that RFC 3629 gives its code point.  Every
    occurrence of an unescaped character, the full stop among them, is
    copied.  The whole is the encoded parts joined by the encoded
    separator, so that a separator is escaped when it needs to be and a
    ["."] is kept. *)
Theorem encodeURIComponent_escapes_all_but_marks
    (sep : jsstring) (parts : list jsstring) :
  let joined := join sep parts in
  (wellFormed joined = true <-> is_Some (encodeURIComponent joined))
  /\ List.filter uriUnescaped rfc3986Reserved = lit "!'()*"
  /\ uriUnescaped fullStop = true
  /\ (forall out, encodeURIComponent joined = Some out ->
       Forall inAlphabet out
       /\ (forall c,
             memN c rfc3986Reserved = true -> uriUnescaped c = false ->
             ~ In c out)
       /\ (forall a c b,
             joined = a ++ c :: b -> c < 128 -> uriUnescaped c = false ->
             exists oa ob,
               encodeURIComponent a = Some oa /\ encodeURIComponent b = Some ob
               /\ out = oa ++ percentOctet c ++ ob)
       /\ (forall a c b,
             joined = a ++ c :: b -> 128 <= c < 65536 ->
             isLeadingSurrogate c = false -> isTrailingSurrogate c = false ->
             exists oa ob,
               encodeURIComponent a = Some oa /\ encodeURIComponent b = Some ob
               /\ out = oa ++ escapeOf c ++ ob)
       /\ (forall a lead trail b,
             joined = a ++ lead :: trail :: b ->
             isLeadingSurrogate lead = true ->
             isTrailingSurrogate trail = true ->
             exists oa ob,
               encodeURIComponent a = Some oa /\ encodeURIComponent b = Some ob
               /\ out = oa ++ escapeOf (pairCodePoint lead trail) ++ ob)
       /\ (forall a c b,
             joined = a ++ c :: b -> uriUnescaped c = true ->
             exists oa ob,
               encodeURIComponent a = Some oa /\ encodeURIComponent b = Some ob
               /\ out = oa ++ c :: ob))
  /\ (forall esep,
        sep <> [] -> encodeURIComponent sep = Some esep ->
        encodeURIComponent joined =
        join esep <$> mapM encodeURIComponent parts).
Proof.
  intros joined. split; [apply wellFormed_encodes|].
  split; [reflexivity|]. split; [reflexivity|]. split.
  - intros out Hout. split; [by eapply encode_alphabet|].
    split; [|split; [|split; [|split]]].
    + intros c Hr Hu Hin. apply encode_alphabet in Hout.
      rewrite Forall_forall in Hout.
      apply (reserved_not_in_alphabet c Hr Hu). apply Hout.
      by apply list_elem_of_In.
    + intros a c b Hj Hc Hu. rewrite Hj in Hout.
      by apply encode_split_escaped.
    + intros a c b Hj Hc Hlead Htrail. rewrite Hj in Hout.
      by apply encode_split_unit.
    + intros a lead trail b Hj Hlead Htrail. rewrite Hj in Hout.
      by apply encode_split_pair.
    + intros a c b Hj Hu. rewrite Hj in Hout.
      by apply encode_split_unescaped.
  - intros esep Hne Hsep. by apply encode_join.
Qed.

Lemma encodeURIComponent_escapes_all_but_marks_witness :
  (exists oa ob,
     encodeURIComponent (lit "main.a") = Some oa
     /\ encodeURIComponent (lit "b") = Some ob
     /\ lit "main.a%2Fb" = oa ++ percentOctet slash ++ ob)
  /\ (exists oa ob,
        encodeURIComponent (lit "caf") = Some oa
        /\ encodeURIComponent [] = Some ob
        /\ lit "caf%C3%A9" = oa ++ escapeOf 233 ++ ob)
  /\ (exists oa ob,
        encodeURIComponent [] = Some oa
        /\ encodeURIComponent (lit "!") = Some ob
        /\ lit "%F0%9F%98%80!"
           = oa ++ escapeOf (pairCodePoint 55357 56832) ++ ob).
Proof.
  split; [|split].
  - destruct (encodeURIComponent_escapes_all_but_marks (lit ".")
                [lit "main"; lit "a/b"])
      as (_ & _ & _ & Hout & _).
    destruct (Hout (lit "main.a%2Fb") eq_refl) as (_ & _ & Hescaped & _).
    apply (Hescaped (lit "main.a") slash (lit "b") eq_refl); reflexivity.
  - destruct (encodeURIComponent_escapes_all_but_marks (lit ".")
                [lit "caf" ++ [233]])
      as (_ & _ & _ & Hout & _).
    destruct (Hout (lit "caf%C3%A9") eq_refl) as (_ & _ & _ & Hunit & _).
    apply (Hunit (lit "caf") 233 [] eq_refl); [lia | reflexivity..].
  - destruct (encodeURIComponent_escapes_all_but_marks (lit ".")
                [[55357; 56832] ++ lit "!"])
      as (_ & _ & _ & Hout & _).
    destruct (Hout (lit "%F0%9F%98%80!") eq_refl)
      as (_ & _ & _ & _ & Hpair & _).
    apply (Hpair [] 55357 56832 (lit "!") eq_refl); reflexivity.
Defined.

(** The parentheses of a label are reserved characters of the joined
    string, and they are in the result as they are. *)
Lemma encodeURIComponent_keeps_parentheses :
  let joined := join (lit ".") [lit "main"; lit "Revenue (net)"] in
  encodeURIComponent joined = Some (lit "main.Revenue%20(net)")
  /\ memN leftParenthesis rfc3986Reserved = true
  /\ In leftParenthesis joined
  /\ In leftParenthesis (lit "main.Revenue%20(net)").
Proof.
  cbv zeta. split; [reflexivity|]. split; [reflexivity|].
  split; vm_compute; tauto.
Qed.

(** The reserved characters in the sense of ECMA-262, [uriReserved], are
    all escaped. *)
Lemma uriReserved_escaped c :
  memN c uriReserved = true ->
  memN c rfc3986Reserved = true /\ uriUnescaped c = false.
Proof.
  intros Hc. unfold memN, uriReserved in Hc. simpl in Hc.
  rewrite !orb_true_iff, !N.eqb_eq in Hc.
  repeat (destruct Hc as [Hc | Hc]; [subst c; split; reflexivity|]).
  discriminate.
Qed.

(** ** Examples of the encoding *)

Example encode_plain :
  encodeURIComponent (lit "main.orders") = Some (lit "main.orders").
Proof. reflexivity. Qed.

Example encode_reserved :
  encodeURIComponent (lit "a/b c?d") = Some (lit "a%2Fb%20c%3Fd").
Proof. reflexivity. Qed.

Example encode_astral :
  encodeURIComponent [55357; 56832] = Some (lit "%F0%9F%98%80").
Proof. reflexivity. Qed.

Example encode_latin :
  encodeURIComponent [233] = Some (lit "%C3%A9").
Proof. reflexivity. Qed.

Example encode_lone_surrogate : encodeURIComponent [97; 55296; 98] = None.
Proof. reflexivity. Qed.

(** ** The document tree *)

Lemma getNode_app p q d :
  getNode (p ++ q) d = getNode p d ≫= getNode q.
Proof.
  revert d. induction p as [|i p IH]; intros d; simpl; [reflexivity|].
  destruct (children d !! i); [apply IH | reflexivity].
Qed.

Lemma alterNode_app f p q d :
  alterNode f (p ++ q) d = alterNode (alterNode f q) p d.
Proof.
  revert d. induction p as [|i p IH]; intros d; simpl; [reflexivity|].
  destruct d as [|e ch]; [reflexivity|]. f_equal.
  apply list_alter_ext; auto.
Qed.

Lemma alterNode_ext f g p d :
  (forall n, f n = g n) -> alterNode f p d = alterNode g p d.
Proof.
  intros Hfg. revert d. induction p as [|i p IH]; intros d; simpl; [apply Hfg|].
  destruct d as [|e ch]; [reflexivity|]. f_equal.
  apply list_alter_ext; auto.
Qed.

Lemma alterNode_alterNode f g p d :
  alterNode f p (alterNode g p d) = alterNode (fun n => f (g n)) p d.
Proof.
  revert d. induction p as [|i p IH]; intros d; simpl; [reflexivity|].
  destruct d as [|e ch]; [reflexivity|]. f_equal.
  rewrite list_alter_alter_eq. apply list_alter_ext; [|reflexivity].
  intros x _. apply IH.
Qed.

Lemma getNode_alterNode f p d :
  getNode p (alterNode f p d) = f <$> getNode p d.
Proof.
  revert d. induction p as [|i p IH]; intros d; simpl; [reflexivity|].
  destruct d as [|e ch]; simpl; [reflexivity|].
  rewrite list_lookup_alter_eq.
  destruct (ch !! i); simpl; [apply IH | reflexivity].
Qed.

(** Two alterations agree when they agree on the node they reach. *)
Lemma alterNode_ext_at f g p d n :
  getNode p d = Some n -> f n = g n -> alterNode f p d = alterNode g p d.
Proof.
  revert d. induction p as [|i p IH]; intros d; simpl.
  - by intros [= ->].
  - destruct d as [|e ch]; simpl; [discriminate|].
    destruct (ch !! i) as [c|] eqn:Hc; [|discriminate].
    intros Hn Hfg. f_equal. apply list_alter_ext; [|reflexivity].
    intros x Hx. rewrite Hc in Hx. injection Hx as <-. by apply IH.
Qed.

(** Altering a node that is not there changes nothing. *)
Lemma alterNode_None f p d : getNode p d = None -> alterNode f p d = d.
Proof.
  revert d. induction p as [|i p IH]; intros d; simpl; [discriminate|].
  destruct d as [|e ch]; simpl; [reflexivity|].
  intros Hnone. f_equal.
  destruct (ch !! i) as [c|] eqn:Hc.
  - rewrite <- (list_alter_id (fun x => x) ch i) at 2 by reflexivity.
    apply list_alter_ext; [|reflexivity].
    intros x Hx. rewrite Hc in Hx. injection Hx as <-. by apply IH.
  - apply lookup_ge_None in Hc.
    rewrite <- (list_alter_id (fun x => x) ch i) at 2 by reflexivity.
    apply list_alter_ext; [|reflexivity].
    intros x Hx. apply lookup_lt_Some in Hx. lia.
Qed.

(** ** Running a handler *)

Lemma forEach_app {A} (f : A -> M unit) l1 l2 w :
  forEach f (l1 ++ l2) w = forEach f l2 (forEach f l1 w).2.
Proof.
  revert w. induction l1 as [|x l1 IH]; intros w; simpl; [reflexivity|].
  unfold bind. destruct (f x w) as [[] w1]. apply IH.
Qed.

(** ** URI generation *)

Lemma filter_all_length {A} (f : A -> bool) l :
  length (List.filter f l) = length l -> List.filter f l = l.
Proof.
  induction l as [|x l IH]; simpl; [reflexivity|].
  destruct (f x); simpl.
  - intros [= Hlen]. f_equal. auto.
  - intros Hlen. pose proof (filter_length_le f l). lia.
Qed.

Lemma filter_all {A} (f : A -> bool) l :
  forallb f l = true -> List.filter f l = l.
Proof.
  induction l as [|x l IH]; simpl; [reflexivity|].
  destruct (f x); simpl; [|discriminate]. intros Hl. f_equal. auto.
Qed.

(** The test of [updateUri] holds exactly when every source value is
    truthy. *)
Lemma parts_complete (l : list (option jsstring)) :
  (length (List.filter truthy l) =? length l)%nat
  && forallb truthy (List.filter truthy l) = true
  <-> forallb truthy l = true.
Proof.
  split.
  - rewrite andb_true_iff, Nat.eqb_eq. intros [Hlen Hall].
    by rewrite (filter_all_length _ _ Hlen) in Hall.
  - intros Hall. rewrite (filter_all _ _ Hall), Nat.eqb_refl. exact Hall.
Qed.

Lemma allNonEmpty_forallb ids doc :
  allNonEmpty ids doc
  <-> forallb truthy (map (fun i => valueById i doc) ids) = true.
Proof.
  unfold allNonEmpty. rewrite forallb_forall. split.
  - intros Hall v Hv. apply in_map_iff in Hv as (i & <- & Hi). auto.
  - intros Hall i Hi. apply Hall. apply in_map_iff. eauto.
Qed.

(** What [updateUri] does, by cases. *)
Lemma updateUri_run b w :
  Binder.updateUri b w =
  (tt,
   if forallb truthy (map (fun i => valueById i (document w)) (sourceIds b))
   then
     match encodeURIComponent
             (join (separator b) (sourceValues (sourceIds b) (document w)))
     with
     | Some encoded =>
         mkWorld
           (alterNode (assignValue (userNs b ++ encoded)) (uriInput b)
              (document w))
           (log w ++ [SetValue (uriInput b) (userNs b ++ encoded)])
     | None => mkWorld (document w) (log w ++ [Uncaught (lit "URIError")])
     end
   else w).
Proof.
  unfold Binder.updateUri, bind, getDocument, sourceValues.
  set (l := map (fun i => valueById i (document w)) (sourceIds b)).
  replace (length (sourceIds b)) with (length l) by apply length_map.
  destruct (_ && _) eqn:Htest.
  - apply parts_complete in Htest. rewrite Htest, (filter_all _ _ Htest).
    unfold l. rewrite map_map.
    destruct (encodeURIComponent _); reflexivity.
  - destruct (forallb truthy l) eqn:Hall; [|reflexivity].
    apply parts_complete in Hall. congruence.
Qed.

Lemma valueAt_assignValue v p doc e :
  elementAt p doc = Some e -> tagName e <> lit "select" ->
  valueAt p (alterNode (assignValue v) p doc) = Some v.
Proof.
  unfold elementAt, valueAt. rewrite getNode_alterNode.
  destruct (getNode p doc) as [[|e' ch]|]; try discriminate.
  intros [= ->] Htag. simpl. unfold assignValue, eqs.
  rewrite bool_decide_eq_false_2 by done. simpl. unfold eqs.
  by rewrite bool_decide_eq_false_2.
Qed.

(** C1 (amended).  A run of [updateUri] writes the target field if and
    only if every configured source field is non-empty and the
    separator-joined source values form well-formed UTF-16 (with an
    unpaired surrogate [encodeURIComponent] throws).  What it then writes
    is the namespace prefix followed by the percent-encoding of the joined
    values; otherwise the document, and with it the previous value of the
    target, is left as it was. *)
Theorem updateUri_writes_when_complete (b : UriBinding) (w : World) :
  let doc := document w in
  let joined := join (separator b) (sourceValues (sourceIds b) doc) in
  let w' := (Binder.updateUri b w).2 in
  (allNonEmpty (sourceIds b) doc /\ wellFormed joined = true ->
   exists encoded,
     encodeURIComponent joined = Some encoded
     /\ log w' = log w ++ [SetValue (uriInput b) (userNs b ++ encoded)]
     /\ document w' =
        alterNode (assignValue (userNs b ++ encoded)) (uriInput b) doc
     /\ (forall e, elementAt (uriInput b) doc = Some e ->
           tagName e <> lit "select" ->
           valueAt (uriInput b) (document w') = Some (userNs b ++ encoded)))
  /\ (~ (allNonEmpty (sourceIds b) doc /\ wellFormed joined = true) ->
      document w' = doc
      /\ (log w' = log w \/ log w' = log w ++ [Uncaught (lit "URIError")])).
Proof.
  intros doc joined w'. subst w'. rewrite updateUri_run. simpl.
  fold doc. fold joined. split.
  - intros [Hall Hwf]. apply allNonEmpty_forallb in Hall. rewrite Hall.
    apply wellFormed_encodes in Hwf as [encoded Henc]. rewrite Henc.
    exists encoded. simpl. repeat split.
    intros e He Htag. by eapply valueAt_assignValue.
  - intros Hnot. destruct (forallb truthy _) eqn:Hall; [|auto].
    destruct (encodeURIComponent joined) as [encoded|] eqn:Henc; [|auto].
    exfalso. apply Hnot. split.
    + by apply allNonEmpty_forallb.
    + apply wellFormed_encodes. eauto.
Qed.

(** Every source field of this binding is non-empty, and nothing is
    written: the label is an unpaired surrogate. *)
Lemma updateUri_unpaired_surrogate :
  let b := Binder.readUriBinding surrogatePage [2%nat] in
  let w := mkWorld surrogatePage [] in
  let w' := (Binder.updateUri b w).2 in
  sourceIds b = [lit "label"]
  /\ allNonEmpty (sourceIds b) surrogatePage
  /\ document w' = surrogatePage
  /\ log w' = [Uncaught (lit "URIError")]
  /\ ~ exists v, In (SetValue (uriInput b) v) (log w').
Proof.
  cbv zeta. split; [reflexivity|]. split.
  - intros i [<- | []]. reflexivity.
  - split; [reflexivity|]. split; [reflexivity|].
    intros [v [Hv | []]]. discriminate.
Qed.


Lemma updateUri_writes_when_complete_witness :
  let b := mkUriBinding [1%nat] [lit "catalog"; lit "table"]
             (lit "http://example.org/") (lit ".") in
  let doc := documentNode
               [ inputNode "catalog" (lit "main") [];
                 inputNode "uri" [] [];
                 inputNode "table" (lit "orders") [] ] in
  valueAt [1%nat] (document (Binder.updateUri b (mkWorld doc [])).2)
  = Some (lit "http://example.org/main.orders").
Proof.
  intros b doc.
  destruct (updateUri_writes_when_complete b (mkWorld doc [])) as [Hwrite _].
  destruct Hwrite as (encoded & Henc & _ & _ & Hvalue).
  - split; [|reflexivity].
    intros i [<- | [<- | []]]; reflexivity.
  - injection Henc as <-.
    apply (Hvalue (withId "uri" (withValue (Some [])
                     (withDataset (data []) (element "input"))))).
    + reflexivity.
    + discriminate.
Defined.

(** ** List filtering *)

Lemma alterNode_id f p d n :
  getNode p d = Some n -> f n = n -> alterNode f p d = d.
Proof.
  revert d. induction p as [|i p IH]; intros d; simpl.
  - by intros [= ->].
  - destruct d as [|e ch]; simpl; [discriminate|].
    destruct (ch !! i) as [c|] eqn:Hc; [|discriminate].
    intros Hn Hf. f_equal.
    rewrite <- (list_alter_id (fun x => x) ch i) at 2 by reflexivity.
    apply list_alter_ext; [|reflexivity].
    intros x Hx. rewrite Hc in Hx. injection Hx as <-. by apply IH.
Qed.

Lemma filter_map_snd {A B} (f : B -> bool) (l : list (A * B)) :
  map snd (List.filter (fun x => f x.2) l) = List.filter f (map snd l).
Proof.
  induction l as [|x l IH]; simpl; [reflexivity|].
  destruct (f x.2); simpl; by rewrite IH.
Qed.

Section Filter.
Context `{Platform}.

(** The text that [filter] searches is the searchable text of the
    specification, in upper case. *)
Lemma searchableText_spec item :
  Binder.searchableText item = toUpperCase (specSearchableText item).
Proof.
  unfold Binder.searchableText, specSearchableText, searchableDescendants,
    querySelector.
  f_equal. f_equal.
  rewrite <- !(map_map snd textContent).
  f_equal. unfold querySelectorAll. rewrite <- !filter_map_snd.
  destruct (List.filter (fun x => matches (byData "searchable") x.2)
              (descendantsOf item)); reflexivity.
Qed.

Lemma hidden_iff item query :
  negb (includes (Binder.searchableText item) (toUpperCase query)) = true
  <-> ~ containsIgnoringCase (specSearchableText item) query.
Proof.
  rewrite negb_true_iff, <- not_true_iff_false, includes_spec,
    searchableText_spec.
  reflexivity.
Qed.

(** The child at position [k] of a container whose children are being
    replaced. *)
Lemma getNode_child container k doc e ch X :
  getNode container doc = Some (Elem e ch) ->
  getNode (container ++ [k]) (alterNode (setChildren X) container doc) = X !! k.
Proof.
  intros Hl. rewrite getNode_app, getNode_alterNode, Hl. simpl.
  destruct (X !! k); reflexivity.
Qed.

Lemma alterNode_child f container k doc X :
  alterNode f (container ++ [k]) (alterNode (setChildren X) container doc)
  = alterNode (setChildren (alter f k X)) container doc.
Proof.
  rewrite alterNode_app, alterNode_alterNode. apply alterNode_ext.
  intros [|e ch]; reflexivity.
Qed.

Lemma forEach_cons {A} (f : A -> M unit) x l w :
  forEach f (x :: l) w = forEach f l (f x w).2.
Proof. simpl. unfold bind. by destruct (f x w) as [[] w1]. Qed.

Lemma filterRound_run container query doc e ch done c todo w :
  getNode container doc = Some (Elem e ch) ->
  document w = alterNode (setChildren (done ++ c :: todo)) container doc ->
  (filterRound container query (length done) w).2 =
  mkWorld
    (alterNode (setChildren (done ++ hideUnless query c :: todo)) container doc)
    (log w ++ [SetHidden (container ++ [length done])
                 (negb (includes (Binder.searchableText c) query))]).
Proof.
  intros Hl Hdoc. unfold filterRound, bind, getDocument.
  rewrite Hdoc, (getNode_child _ _ _ _ _ _ Hl).
  rewrite list_lookup_middle by reflexivity.
  unfold setHidden, bind, emit, modify. simpl.
  rewrite Hdoc, alterNode_child. f_equal. f_equal. f_equal.
  rewrite <- (Nat.add_0_r (length done)), alter_app_r. reflexivity.
Qed.

Lemma filter_loop container query doc e ch todo :
  getNode container doc = Some (Elem e ch) ->
  forall done w,
    document w = alterNode (setChildren (done ++ todo)) container doc ->
    let w' :=
      (forEach (filterRound container query)
         (indexedFlatMap (fun i c => if isElement c then [i] else [])
            (length done) todo) w).2 in
    document w' =
      alterNode (setChildren (done ++ map (hideUnless query) todo))
        container doc
    /\ log w' = log w ++ filterLog container query (length done) todo.
Proof.
  intros Hl. induction todo as [|c todo IH]; intros done w Hdoc.
  - simpl. split; [exact Hdoc | by rewrite app_nil_r].
  - assert (Hnext : forall c' w1,
      document w1 =
        alterNode (setChildren (done ++ c' :: todo)) container doc ->
      document w1 =
        alterNode (setChildren ((done ++ [c']) ++ todo)) container doc).
    { intros c' w1 ->. by rewrite <- app_assoc. }
    destruct c as [s|ec chc].
    + specialize (IH (done ++ [Text s]) w (Hnext _ _ Hdoc)).
      rewrite length_app, Nat.add_1_r in IH. simpl in IH.
      rewrite <- app_assoc in IH. exact IH.
    + cbn [indexedFlatMap isElement app]. rewrite forEach_cons.
      rewrite (filterRound_run _ _ _ _ _ _ _ _ _ Hl Hdoc).
      set (w1 := mkWorld _ _).
      assert (Hw1 : document w1 =
        alterNode
          (setChildren (done ++ hideUnless query (Elem ec chc) :: todo))
          container doc) by reflexivity.
      specialize (IH (done ++ [hideUnless query (Elem ec chc)]) w1
                    (Hnext _ _ Hw1)).
      rewrite length_app, Nat.add_1_r in IH. cbn zeta in IH.
      rewrite <- app_assoc in IH. destruct IH as [IHd IHl].
      split; [exact IHd|]. rewrite IHl. unfold w1. cbn [log].
      unfold filterLog. cbn [indexedFlatMap isElement app].
      by rewrite <- app_assoc.
Qed.

(** What [filter] does to the document and what it records. *)
Lemma filter_run input container w v e items :
  valueAt input (document w) = Some v ->
  getNode container (document w) = Some (Elem e items) ->
  let w' := (Binder.filter input container w).2 in
  document w' =
    alterNode (setChildren (map (hideUnless (toUpperCase v)) items)) container
      (document w)
  /\ log w' = log w ++ filterLog container (toUpperCase v) 0 items.
Proof.
  intros Hv Hl. unfold Binder.filter, bind, getDocument. cbn beta iota.
  rewrite Hv, Hl. cbn [children].
  apply (filter_loop container (toUpperCase v) (document w) e items items Hl
           [] w).
  simpl. symmetry. by eapply alterNode_id.
Qed.

End Filter.

(** C7.  After an input event on a filter-bound input, the children of the
    target container are the same nodes in the same order, and each
    element child has its [hidden] flag set exactly when its searchable
    text (the text contents of its marked descendants or, without any, of
    its spans, joined with a space) does not contain the value of the
    input as a substring, case put aside; it is cleared otherwise. *)
Theorem filter_hides_exactly_non_matching `{Platform}
    (input container : Path) (w : World) (query : jsstring)
    (e : Element) (items : list Node) :
  valueAt input (document w) = Some query ->
  getNode container (document w) = Some (Elem e items) ->
  let w' := (Binder.filter input container w).2 in
  exists items',
    document w' = alterNode (setChildren items') container (document w)
    /\ getNode container (document w') = Some (Elem e items')
    /\ length items' = length items
    /\ forall i item,
         items !! i = Some item ->
         match item with
         | Text _ => items' !! i = Some item
         | Elem ei chi =>
             exists h,
               items' !! i = Some (Elem (withHidden h ei) chi)
               /\ (h = true <->
                   ~ containsIgnoringCase (specSearchableText item) query)
         end.
Proof.
  intros Hv Hl w'.
  destruct (filter_run input container w query e items Hv Hl) as [Hdoc _].
  fold w' in Hdoc.
  exists (map (hideUnless (toUpperCase query)) items).
  split; [exact Hdoc|]. split; [|split].
  - rewrite Hdoc, getNode_alterNode, Hl. reflexivity.
  - apply length_map.
  - intros i item Hi.
    pose proof (list_lookup_fmap (hideUnless (toUpperCase query)) items i)
      as Hmap.
    rewrite Hi in Hmap. simpl in Hmap.
    destruct item as [s|ei chi]; [exact Hmap|].
    eexists. split; [exact Hmap|]. apply hidden_iff.
Qed.

Lemma filter_hides_exactly_non_matching_witness :
  let w' := (Binder.filter [0%nat] [1%nat] (mkWorld (filterPage "cust") [])).2 in
  exists items',
    getNode [1%nat] (document w')
    = Some (Elem (withId "table_list" (element "ul")) items')
    /\ length items' = 2%nat.
Proof.
  destruct (filter_hides_exactly_non_matching [0%nat] [1%nat]
              (mkWorld (filterPage "cust") []) (lit "cust")
              (withId "table_list" (element "ul"))
              [ Elem (withHidden true (element "li")) [spanNode "Revenue"];
                listItem [spanNode "Customer"; spanNode "Count"] ]
              eq_refl eq_refl)
    as (items' & _ & Hget & Hlen & _).
  exists items'. split; assumption.
Defined.

(** The example of the specification: with the filter "cust", the item
    "Revenue" is hidden and the item "Customer Count" is shown. *)
Example filter_cust :
  map (fun item => hidden <$> elementAt [] item)
    (children
       (default (Text [])
          (getNode [1%nat]
             (document
                (Binder.filter [0%nat] [1%nat]
                   (mkWorld (filterPage "cust") [])).2))))
  = [Some true; Some false].
Proof. reflexivity. Qed.

(** C10.  When the value of a filter-bound input is the empty string, the
    handler clears the [hidden] flag of every element child of the target
    container, whatever the flag was before. *)
Theorem filter_empty_query_shows_all `{Platform}
    (input container : Path) (w : World) (e : Element) (items : list Node) :
  valueAt input (document w) = Some [] ->
  getNode container (document w) = Some (Elem e items) ->
  let w' := (Binder.filter input container w).2 in
  exists items',
    getNode container (document w') = Some (Elem e items')
    /\ length items' = length items
    /\ forall i ei chi,
         items !! i = Some (Elem ei chi) ->
         items' !! i = Some (Elem (withHidden false ei) chi).
Proof.
  intros Hv Hl w'.
  destruct (filter_run input container w [] e items Hv Hl) as [Hdoc _].
  fold w' in Hdoc.
  exists (map (hideUnless (toUpperCase [])) items).
  split; [|split].
  - rewrite Hdoc, getNode_alterNode, Hl. reflexivity.
  - apply length_map.
  - intros i ei chi Hi.
    rewrite list_lookup_fmap, Hi. simpl.
    by rewrite toUpperCase_empty, includes_empty.
Qed.

Lemma filter_empty_query_shows_all_witness :
  let w' := (Binder.filter [0%nat] [1%nat] (mkWorld (filterPage "") [])).2 in
  exists items',
    getNode [1%nat] (document w')
    = Some (Elem (withId "table_list" (element "ul")) items')
    /\ items' !! 0%nat = Some (Elem (element "li") [spanNode "Revenue"]).
Proof.
  destruct (filter_empty_query_shows_all [0%nat] [1%nat]
              (mkWorld (filterPage "") [])
              (withId "table_list" (element "ul"))
              [ Elem (withHidden true (element "li")) [spanNode "Revenue"];
                listItem [spanNode "Customer"; spanNode "Count"] ]
              eq_refl eq_refl)
    as (items' & Hget & _ & Hitems).
  exists items'. split; [exact Hget|].
  exact (Hitems 0%nat _ _ eq_refl).
Defined.

(** ** Delete operations *)

Lemma closest_matches sel doc p q :
  closest sel doc p = Some q ->
  exists e ch, getNode q doc = Some (Elem e ch) /\ sel e = true.
Proof.
  unfold closest. intros Hfind. apply find_some in Hfind as [_ Hm].
  unfold matchesAt in Hm.
  destruct (getNode q doc) as [[|e ch]|]; try discriminate. eauto.
Qed.

Lemma excluded_spec k :
  existsb (eqs k) Binder.excludedKeys = true <-> In k Binder.excludedKeys.
Proof.
  rewrite existsb_exists. split.
  - intros (x & Hx & Heq). apply bool_decide_eq_true in Heq. by subst.
  - intros Hk. exists k. split; [exact Hk | by apply bool_decide_eq_true].
Qed.

(** The loop over the entries copies every entry but the excluded ones
    and the one under [__proto__], which the assignment does not store. *)
Lemma buildBody_lookup_Some (entries : list (jsstring * jsstring)) k v :
  NoDup entries.*1 ->
  Binder.buildBody entries !! k = Some v
  <-> ~ In k Binder.excludedKeys /\ k <> lit "__proto__"
      /\ (k, v) ∈ entries.
Proof.
  unfold Binder.buildBody.
  induction entries as [|[k' v'] entries IH] using rev_ind; intros Hnd.
  - simpl. rewrite lookup_empty, elem_of_nil. split; [discriminate | tauto].
  - rewrite fmap_app in Hnd. apply NoDup_app in Hnd as (Hnd & Hfresh & _).
    rewrite foldl_snoc. cbn [fst snd].
    destruct (existsb (eqs k') Binder.excludedKeys) eqn:Hex.
    + rewrite IH by exact Hnd. rewrite elem_of_app, list_elem_of_singleton.
      apply excluded_spec in Hex. split.
      * intros (Hk & Hp & Hin). auto.
      * intros (Hk & Hp & [Hin | [= -> ->]]); [auto | contradiction].
    + assert (Hk' : ~ In k' Binder.excludedKeys).
      { rewrite <- excluded_spec. congruence. }
      unfold Binder.assignProperty, eqs. case_bool_decide as Hproto.
      * rewrite IH by exact Hnd.
        rewrite elem_of_app, list_elem_of_singleton. split.
        -- intros (Hk & Hp & Hin). auto.
        -- intros (Hk & Hp & [Hin | [= -> ->]]); [auto | contradiction].
      * rewrite lookup_insert_Some, IH by exact Hnd.
        rewrite elem_of_app, list_elem_of_singleton. split.
        -- intros [[<- <-] | (Hne & Hk & Hp & Hin)]; auto.
        -- intros (Hk & Hp & [Hin | [= -> ->]]); [|auto].
           right. split; [|auto]. intros <-.
           apply (Hfresh k'); [|simpl; left].
           apply list_elem_of_fmap. exists (k', v). auto.
Qed.

Lemma buildBody_lookup (m : gmap jsstring jsstring) k :
  Binder.buildBody (map_to_list m) !! k =
  if bool_decide (k ∈ Binder.excludedKeys) || eqs k (lit "__proto__")
  then None else m !! k.
Proof.
  apply option_eq. intros v.
  rewrite buildBody_lookup_Some by apply NoDup_fst_map_to_list.
  rewrite elem_of_map_to_list, <- list_elem_of_In. unfold eqs.
  repeat case_bool_decide; simpl; split; try tauto; try discriminate.
Qed.

Lemma deleteClick_run answer clicked w btn e ch :
  closest (byData "delete") (document w) clicked = Some btn ->
  getNode btn (document w) = Some (Elem e ch) ->
  let itemType := orElse (dataset e !! lit "type") (lit "item") in
  Binder.deleteClick answer clicked w =
  if answer then
    ([DeleteSettled itemType],
     mkWorld (document w)
       ((log w ++ [Confirm (Binder.confirmMessage itemType)])
        ++ [Fetch (mkRequest (lit "DELETE") (dataset e !! lit "url")
                     (Some (lit "application/json"))
                     (Some (Binder.buildBody (map_to_list (dataset e)))))]))
  else
    ([], mkWorld (document w)
           (log w ++ [Confirm (Binder.confirmMessage itemType)])).
Proof.
  intros Hbtn He. unfold Binder.deleteClick, bind, getDocument.
  rewrite Hbtn, He. destruct answer; reflexivity.
Qed.

(** C5.  When the user declines the confirmation dialog, the click handler
    of the delete-bound controls leaves the document as it was, leaves
    nothing pending, and has done nothing but open the dialog: no request
    is issued.  The same holds of [deleteItem]. *)
Theorem declined_delete_issues_no_request
    (w : World) (clicked : Path)
    (uri itemType : jsstring) (deleteUrl : option jsstring) :
  let r := Binder.deleteClick false clicked w in
  let r' := Legacy.deleteItem false uri deleteUrl itemType w in
  (r.1 = [] /\ document r.2 = document w
   /\ exists actions, log r.2 = log w ++ actions /\ onlyConfirms actions)
  /\ (r'.1 = [] /\ document r'.2 = document w
      /\ exists actions, log r'.2 = log w ++ actions /\ onlyConfirms actions).
Proof.
  split.
  - destruct (closest (byData "delete") (document w) clicked) as [btn|] eqn:Hb.
    + destruct (closest_matches _ _ _ _ Hb) as (e & ch & He & _).
      rewrite (deleteClick_run false clicked w btn e ch Hb He). simpl.
      repeat split. eexists. split; [reflexivity|].
      constructor; [eauto | constructor].
    + unfold Binder.deleteClick, bind, getDocument. rewrite Hb. simpl.
      repeat split. exists []. split; [by rewrite app_nil_r | constructor].
  - simpl. repeat split. eexists. split; [reflexivity|].
    constructor; [eauto | constructor].
Qed.

(** C6 (amended).  When the user confirms, the click handler of a
    delete-bound control issues exactly one request: a DELETE to the URL
    configured on the control, whose JSON body maps every key of the
    control's dataset other than [url], [type], [delete] and [__proto__]
    to its value, and has no other key.  Whatever way the request settles,
    what follows is a reload or an alert, and no further request. *)
Theorem confirmed_delete_issues_one_request
    (w : World) (clicked btn : Path) (outcome : FetchOutcome) :
  closest (byData "delete") (document w) clicked = Some btn ->
  let r := Binder.deleteClick true clicked w in
  exists e ch itemType body,
    getNode btn (document w) = Some (Elem e ch)
    /\ r.1 = [DeleteSettled itemType]
    /\ document r.2 = document w
    /\ log r.2 =
       log w ++ [ Confirm (Binder.confirmMessage itemType);
                  Fetch (mkRequest (lit "DELETE") (dataset e !! lit "url")
                           (Some (lit "application/json")) (Some body)) ]
    /\ (forall k,
          body !! k =
          if bool_decide (k ∈ Binder.excludedKeys) || eqs k (lit "__proto__")
          then None
          else dataset e !! k)
    /\ let w2 := (Binder.deleteSettled itemType outcome r.2).2 in
       document w2 = document w
       /\ exists a, log w2 = log r.2 ++ [a] /\ isFetch a = false.
Proof.
  intros Hb r. destruct (closest_matches _ _ _ _ Hb) as (e & ch & He & _).
  subst r. rewrite (deleteClick_run true clicked w btn e ch Hb He).
  exists e, ch, (orElse (dataset e !! lit "type") (lit "item")),
    (Binder.buildBody (map_to_list (dataset e))).
  cbn [fst snd document log]. rewrite <- app_assoc.
  split; [exact He|]. split; [reflexivity|]. split; [reflexivity|].
  split; [reflexivity|]. split; [apply buildBody_lookup|].
  destruct outcome as [|[] b]; (split; [reflexivity|]);
    eexists; split; reflexivity.
Qed.

Lemma confirmed_delete_issues_one_request_witness :
  exists e ch itemType body,
    getNode [0%nat; 0%nat] deletePage = Some (Elem e ch)
    /\ log (Binder.deleteClick true [0%nat; 0%nat; 0%nat]
              (mkWorld deletePage [])).2
       = [ Confirm (Binder.confirmMessage itemType);
           Fetch (mkRequest (lit "DELETE") (dataset e !! lit "url")
                    (Some (lit "application/json")) (Some body)) ]
    /\ body !! lit "uri" = dataset e !! lit "uri"
    /\ body !! lit "url" = None.
Proof.
  destruct (confirmed_delete_issues_one_request (mkWorld deletePage [])
              [0%nat; 0%nat; 0%nat] [0%nat; 0%nat] NetworkError eq_refl)
    as (e & ch & itemType & body & He & _ & _ & Hlog & Hbody & _).
  exists e, ch, itemType, body.
  split; [exact He|]. split; [exact Hlog|].
  split; [exact (Hbody (lit "uri")) | exact (Hbody (lit "url"))].
Defined.

(** A control that declares a field under the name [__proto__]: the field
    is among the declared key/value fields of the control, and it is not
    in the body of the request that the confirmed click issues. *)
Lemma confirmed_delete_drops_proto :
  let r := Binder.deleteClick true [0%nat] (mkWorld protoPage []) in
  closest (byData "delete") protoPage [0%nat] = Some [0%nat]
  /\ dataset protoButton !! lit "__proto__" = Some (lit "x")
  /\ ~ lit "__proto__" ∈ Binder.excludedKeys
  /\ log r.2 =
     [ Confirm (lit "Are you sure you want to delete this item?");
       Fetch (mkRequest (lit "DELETE") (Some (lit "/tables/delete"))
                (Some (lit "application/json"))
                (Some {[ lit "uri" := lit "http://example.org/main.orders" ]}))
     ]
  /\ ({[ lit "uri" := lit "http://example.org/main.orders" ]}
       : gmap jsstring jsstring) !! lit "__proto__" = None.
Proof.
  cbv zeta. split; [reflexivity|]. split; [vm_compute; reflexivity|].
  split; [|split; [vm_compute; reflexivity | vm_compute; reflexivity]].
  unfold Binder.excludedKeys. rewrite !elem_of_cons, elem_of_nil.
  intros [H | [H | [H | []]]]; discriminate H.
Qed.

(** The request that the click on the icon of [deletePage] issues. *)
Example delete_example :
  let r := Binder.deleteClick true [0%nat; 0%nat; 0%nat]
             (mkWorld deletePage []) in
  r.1 = [DeleteSettled (lit "table")]
  /\ log r.2 =
     [ Confirm (lit "Are you sure you want to delete this table?");
       Fetch (mkRequest (lit "DELETE") (Some (lit "/tables/delete"))
                (Some (lit "application/json"))
                (Some {[ lit "uri" := lit "http://example.org/main.orders" ]}))
     ].
Proof. vm_compute. split; reflexivity. Qed.

(** ** What handlers record *)

Lemma records_ret {A} P (a : A) : records P (ret a).
Proof. intros w. exists []. split; [by rewrite app_nil_r | constructor]. Qed.

Lemma records_bind {A B} P (m : M A) (k : A -> M B) :
  records P m -> (forall a, records P (k a)) -> records P (bind m k).
Proof.
  intros Hm Hk w. unfold bind. destruct (Hm w) as (l1 & Hl1 & HP1).
  destruct (m w) as [a w1]. simpl in Hl1.
  destruct (Hk a w1) as (l2 & Hl2 & HP2).
  exists (l1 ++ l2). rewrite Hl2, Hl1, app_assoc. split; [reflexivity|].
  by apply Forall_app.
Qed.

Lemma records_getDocument P : records P getDocument.
Proof. intros w. exists []. split; [by rewrite app_nil_r | constructor]. Qed.

Lemma records_modify P f : records P (modify f).
Proof. intros w. exists []. split; [by rewrite app_nil_r | constructor]. Qed.

Lemma records_emit (P : Action -> Prop) a : P a -> records P (emit a).
Proof. intros Ha w. exists [a]. split; [reflexivity | by constructor]. Qed.

Lemma records_forEach {A} P (f : A -> M unit) l :
  (forall x, records P (f x)) -> records P (forEach f l).
Proof.
  intros Hf. induction l as [|x l IH]; simpl.
  - apply records_ret.
  - apply records_bind; auto.
Qed.

Lemma records_runAll {A} P (f : A -> M (list Continuation)) l :
  (forall x, records P (f x)) -> records P (runAll f l).
Proof.
  intros Hf. induction l as [|x l IH]; simpl.
  - apply records_ret.
  - apply records_bind; [auto|]. intros ks.
    apply records_bind; [auto|]. intros ks'. apply records_ret.
Qed.

Lemma records_if {A} P (b : bool) (m1 m2 : M A) :
  records P m1 -> records P m2 -> records P (if b then m1 else m2).
Proof. by destruct b. Qed.

Lemma records_appends {A} P (m : M A) : records P m -> appends m.
Proof. intros Hm w. destruct (Hm w) as (l & Hl & _). eauto. Qed.

Lemma appends_records {A} (m : M A) : appends m -> records (fun _ => True) m.
Proof.
  intros Hm w. destruct (Hm w) as (l & Hl). exists l. split; [exact Hl|].
  by apply Forall_forall.
Qed.

Create HintDb records.
#[export] Hint Resolve records_ret records_getDocument records_modify
  records_if : records.

(** Goes through a computation built from the primitives. *)
Ltac records_step :=
  match goal with
  | |- records _ (bind _ _) => apply records_bind; [|intros ?]
  | |- records _ (emit _) => apply records_emit
  | |- records _ (forEach _ _) => apply records_forEach; intros ?
  | |- records _ (runAll _ _) => apply records_runAll; intros ?
  | |- records _ (match ?x with _ => _ end) => destruct x
  | |- records _ (let _ := _ in _) => cbv zeta
  | |- records _ _ => solve [auto with records]
  end.

Ltac records_auto := repeat records_step.

(** ** Cascade selects *)

Section Cascade.
Context `{Platform}.

Lemma resetDependent_records P i :
  (forall p, P (SetInnerHTML p (selectMarkup i))) ->
  (forall p, P (SetDisabled p true)) ->
  records P (Binder.resetDependent i).
Proof.
  intros H1 H2. unfold Binder.resetDependent, setInnerHTML, setDisabled.
  records_auto; auto.
Qed.

(** What one round of the reset loop does to the element it finds. *)
Lemma resetDependent_run i w p e ch :
  getElementById i (document w) = Some p ->
  getNode p (document w) = Some (Elem e ch) ->
  let w' := (Binder.resetDependent i w).2 in
  log w' = log w ++ [SetInnerHTML p (selectMarkup i); SetDisabled p true]
  /\ getNode p (document w')
     = Some (Elem (withDisabled true e) (parseFragment e (selectMarkup i))).
Proof.
  intros Hp He. unfold Binder.resetDependent, bind, getDocument.
  rewrite Hp. unfold setInnerHTML, setDisabled, bind, emit, modify. simpl.
  rewrite <- app_assoc. split; [reflexivity|].
  rewrite !getNode_alterNode, He. reflexivity.
Qed.

Lemma updateUri_appends b : appends (Binder.updateUri b).
Proof.
  intros w. rewrite updateUri_run. simpl.
  destruct (forallb _ _); [|exists []; by rewrite app_nil_r].
  destruct (encodeURIComponent _); eexists; reflexivity.
Qed.

Lemma filter_appends input container : appends (Binder.filter input container).
Proof.
  apply (records_appends anyAction). unfold Binder.filter, setHidden.
  records_auto; exact I.
Qed.

Lemma deleteClick_appends answer clicked :
  appends (Binder.deleteClick answer clicked).
Proof.
  apply (records_appends anyAction). unfold Binder.deleteClick.
  records_auto; exact I.
Qed.

Lemma altLabelClick_appends clicked : appends (Binder.altLabelClick clicked).
Proof.
  apply (records_appends anyAction).
  unfold Binder.altLabelClick, appendChildAt, removeAt.
  records_auto; exact I.
Qed.

Lemma cascadeChange_records P dispatch select :
  (forall el, records P (dispatch (recalculateEvent el))) ->
  (forall p m, P (SetInnerHTML p m)) ->
  (forall p b, P (SetDisabled p b)) ->
  (forall p t, P (DispatchEvent p t)) ->
  (forall r, P (Fetch r)) ->
  (forall e, P (Uncaught e)) ->
  records P (Binder.cascadeChange dispatch select).
Proof.
  intros Hd H1 H2 H3 H4 H5.
  unfold Binder.cascadeChange, setInnerHTML.
  records_auto; auto.
  apply resetDependent_records; auto.
Qed.

Lemma dispatchEvent_appends depth regs answer ev :
  appends (Binder.dispatchEvent depth regs answer ev).
Proof.
  apply (records_appends anyAction). revert ev.
  induction depth as [|depth IH]; intros ev; simpl.
  - apply records_ret.
  - apply records_runAll. intros h. destruct h; simpl.
    + apply records_bind; [|intros; apply records_ret].
      apply appends_records, filter_appends.
    + apply appends_records, deleteClick_appends.
    + apply records_bind; [|intros; apply records_ret].
      apply appends_records, updateUri_appends.
    + apply records_bind; [|intros; apply records_ret].
      apply appends_records, altLabelClick_appends.
    + apply cascadeChange_records; auto; intros; exact I.
Qed.

End Cascade.

Section CascadeOrder.
Context `{Platform}.

Lemma forEach_resetDependent_noFetch ids :
  records noFetch (forEach Binder.resetDependent ids).
Proof.
  apply records_forEach. intros i.
  apply resetDependent_records; reflexivity.
Qed.

(** The handler is its reset loop followed by a computation that only adds
    to the record. *)
Lemma cascadeChange_after_resets depth regs answer select w :
  let w1 :=
    (forEach Binder.resetDependent (declaredResets select (document w)) w).2 in
  exists T,
    log (Binder.cascadeChange (Binder.dispatchEvent depth regs answer)
           select w).2
    = log w1 ++ T.
Proof.
  unfold Binder.cascadeChange, declaredResets.
  unfold bind at 1. unfold getDocument at 1. cbn beta iota zeta.
  unfold bind at 1.
  destruct (forEach Binder.resetDependent _ w) as [[] w1]. cbn [snd].
  match goal with
  | |- exists T, log (?rest w1).2 = _ =>
      assert (Hrest : records anyAction rest)
  end.
  { unfold setInnerHTML. records_auto; try exact I.
    apply appends_records, dispatchEvent_appends. }
  destruct (Hrest w1) as (T & HT & _). eauto.
Qed.

End CascadeOrder.

(** C8.  The record of the change handler of a cascade-bound select begins
    with the record of its reset loop, which holds no request; whatever
    else the handler does, a request included, comes after it.  The loop
    takes the declared ids in turn, and the element that an id denotes
    when its turn comes has its content replaced by the placeholder option
    and is disabled, both in that part of the record. *)
Theorem cascade_resets_precede_request `{Platform}
    (depth : nat) (regs : list Registration) (answer : bool)
    (select : Path) (w : World) :
  let resets := declaredResets select (document w) in
  let w1 := (forEach Binder.resetDependent resets w).2 in
  let w' :=
    (Binder.cascadeChange (Binder.dispatchEvent depth regs answer) select w).2
  in
  exists R T,
    log w1 = log w ++ R
    /\ log w' = log w ++ R ++ T
    /\ Forall noFetch R
    /\ forall k i,
         resets !! k = Some i ->
         let wk := (forEach Binder.resetDependent (take k resets) w).2 in
         forall p e ch,
           getElementById i (document wk) = Some p ->
           getNode p (document wk) = Some (Elem e ch) ->
           In (SetInnerHTML p (selectMarkup i)) R
           /\ In (SetDisabled p true) R
           /\ getNode p (document (Binder.resetDependent i wk).2)
              = Some (Elem (withDisabled true e)
                        (parseFragment e (selectMarkup i))).
Proof.
  intros resets w1 w'.
  destruct (forEach_resetDependent_noFetch resets w) as (R & HR & HnoFetch).
  destruct (cascadeChange_after_resets depth regs answer select w) as (T & HT).
  exists R, T. split; [exact HR|]. split.
  { unfold w'. rewrite HT. fold resets. rewrite HR. by rewrite app_assoc. }
  split; [exact HnoFetch|].
  intros k i Hk wk p e ch Hp He.
  destruct (resetDependent_run i wk p e ch Hp He) as [Hlog Hnode].
  assert (Hsplit : exists R1 R2,
    R = R1 ++ [SetInnerHTML p (selectMarkup i); SetDisabled p true] ++ R2).
  { replace (forEach Binder.resetDependent resets w)
      with (forEach Binder.resetDependent
              (take k resets ++ i :: drop (S k) resets) w) in HR
      by (by rewrite (take_drop_middle resets k i Hk)).
    rewrite forEach_app, forEach_cons in HR. fold wk in HR.
    destruct (forEach_resetDependent_noFetch (take k resets) w)
      as (R1 & HR1 & _). fold wk in HR1.
    destruct (forEach_resetDependent_noFetch (drop (S k) resets)
                (Binder.resetDependent i wk).2) as (R2 & HR2 & _).
    exists R1, R2.
    rewrite HR2, Hlog, HR1, <- !app_assoc in HR.
    by apply app_inv_head in HR. }
  destruct Hsplit as (R1 & R2 & ->).
  rewrite !in_app_iff. simpl. tauto.
Qed.

Lemma cascade_resets_precede_request_witness :
  let regs := (Binder.DOMContentLoaded (mkWorld cascadePage [])).1 in
  let w' :=
    (Binder.cascadeChange (Binder.dispatchEvent 2 regs true) [0%nat]
       (mkWorld cascadePage [])).2 in
  exists R T,
    log w' = R ++ T
    /\ Forall noFetch R
    /\ In (SetInnerHTML [1%nat] (selectMarkup (lit "schema"))) R
    /\ In (SetDisabled [1%nat] true) R.
Proof.
  intros regs w'.
  destruct (cascade_resets_precede_request 2 regs true [0%nat]
              (mkWorld cascadePage []))
    as (R & T & _ & Hlog & HnoFetch & Hresets).
  exists R, T. split; [exact Hlog|]. split; [exact HnoFetch|].
  destruct (Hresets 0%nat (lit "schema") eq_refl [1%nat]
              (withId "schema" (withDataset (data []) (element "select")))
              [optionNode true (lit "old") (lit "old")] eq_refl eq_refl)
    as (H1 & H2 & _).
  split; assumption.
Defined.

(** The run on [cascadePage]: both dependents are reset, the URI fields
    are notified, the target shows that it is loading, and only then the
    request leaves. *)
Example cascade_example :
  let regs := (Binder.DOMContentLoaded (mkWorld cascadePage [])).1 in
  let r := Binder.dispatchEvent 2 regs true (changeEvent [0%nat])
             (mkWorld cascadePage []) in
  r.1 = [CascadeSettled [1%nat] (lit "schema")]
  /\ log r.2 =
     [ SetInnerHTML [1%nat] (selectMarkup (lit "schema"));
       SetDisabled [1%nat] true;
       SetInnerHTML [2%nat] (selectMarkup (lit "table"));
       SetDisabled [2%nat] true;
       SetInnerHTML [1%nat] loadingMarkup;
       Fetch (Binder.getRequest (lit "/api/schemas/main")) ].
Proof. vm_compute. split; reflexivity. Qed.

(** C4 (amended).  When the request of a cascade-bound select rejects, or
    its response body is not JSON or not a JSON array (the status of the
    response is not looked at), the target select ends with the error
    placeholder as its only option, whatever options it held before, and
    with its [disabled] flag as it was when the request settled. *)
Theorem failed_cascade_leaves_error_placeholder `{Platform}
    (t : Path) (enables : jsstring) (r : FetchOutcome) (w : World)
    (e : Element) (stale : list Node) :
  getNode t (document w) = Some (Elem e stale) ->
  tagName e = lit "select" ->
  fetchFailed r = true ->
  let w' := (Binder.cascadeSettled t enables r w).2 in
  exists sel,
    getNode t (document w')
    = Some (Elem e [optionNode sel [] (lit "Error loading")])
    /\ document w' =
       alterNode (setChildren [optionNode sel [] (lit "Error loading")]) t
         (document w)
    /\ log w' = log w ++ [SetInnerHTML t errorMarkup]
    /\ disabledAt t (document w') = disabledAt t (document w).
Proof.
  intros He Htag Hfailed w'.
  destruct (parseFragment_error e Htag) as [sel Hparse]. exists sel.
  assert (Hrun : w' =
    mkWorld (alterNode (assignInnerHTML errorMarkup) t (document w))
      (log w ++ [SetInnerHTML t errorMarkup])).
  { unfold w'. destruct r as [|ok [|[items|s|]]]; try reflexivity.
    discriminate. }
  assert (Hnode : getNode t (document w')
    = Some (Elem e [optionNode sel [] (lit "Error loading")])).
  { rewrite Hrun. simpl. rewrite getNode_alterNode, He. simpl.
    by rewrite Hparse. }
  split; [exact Hnode|]. split; [|split].
  - rewrite Hrun. simpl. apply (alterNode_ext_at _ _ _ _ _ He).
    simpl. by rewrite Hparse.
  - by rewrite Hrun.
  - unfold disabledAt, elementAt. by rewrite Hnode, He.
Qed.

Lemma failed_cascade_leaves_error_placeholder_witness :
  let w := mkWorld staleSchemaPage [] in
  let w' := (Binder.cascadeSettled [1%nat] (lit "schema") NetworkError w).2 in
  exists sel,
    childrenAt [1%nat] (document w')
    = Some [optionNode sel [] (lit "Error loading")]
    /\ disabledAt [1%nat] (document w') = Some false.
Proof.
  intros w w'.
  destruct (failed_cascade_leaves_error_placeholder [1%nat] (lit "schema")
              NetworkError w
              (withId "schema" (withDataset (data []) (element "select")))
              [optionNode true (lit "old") (lit "old")]
              eq_refl eq_refl eq_refl)
    as (sel & Hnode & _ & _ & Hdisabled).
  exists sel. fold w' in Hnode, Hdisabled. split.
  - unfold childrenAt. by rewrite Hnode.
  - exact Hdisabled.
Defined.

(** A schema select that was enabled and is not among the declared resets
    is still enabled after the request has failed; and a response with an
    error status whose body is a JSON array is taken for a list of items. *)
Lemma failed_cascade_target_not_disabled :
  let regs := (Binder.DOMContentLoaded (mkWorld staleSchemaPage [])).1 in
  let r := Binder.dispatchEvent 2 regs true (changeEvent [0%nat])
             (mkWorld staleSchemaPage []) in
  let failed := (settle (CascadeSettled [1%nat] (lit "schema"))
                   NetworkError r.2).2 in
  let refused := (settle (CascadeSettled [1%nat] (lit "schema"))
                    (Response false (IsJson (JArray [lit "dev"]))) r.2).2 in
  r.1 = [CascadeSettled [1%nat] (lit "schema")]
  /\ childrenAt [1%nat] (document failed)
     = Some [optionNode true [] (lit "Error loading")]
  /\ disabledAt [1%nat] (document failed) = Some false
  /\ childrenAt [1%nat] (document refused)
     = Some [ optionNode true [] (lit "Select schema...");
              optionNode false (lit "dev") (lit "dev") ]
  /\ disabledAt [1%nat] (document refused) = Some false.
Proof. vm_compute. repeat split; reflexivity. Qed.

(** With requests that overlap, a late failure meets a target that the
    earlier success has enabled: on [cascadePage], whose catalog select
    does declare the schema select among its resets, two changes follow
    each other, the second request succeeds, then the first one fails. *)
Example failed_cascade_after_later_success :
  let regs := (Binder.DOMContentLoaded (mkWorld cascadePage [])).1 in
  let change := Binder.dispatchEvent 2 regs true (changeEvent [0%nat]) in
  let first := change (mkWorld cascadePage []) in
  let second := change first.2 in
  let succeeded :=
    (settle (CascadeSettled [1%nat] (lit "schema"))
       (Response true (IsJson (JArray [lit "dev"]))) second.2).2 in
  let failed :=
    (settle (CascadeSettled [1%nat] (lit "schema")) NetworkError succeeded).2
  in
  first.1 = [CascadeSettled [1%nat] (lit "schema")]
  /\ second.1 = [CascadeSettled [1%nat] (lit "schema")]
  /\ childrenAt [1%nat] (document failed)
     = Some [optionNode true [] (lit "Error loading")]
  /\ disabledAt [1%nat] (document failed) = Some false.
Proof. vm_compute. repeat split; reflexivity. Qed.

(** ** The change handler and the URI field *)

Lemma addEventListener_Forall (P : Registration -> Prop) r regs :
  P r -> Forall P regs -> Forall P (addEventListener r regs).
Proof.
  intros Hr Hregs. unfold addEventListener. case_bool_decide; [exact Hregs|].
  apply Forall_app. split; [exact Hregs | by constructor].
Qed.

Lemma foldl_Forall {A B} (P : B -> Prop) (f : list B -> A -> list B) l regs :
  (forall regs x, Forall P regs -> Forall P (f regs x)) ->
  Forall P regs -> Forall P (foldl f regs l).
Proof.
  intros Hf. revert regs. induction l as [|x l IH]; intros regs Hregs; simpl.
  - exact Hregs.
  - apply IH. by apply Hf.
Qed.

Section Registrations.
Context `{Platform}.

Lemma initFilteringEach_listens inputs regs w :
  Forall notForRecalculate regs ->
  Forall notForRecalculate (Binder.initFilteringEach inputs regs w).1.
Proof.
  revert regs w. induction inputs as [|input rest IH]; intros regs w Hregs.
  - exact Hregs.
  - simpl. unfold bind at 1. unfold getDocument at 1. cbn beta iota.
    destruct (getElementById _ (document w)) as [container|]; [|by apply IH].
    unfold bind at 1.
    destruct ((if truthy (valueAt input (document w))
               then Binder.filter input container else ret tt) w)
      as [[] w1].
    apply IH. apply addEventListener_Forall; [discriminate | exact Hregs].
Qed.

(** Nothing that [DOMContentLoaded] registers listens for the event that
    the change handler dispatches on the URI fields. *)
Lemma DOMContentLoaded_listens w :
  Forall notForRecalculate (Binder.DOMContentLoaded w).1.
Proof.
  unfold Binder.DOMContentLoaded, Binder.initFiltering.
  unfold bind at 1. unfold bind at 1. unfold getDocument at 1.
  cbn beta iota.
  pose proof (initFilteringEach_listens
                (map fst (querySelectorAll (byData "filterFor") (document w)))
                [] w (Forall_nil_2 _)) as Hfilter.
  destruct (Binder.initFilteringEach _ [] w) as [regs w1].
  simpl in Hfilter. unfold bind, getDocument, ret. simpl.
  unfold Binder.initCascadeSelects, Binder.initAltLabels,
    Binder.initUriGeneration, Binder.initDeleteButtons.
  apply foldl_Forall.
  { intros regs' x Hregs'. by apply addEventListener_Forall. }
  apply addEventListener_Forall; [discriminate|].
  apply foldl_Forall.
  { intros regs' x Hregs'. apply foldl_Forall; [|exact Hregs'].
    intros regs'' i Hregs''. destruct (getElementById i (document w1)).
    - by apply addEventListener_Forall.
    - exact Hregs''. }
  by apply addEventListener_Forall.
Qed.

Lemma listenersFor_recalculate regs el :
  Forall notForRecalculate regs ->
  listenersFor regs (recalculateEvent el) = [].
Proof.
  intros Hregs. unfold listenersFor, propagationPath. simpl.
  rewrite app_nil_r. unfold listenersAt.
  induction Hregs as [|r regs Hr Hregs IH]; [reflexivity|].
  simpl. unfold eqs at 1.
  rewrite (bool_decide_eq_false_2 _ Hr), andb_false_r. exact IH.
Qed.

(** With the listeners that the script registers, the change handler of a
    cascade-bound select never writes the value of any field. *)
Lemma cascadeChange_writes_no_value w0 depth answer select :
  records noSetValue
    (Binder.cascadeChange
       (Binder.dispatchEvent depth (Binder.DOMContentLoaded w0).1 answer)
       select).
Proof.
  apply cascadeChange_records; try (intros; reflexivity).
  intros el. destruct depth as [|depth]; simpl; [apply records_ret|].
  rewrite listenersFor_recalculate by apply DOMContentLoaded_listens.
  apply records_ret.
Qed.

End Registrations.

(** C3 (the code at a failing input).  On [uriPage] the catalog and the
    table are chosen, so that the URI composer has
    [http://example.org/main.orders] to write, and the URI field is empty.
    A change event on a cascade-bound select dispatches [recalculate] on
    the URI field, for which nothing listens, and the field stays empty:
    so for the catalog select, and so for the schema select even when the
    change event comes after an input event on it.  An input event on a
    source of the URI does compute it. *)
Theorem cascade_change_leaves_uri_stale :
  let loaded := Binder.DOMContentLoaded (mkWorld uriPage []) in
  let regs := loaded.1 in
  let b := Binder.readUriBinding uriPage [4%nat] in
  let fire ev w := (Binder.dispatchEvent 2 regs true ev w).2 in
  let catalogChanged := fire (changeEvent [1%nat]) loaded.2 in
  let schemaChanged :=
    fire (changeEvent [2%nat]) (fire (inputEvent [2%nat]) loaded.2) in
  let tableTyped := fire (inputEvent [3%nat]) loaded.2 in
  In (mkRegistration [1%nat] (lit "change") (CascadeChangeHandler [1%nat]))
    regs
  /\ In (mkRegistration [2%nat] (lit "change") (CascadeChangeHandler [2%nat]))
       regs
  /\ allNonEmpty (sourceIds b) uriPage
  /\ encodeURIComponent
       (join (separator b) (sourceValues (sourceIds b) uriPage))
     = Some (lit "main.orders")
  /\ document catalogChanged = uriPage
  /\ log catalogChanged = [DispatchEvent [4%nat] (lit "recalculate")]
  /\ document schemaChanged = uriPage
  /\ log schemaChanged = [DispatchEvent [4%nat] (lit "recalculate")]
  /\ valueAt [4%nat] uriPage = Some []
  /\ valueAt [4%nat] (document tableTyped)
     = Some (lit "http://example.org/main.orders").
Proof.
  cbv zeta. split.
  { vm_compute. do 4 right. left. reflexivity. }
  split.
  { vm_compute. do 5 right. left. reflexivity. }
  split.
  { intros i Hi. vm_compute in Hi.
    destruct Hi as [<- | [<- | []]]; vm_compute; reflexivity. }
  repeat split; vm_compute; reflexivity.
Qed.

(** ** Alternative labels *)

Lemma inits_app_singleton p i : inits (p ++ [i]) = inits p ++ [p ++ [i]].
Proof.
  induction p as [|j p IH]; simpl; [reflexivity|].
  rewrite IH, map_app. reflexivity.
Qed.

Lemma inclusiveAncestors_snoc p i :
  inclusiveAncestors (p ++ [i]) = (p ++ [i]) :: inclusiveAncestors p.
Proof.
  unfold inclusiveAncestors. rewrite inits_app_singleton.
  destruct (inits p) as [|q qs] eqn:Hq; [by destruct p|].
  simpl. by rewrite rev_app_distr.
Qed.

Lemma in_inits q p : In q (inits p) -> exists r, p = q ++ r.
Proof.
  revert q. induction p as [|i p IH]; intros q; simpl.
  - intros [<- | []]. by exists [].
  - intros [<- | Hq]; [by eexists|].
    apply in_map_iff in Hq as (q' & <- & Hq').
    destruct (IH q' Hq') as [r ->]. by exists r.
Qed.

Lemma in_inclusiveAncestors q p :
  In q (inclusiveAncestors p) -> exists r, p = q ++ r.
Proof.
  unfold inclusiveAncestors. rewrite <- in_rev. intros Hq.
  apply in_inits. destruct (inits p); [contradiction | by right].
Qed.

Lemma find_ext {A} (f g : A -> bool) l :
  (forall x, In x l -> f x = g x) -> List.find f l = List.find g l.
Proof.
  induction l as [|x l IH]; intros Hfg; simpl; [reflexivity|].
  rewrite <- (Hfg x) by (by left). destruct (f x); [reflexivity|].
  apply IH. intros y Hy. apply Hfg. by right.
Qed.

Lemma matchesAt_elementAt sel doc doc' p :
  elementAt p doc' = elementAt p doc ->
  matchesAt sel doc' p = matchesAt sel doc p.
Proof.
  unfold elementAt, matchesAt.
  destruct (getNode p doc') as [[|e' ch']|], (getNode p doc) as [[|e ch]|];
    try discriminate; try reflexivity.
  by intros [= ->].
Qed.

(** The elements on the way to an altered node stay what they were. *)
Lemma elementAt_alterNode_prefix f q r doc :
  keepsElement f ->
  elementAt q (alterNode f (q ++ r) doc) = elementAt q doc.
Proof.
  intros Hf. revert doc. induction q as [|i q IH]; intros doc.
  - unfold elementAt. simpl. destruct r as [|j r]; simpl.
    + specialize (Hf doc). unfold elementOf in Hf.
      destruct (f doc), doc; try congruence.
    + by destruct doc.
  - unfold elementAt in *. simpl. destruct doc as [|e ch]; [reflexivity|].
    simpl. rewrite list_lookup_alter_eq.
    destruct (ch !! i) as [c|]; simpl; [apply IH | reflexivity].
Qed.

Lemma closest_alterNode_prefix sel f p doc :
  keepsElement f ->
  closest sel (alterNode f p doc) p = closest sel doc p.
Proof.
  intros Hf. unfold closest. apply find_ext. intros q Hq.
  apply in_inclusiveAncestors in Hq as [r ->].
  apply matchesAt_elementAt. by apply elementAt_alterNode_prefix.
Qed.

Lemma keepsElement_appendChild c : keepsElement (appendChild c).
Proof. by intros [|e ch]. Qed.

Lemma keepsElement_setChildren f :
  keepsElement (fun n => setChildren (f (children n)) n).
Proof. by intros [|e ch]. Qed.

(** Appending a child changes no node that was there, but for the
    children of the nodes on the way. *)
Lemma getNode_appendChild c p q doc n :
  getNode q doc = Some n ->
  exists n',
    getNode q (alterNode (appendChild c) p doc) = Some n'
    /\ elementOf n' = elementOf n.
Proof.
  revert p doc. induction q as [|i q IH]; intros p doc; simpl.
  - intros [= ->]. eexists. split; [reflexivity|].
    destruct p as [|j p]; [apply keepsElement_appendChild | by destruct n].
  - destruct doc as [|e ch]; simpl; [discriminate|].
    destruct (ch !! i) as [ci|] eqn:Hci; [|discriminate]. intros Hn.
    destruct p as [|j p]; simpl.
    + rewrite lookup_app_l by (by eapply lookup_lt_Some).
      rewrite Hci. eauto.
    + destruct (decide (j = i)) as [->|Hne].
      * rewrite list_lookup_alter_eq, Hci. simpl. by apply IH.
      * rewrite list_lookup_alter_ne, Hci by done. eauto.
Qed.



Lemma find_app {A} (f : A -> bool) l1 l2 :
  List.find f (l1 ++ l2) =
  match List.find f l1 with
  | Some x => Some x
  | None => List.find f l2
  end.
Proof.
  induction l1 as [|x l1 IH]; simpl; [reflexivity|].
  destruct (f x); [reflexivity | exact IH].
Qed.

Lemma find_under (f : Node -> bool) k (l : list (Path * Node)) :
  List.find (fun x => f x.2) (map (under k) l)
  = under k <$> List.find (fun x => f x.2) l.
Proof.
  induction l as [|x l IH]; simpl; [reflexivity|].
  destruct (f x.2); [reflexivity | exact IH].
Qed.





Lemma delete_app_r {A} (l1 l2 : list A) k :
  delete (length l1 + k)%nat (l1 ++ l2) = l1 ++ delete k l2.
Proof. induction l1 as [|x l1 IH]; simpl; [reflexivity | by rewrite IH]. Qed.



Lemma repeat_snoc {A} (x : A) n : repeat x n ++ [x] = repeat x (S n).
Proof. induction n as [|n IH]; simpl; [reflexivity | by rewrite IH]. Qed.


Lemma button_not_add : byData "addAltLabel" removeFieldButton = false.
Proof. vm_compute. reflexivity. Qed.

Lemma row_not_add : byData "addAltLabel" altLabelDiv = false.
Proof. vm_compute. reflexivity. Qed.

Lemma button_is_remove : byData "removeField" removeFieldButton = true.
Proof. vm_compute. reflexivity. Qed.

Lemma button_not_row : byClass "alt-label-field" removeFieldButton = false.
Proof. vm_compute. reflexivity. Qed.

Lemma row_is_row : byClass "alt-label-field" altLabelDiv = true.
Proof. vm_compute. reflexivity. Qed.

Section AltLabels.
Context `{Platform}.

Lemma createAltLabelField_row :
  Binder.createAltLabelField = Elem altLabelDiv altLabelChildren.
Proof. unfold Binder.createAltLabelField. by rewrite parseFragment_altLabel. Qed.

(** What an add-click does. *)
Lemma altLabelClick_add w clicked addBtn container e rows :
  addsRowsTo clicked addBtn container e rows (document w) ->
  Binder.altLabelClick clicked w =
  (tt,
   mkWorld
     (alterNode (appendChild Binder.createAltLabelField) container (document w))
     (log w ++ [AppendChild container Binder.createAltLabelField])).
Proof.
  intros (_ & Hclosest & (containerId & Hid & Hcontainer) & _).
  unfold Binder.altLabelClick, bind, getDocument.
  rewrite Hclosest, Hid. simpl. by rewrite Hcontainer.
Qed.


(** A new row leaves the container where it is among the add controls. *)
Lemma outsideAddControls_appendChild container doc c :
  outsideAddControls container doc ->
  outsideAddControls container (alterNode (appendChild c) container doc).
Proof.
  unfold outsideAddControls. intros Houtside.
  rewrite closest_alterNode_prefix; [exact Houtside|].
  apply keepsElement_appendChild.
Qed.


(** What an added row holds. *)
Lemma added_row_holds container doc e rows k :
  getNode container doc = Some (Elem e rows) ->
  rows !! k = Some Binder.createAltLabelField ->
  let row := container ++ [k] in
  getNode row doc = Some (Elem altLabelDiv altLabelChildren)
  /\ getNode (row ++ [1%nat]) doc = Some (Elem altLabelInput [])
  /\ getNode (removeControl row) doc
     = Some (Elem removeFieldButton [Text (lit "Remove")]).
Proof.
  intros Hrows Hk row. rewrite createAltLabelField_row in Hk.
  assert (Hrow : getNode row doc = Some (Elem altLabelDiv altLabelChildren)).
  { unfold row. rewrite getNode_app, Hrows. simpl. by rewrite Hk. }
  split; [exact Hrow|]. unfold removeControl.
  split; rewrite getNode_app, Hrow; reflexivity.
Qed.

(** What a click on the remove control of an added row does: the row, and
    nothing else, leaves the container. *)
Lemma altLabelClick_remove w container e rows k :
  getNode container (document w) = Some (Elem e rows) ->
  rows !! k = Some Binder.createAltLabelField ->
  outsideAddControls container (document w) ->
  Binder.altLabelClick (removeControl (container ++ [k])) w =
  (tt,
   mkWorld (alterNode (setChildren (delete k rows)) container (document w))
     (log w ++ [RemoveNode (container ++ [k])])).
Proof.
  intros Hrows Hk Houtside.
  destruct (added_row_holds _ _ _ _ _ Hrows Hk) as (Hrow & _ & Hbutton).
  unfold removeControl in Hbutton.
  unfold Binder.altLabelClick, bind, getDocument, removeControl.
  assert (closest (byData "addAltLabel") (document w)
            ((container ++ [k]) ++ [3%nat]) = None) as ->.
  { unfold closest. rewrite !inclusiveAncestors_snoc. cbn [List.find].
    unfold matchesAt at 1. rewrite Hbutton. cbn [matches].
    rewrite button_not_add. unfold matchesAt at 1. rewrite Hrow.
    cbn [matches]. rewrite row_not_add. exact Houtside. }
  assert (closest (byData "removeField") (document w)
            ((container ++ [k]) ++ [3%nat])
          = Some ((container ++ [k]) ++ [3%nat])) as ->.
  { unfold closest. rewrite inclusiveAncestors_snoc. cbn [List.find].
    unfold matchesAt at 1. rewrite Hbutton. cbn [matches].
    by rewrite button_is_remove. }
  assert (closest (byClass "alt-label-field") (document w)
            ((container ++ [k]) ++ [3%nat]) = Some (container ++ [k]))
    as ->.
  { unfold closest. rewrite !inclusiveAncestors_snoc. cbn [List.find].
    unfold matchesAt at 1. rewrite Hbutton. cbn [matches].
    rewrite button_not_row. unfold matchesAt at 1. rewrite Hrow.
    cbn [matches]. by rewrite row_is_row. }
  unfold removeAt, bind, emit, modify, removeNode. simpl.
  rewrite rev_app_distr. simpl. rewrite rev_involutive.
  f_equal. f_equal. by apply (alterNode_ext_at _ _ _ _ _ Hrows).
Qed.


End AltLabels.





(** Three rows are added, the second one is removed, then the first. *)
Example alt_label_example :
  log (forEach Binder.altLabelClick
         (addThenRemove [1%nat] [0%nat] 0 3 [1%nat; 0%nat])
         (mkWorld altLabelPage [])).2
  = [ AppendChild [0%nat] Binder.createAltLabelField;
      AppendChild [0%nat] Binder.createAltLabelField;
      AppendChild [0%nat] Binder.createAltLabelField;
      RemoveNode [0%nat; 1%nat];
      RemoveNode [0%nat; 0%nat] ].
Proof. vm_compute. reflexivity. Qed.

(** * The page-specific functions

    Where the functions driven by element ids differ from the binder. *)

(** [updateUriFromSelection] writes the field on every call: with all
    three selects chosen it writes the composed URI. *)
Example updateUriFromSelection_complete :
  log (Legacy.updateUriFromSelection exampleConfig (mkWorld tablesPage [])).2
  = [SetValue [3%nat] (lit "http://example.org/main.sales.orders")].
Proof. vm_compute. reflexivity. Qed.

(** With a source field empty and no column chosen, it writes the empty
    string over the previous value, where [updateUri] writes nothing. *)
Lemma updateUriFromSelection_partial config w uriInput :
  getElementById (lit "uri") (document w) = Some uriInput ->
  truthy (valueById (lit "column") (document w)) = false ->
  truthy (valueById (lit "catalog") (document w)) = false
  \/ truthy (valueById (lit "schema") (document w)) = false
  \/ truthy (valueById (lit "table") (document w)) = false ->
  (Legacy.updateUriFromSelection config w).2
  = mkWorld (alterNode (assignValue []) uriInput (document w))
      (log w ++ [SetValue uriInput []]).
Proof.
  intros Huri Hcolumn Hpartial.
  unfold Legacy.updateUriFromSelection, bind, getDocument. rewrite Huri.
  assert (Hempty : forall v, truthy v = false -> nonEmpty (orElse v []) = false).
  { by intros [[|c s]|]. }
  rewrite (Hempty _ Hcolumn). unfold Legacy.generateUriFromTableName.
  destruct Hpartial as [Hp | [Hp | Hp]]; rewrite (Hempty _ Hp); simpl;
    rewrite ?orb_true_r; reflexivity.
Qed.

(** [loadSchemas] calls [updateUriFromSelection] itself, after the resets
    and before the request; the schema being reset, the URI field is
    emptied. *)
Example loadSchemas_updates_uri :
  let r := Legacy.loadSchemas exampleConfig (mkWorld tablesPage []) in
  r.1 = [LoadSchemasSettled [1%nat]]
  /\ List.filter (fun a => isSetValue a || isFetch a) (log r.2)
     = [ SetValue [3%nat] [];
         Fetch (Binder.getRequest (lit "/api/schemas/main")) ]
  /\ disabledAt [2%nat] (document r.2) = Some true.
Proof. vm_compute. repeat split; reflexivity. Qed.

(** When the request of [loadSchemas] fails, nothing is caught: the schema
    select keeps the loading placeholder as its only option. *)
Example loadSchemas_failure :
  let r := Legacy.loadSchemas exampleConfig (mkWorld tablesPage []) in
  let failed := (settle (LoadSchemasSettled [1%nat]) NetworkError r.2).2 in
  childrenAt [1%nat] (document failed)
  = Some [optionNode true [] (lit "Loading...")]
  /\ disabledAt [1%nat] (document failed) = Some false.
Proof. vm_compute. split; reflexivity. Qed.

(** [filterList] joins the texts of the marked elements without a space:
    the filter "bc" matches the item whose spans read "ab" and "cd". *)
Example filterList_joins_without_space :
  let w' := (Legacy.filter_tables (mkWorld twoSpansPage [])).2 in
  Legacy.itemText (Some (lit "searchable"))
    (listItem [searchableSpan "ab"; searchableSpan "cd"])
  = lit "abcd"
  /\ log w' = [SetDisplay [1%nat; 0%nat] []].
Proof. vm_compute. split; reflexivity. Qed.

(** [deleteItem], confirmed, issues its one request with the body
    [{uri}]. *)
Example deleteItem_confirmed :
  let r := Legacy.delete_table exampleConfig true (lit "u") (mkWorld tablesPage [])
  in
  r.1 = [LegacyDeleteSettled (lit "table")]
  /\ log r.2
     = [ Confirm (lit "Are you sure you want to delete this table?");
         Fetch (Legacy.deleteRequest (Some (lit "/tables/delete"))
                  {[ lit "uri" := lit "u" ]}) ].
Proof. vm_compute. split; reflexivity. Qed.

(** [addAltLabelField] appends a row whose button removes it. *)
Example addAltLabelField_then_remove :
  let added :=
    (Legacy.addAltLabelField (Some (lit "alt_labels_container"))
       (mkWorld altLabelPage [])).2 in
  let removed := (Legacy.inlineClick [0%nat; 0%nat; 1%nat] added).2 in
  childrenAt [0%nat] (document added) = Some [Legacy.newField]
  /\ childrenAt [0%nat] (document removed) = Some [].
Proof. vm_compute. split; reflexivity. Qed.

(** * Further properties *)

(** ** The percent-encoding can be read back *)

Lemma utf8_shape cp : cp < 2097152 -> utf8Shape cp (utf8 cp).
Proof.
  intros Hcp. unfold utf8.
  rewrite !N.shiftr_div_pow2.
  change 63 with (N.ones 6). rewrite !N.land_ones.
  change (2 ^ 6) with 64.
  replace (cp / 2 ^ 12) with (cp / 64 / 64)
    by (by rewrite N.Div0.div_div).
  replace (cp / 2 ^ 18) with (cp / 64 / 64 / 64)
    by (by rewrite !N.Div0.div_div).
  destruct (div_mod_64 cp) as (q1 & r1 & -> & -> & Hq1 & Hr1).
  destruct (div_mod_64 q1) as (q2 & r2 & -> & -> & Hq2 & Hr2).
  destruct (div_mod_64 q2) as (q3 & r3 & -> & -> & Hq3 & Hr3).
  destruct (cp <? 128) eqn:H1; [apply OneOctet; by apply N.ltb_lt|].
  apply N.ltb_ge in H1.
  destruct (cp <? 2048) eqn:H2.
  { apply N.ltb_lt in H2.
    rewrite (lor_disjoint 192 q1 5), (lor_disjoint 128 r1 6);
      [|simpl; lia|reflexivity|simpl; lia|reflexivity].
    apply TwoOctets; lia. }
  apply N.ltb_ge in H2.
  destruct (cp <? 65536) eqn:H3.
  { apply N.ltb_lt in H3.
    rewrite (lor_disjoint 224 q2 4), (lor_disjoint 128 r2 6),
      (lor_disjoint 128 r1 6);
      [|simpl; lia|reflexivity|simpl; lia|reflexivity|simpl; lia|reflexivity].
    apply ThreeOctets; lia. }
  apply N.ltb_ge in H3.
  rewrite (lor_disjoint 240 q3 3), (lor_disjoint 128 r3 6),
    (lor_disjoint 128 r2 6), (lor_disjoint 128 r1 6);
    [|simpl; lia|reflexivity|simpl; lia|reflexivity|simpl; lia|reflexivity
     |simpl; lia|reflexivity].
  apply FourOctets; lia.
Qed.

Lemma hexDigits_inj x y :
  (x < 16)%nat -> (y < 16)%nat ->
  nth x hexDigits 48 = nth y hexDigits 48 -> x = y.
Proof.
  intros Hx Hy.
  do 16 (destruct x as [|x]; [
    do 16 (destruct y as [|y]; [first [reflexivity | discriminate]|]); lia |]).
  lia.
Qed.

Lemma hexDigit_inj a b : hexDigit a = hexDigit b -> a mod 16 = b mod 16.
Proof.
  unfold hexDigit. change 15 with (N.ones 4). rewrite !N.land_ones.
  change (2 ^ 4) with 16. intros Heq.
  pose proof (N.mod_lt a 16 ltac:(lia)). pose proof (N.mod_lt b 16 ltac:(lia)).
  apply hexDigits_inj in Heq; lia.
Qed.

Lemma percentOctet_inj o1 o2 r1 r2 :
  o1 < 256 -> o2 < 256 ->
  percentOctet o1 ++ r1 = percentOctet o2 ++ r2 -> o1 = o2 /\ r1 = r2.
Proof.
  intros H1 H2. unfold percentOctet. simpl. intros [= Hhi Hlo Hr].
  split; [|exact Hr].
  apply hexDigit_inj in Hhi, Hlo. rewrite !N.shiftr_div_pow2 in Hhi.
  change (2 ^ 4) with 16 in Hhi.
  pose proof (N.div_mod' o1 16). pose proof (N.div_mod' o2 16).
  assert (o1 / 16 < 16) by (apply N.Div0.div_lt_upper_bound; lia).
  assert (o2 / 16 < 16) by (apply N.Div0.div_lt_upper_bound; lia).
  rewrite !N.mod_small in Hhi by assumption. lia.
Qed.

Lemma utf8Shape_octets cp os : utf8Shape cp os -> Forall (fun o => o < 256) os.
Proof. intros []; repeat constructor; lia. Qed.

Lemma percentEncode_inj cp1 cp2 r1 r2 :
  cp1 < 2097152 -> cp2 < 2097152 ->
  percentEncode cp1 ++ r1 = percentEncode cp2 ++ r2 -> cp1 = cp2 /\ r1 = r2.
Proof.
  intros H1 H2. unfold percentEncode.
  destruct (utf8_shape cp1 H1); destruct (utf8_shape cp2 H2);
    cbn [flat_map]; rewrite <- !app_assoc; intros Heq;
    repeat match goal with
           | Heq : percentOctet _ ++ _ = percentOctet _ ++ _ |- _ =>
               apply percentOctet_inj in Heq as [? Heq]; [|lia|lia]
           end;
    simpl in Heq; first [lia | split; [lia | exact Heq] | exfalso].
  all: try (destruct r1, r2; discriminate).
Qed.

Lemma percentEncode_head cp : exists rest, percentEncode cp = percent :: rest.
Proof.
  unfold percentEncode, utf8.
  destruct (cp <? 128); [|destruct (cp <? 2048); [|destruct (cp <? 65536)]];
    eexists; reflexivity.
Qed.

(** The three ways in which [encodeURIComponent] takes the head of its
    argument. *)
Lemma encode_cons c s o :
  encodeURIComponent (c :: s) = Some o ->
  (uriUnescaped c = true
   /\ exists o', encodeURIComponent s = Some o' /\ o = c :: o')
  \/ (uriUnescaped c = false /\ isLeadingSurrogate c = true
      /\ exists d s' o',
           s = d :: s' /\ isTrailingSurrogate d = true
           /\ encodeURIComponent s' = Some o'
           /\ o = percentEncode (UTF16SurrogatePairToCodePoint c d) ++ o')
  \/ (uriUnescaped c = false /\ isLeadingSurrogate c = false
      /\ isTrailingSurrogate c = false
      /\ exists o', encodeURIComponent s = Some o' /\ o = percentEncode c ++ o').
Proof.
  simpl. destruct (uriUnescaped c).
  - destruct (encodeURIComponent s) as [o'|]; [|discriminate].
    intros [= <-]. left. eauto.
  - destruct (isLeadingSurrogate c).
    + destruct s as [|d s']; [discriminate|].
      destruct (isTrailingSurrogate d) eqn:Hd; [|discriminate].
      destruct (encodeURIComponent s') as [o'|] eqn:Ho'; [|discriminate].
      intros [= <-]. right. left.
      split; [reflexivity|]. split; [reflexivity|]. by exists d, s', o'.
    + destruct (isTrailingSurrogate c); [discriminate|].
      destruct (encodeURIComponent s) as [o'|]; [|discriminate].
      intros [= <-]. right. right.
      split; [reflexivity|]. split; [reflexivity|]. split; [reflexivity|].
      by exists o'.
Qed.

Lemma encode_nonempty c s o : encodeURIComponent (c :: s) = Some o -> o <> [].
Proof.
  intros Henc.
  destruct (encode_cons _ _ _ Henc)
    as [(_ & o' & _ & ->) | [(_ & _ & d & s' & o' & _ & _ & _ & ->)
                            | (_ & _ & _ & o' & _ & ->)]];
    [discriminate| |];
    match goal with
    | |- percentEncode ?cp ++ _ <> _ =>
        destruct (percentEncode_head cp) as [rest ->]; discriminate
    end.
Qed.

Lemma surrogatePair_range c d :
  isLeadingSurrogate c = true -> isTrailingSurrogate d = true ->
  65536 <= UTF16SurrogatePairToCodePoint c d < 2097152.
Proof.
  unfold isLeadingSurrogate, isTrailingSurrogate, inRange,
    UTF16SurrogatePairToCodePoint.
  rewrite !andb_true_iff, !N.leb_le. lia.
Qed.

Lemma surrogatePair_inj c d c' d' :
  isLeadingSurrogate c = true -> isTrailingSurrogate d = true ->
  isLeadingSurrogate c' = true -> isTrailingSurrogate d' = true ->
  UTF16SurrogatePairToCodePoint c d = UTF16SurrogatePairToCodePoint c' d' ->
  c = c' /\ d = d'.
Proof.
  unfold isLeadingSurrogate, isTrailingSurrogate, inRange,
    UTF16SurrogatePairToCodePoint.
  rewrite !andb_true_iff, !N.leb_le. lia.
Qed.

(** Two strings of code units with the same encoding are the same. *)
Lemma encodeURIComponent_inj s1 :
  forall s2 o,
    codeUnits s1 -> codeUnits s2 ->
    encodeURIComponent s1 = Some o -> encodeURIComponent s2 = Some o ->
    s1 = s2.
Proof.
  induction s1 as [|c s IH1 IH2] using pair_ind; intros s2 o Hs1 Hs2 H1 H2.
  - injection H1 as <-. destruct s2 as [|c2 s2]; [reflexivity|].
    by apply encode_nonempty in H2.
  - destruct s2 as [|c2 s2].
    { injection H2 as <-. by apply encode_nonempty in H1. }
    apply Forall_cons in Hs1 as [Hc Hs]. apply Forall_cons in Hs2 as [Hc2 Hs2].
    assert (Hpercent : forall x cp t t' (r : Prop),
              uriUnescaped x = true -> x :: t = percentEncode cp ++ t' -> r).
    { intros x cp t t' r Hx Heq.
      destruct (percentEncode_head cp) as [rest Hrest]. rewrite Hrest in Heq.
      injection Heq as -> _. discriminate Hx. }
    destruct (encode_cons _ _ _ H1)
      as [(Hu & o1 & He1 & ->)
         | [(Hu & Hl & d & s' & o1 & -> & Hd & He1 & ->)
           | (Hu & Hl & Ht & o1 & He1 & ->)]];
      destruct (encode_cons _ _ _ H2)
        as [(Hu2 & o2 & He2 & Ho)
           | [(Hu2 & Hl2 & d2 & s2' & o2 & -> & Hd2 & He2 & Ho)
             | (Hu2 & Hl2 & Ht2 & o2 & He2 & Ho)]].
    + injection Ho as <- <-. f_equal. eauto.
    + eapply Hpercent; eauto.
    + eapply Hpercent; eauto.
    + symmetry in Ho. eapply Hpercent; eauto.
    + apply Forall_cons in Hs as [_ Hs]. apply Forall_cons in Hs2 as [_ Hs2].
      apply percentEncode_inj in Ho as [Hcp <-];
        [|by apply surrogatePair_range..].
      destruct (surrogatePair_inj _ _ _ _ Hl Hd Hl2 Hd2 Hcp) as [<- <-].
      do 2 f_equal. eapply (IH2 d s' eq_refl); eauto.
    + apply percentEncode_inj in Ho as [Hcp _];
        [|by apply surrogatePair_range | lia].
      pose proof (surrogatePair_range _ _ Hl Hd). lia.
    + symmetry in Ho. eapply Hpercent; eauto.
    + apply percentEncode_inj in Ho as [Hcp _];
        [|lia | by apply surrogatePair_range].
      pose proof (surrogatePair_range _ _ Hl2 Hd2). lia.
    + apply percentEncode_inj in Ho as [<- <-]; [|lia..].
      f_equal. eauto.
Qed.

(** X1.  [generate_uri_from_label] gives different labels different
    URIs: two strings of UTF-16 code units for which it returns the same
    URI are the same string.  (The percent-encoding can be read back, and
    the empty label alone gives the empty URI.) *)
Theorem generate_uri_from_label_injective
    (config : Legacy.Config) (label1 label2 uri : jsstring) :
  codeUnits label1 -> codeUnits label2 ->
  Legacy.generate_uri_from_label config label1 = Some uri ->
  Legacy.generate_uri_from_label config label2 = Some uri ->
  label1 = label2.
Proof.
  intros H1 H2. unfold Legacy.generate_uri_from_label.
  destruct label1 as [|c1 l1], label2 as [|c2 l2]; [reflexivity|..].
  - intros [= <-].
    destruct (encodeURIComponent (c2 :: l2)) as [o|] eqn:Ho; [|discriminate].
    intros [= Hu]. apply app_eq_nil in Hu as [_ ->].
    by apply encode_nonempty in Ho.
  - destruct (encodeURIComponent (c1 :: l1)) as [o|] eqn:Ho; [|discriminate].
    intros [= <-] [= Hu]. symmetry in Hu. apply app_eq_nil in Hu as [_ ->].
    by apply encode_nonempty in Ho.
  - destruct (encodeURIComponent (c1 :: l1)) as [o1|] eqn:Ho1; [|discriminate].
    destruct (encodeURIComponent (c2 :: l2)) as [o2|] eqn:Ho2; [|discriminate].
    intros [= <-] [= Hu]. apply app_inv_head in Hu as ->.
    by eapply encodeURIComponent_inj.
Qed.

Lemma generate_uri_from_label_injective_witness :
  codeUnits (lit "Net revenue")
  /\ Legacy.generate_uri_from_label exampleConfig (lit "Net revenue")
     = Some (lit "http://example.org/Net%20revenue")
  /\ lit "Net revenue" = lit "Net revenue".
Proof.
  assert (Hunits : codeUnits (lit "Net revenue")) by (repeat constructor).
  split; [exact Hunits|]. split; [reflexivity|].
  exact (generate_uri_from_label_injective exampleConfig
           (lit "Net revenue") (lit "Net revenue")
           (lit "http://example.org/Net%20revenue")
           Hunits Hunits eq_refl eq_refl).
Defined.

(** ** The page-specific URI functions *)

(** X2.  The URI of a table is the URI of the label made of its three
    names joined by full stops, and the URI of a column is the URI of the
    table whose name is the table name, a full stop and the column name:
    names that contain a full stop can therefore share a URI. *)
Theorem composed_uri_is_uri_of_dotted_name
    (config : Legacy.Config) (catalog schema table column : jsstring) :
  catalog <> [] -> schema <> [] -> table <> [] ->
  Legacy.generateUriFromTableName config catalog schema table
  = Legacy.generate_uri_from_label config
      (catalog ++ lit "." ++ schema ++ lit "." ++ table)
  /\ (column <> [] ->
      Legacy.generateUriFromColumnName config catalog schema table column
      = Legacy.generateUriFromTableName config catalog schema
          (table ++ lit "." ++ column)).
Proof.
  intros Hc Hs Ht.
  destruct catalog as [|c1 c]; [done|]. destruct schema as [|s1 s]; [done|].
  destruct table as [|t1 t]; [done|]. split; [reflexivity|].
  intros Hcol. destruct column as [|k1 k]; [done|].
  unfold Legacy.generateUriFromColumnName, Legacy.generateUriFromTableName.
  cbn [nonEmpty negb orb app]. reflexivity.
Qed.

Lemma composed_uri_is_uri_of_dotted_name_witness :
  Legacy.generateUriFromColumnName exampleConfig
    (lit "main") (lit "sales") (lit "orders") (lit "id")
  = Legacy.generateUriFromTableName exampleConfig
      (lit "main") (lit "sales") (lit "orders.id").
Proof.
  apply (composed_uri_is_uri_of_dotted_name exampleConfig
           (lit "main") (lit "sales") (lit "orders") (lit "id"));
    discriminate.
Defined.

Lemma orElse_truthy v : truthy v = true -> orElse v [] = default [] v.
Proof. by destruct v as [[|c s]|]. Qed.

Lemma orElse_falsy v : truthy v = false -> orElse v [] = [].
Proof. by destruct v as [[|c s]|]. Qed.

Lemma nonEmpty_truthy v : nonEmpty (orElse v []) = truthy v.
Proof. by destruct v as [[|c s]|]. Qed.

(** The sources of the URI on the tables page and on the columns page. *)
Lemma updateUriFromSelection_run config w :
  Legacy.updateUriFromSelection config w =
  let doc := document w in
  match getElementById (lit "uri") doc with
  | Some uriInput =>
      Legacy.writeUri uriInput
        (if nonEmpty (selectionValue "column" doc) then
           Legacy.generateUriFromColumnName config
             (selectionValue "catalog" doc) (selectionValue "schema" doc)
             (selectionValue "table" doc) (selectionValue "column" doc)
         else
           Legacy.generateUriFromTableName config
             (selectionValue "catalog" doc) (selectionValue "schema" doc)
             (selectionValue "table" doc)) w
  | None => (tt, w)
  end.
Proof.
  unfold Legacy.updateUriFromSelection, bind, getDocument, selectionValue.
  cbv zeta.
  destruct (getElementById (lit "uri") (document w)); [|reflexivity].
  by destruct (nonEmpty _).
Qed.

(** X3.  With the catalog, the schema and the table chosen,
    [updateUriFromSelection] does what the closure [updateUri] of the
    attribute-driven script does for the binding of the URI field to those
    selects (and to the column select when a column is chosen), with the
    namespace of the configuration and the full stop as separator: the
    same write, or the same error. *)
Theorem updateUriFromSelection_agrees_with_updateUri
    (config : Legacy.Config) (w : World) (uriField : Path) :
  let doc := document w in
  let sources :=
    [lit "catalog"; lit "schema"; lit "table"]
    ++ (if truthy (valueById (lit "column") doc) then [lit "column"] else [])
  in
  getElementById (lit "uri") doc = Some uriField ->
  truthy (valueById (lit "catalog") doc) = true ->
  truthy (valueById (lit "schema") doc) = true ->
  truthy (valueById (lit "table") doc) = true ->
  Legacy.updateUriFromSelection config w
  = Binder.updateUri
      (mkUriBinding uriField sources (Legacy.getUserNs config) (lit ".")) w.
Proof.
  intros doc sources Huri Hc Hs Ht. subst sources doc.
  rewrite updateUriFromSelection_run, updateUri_run. cbv zeta.
  unfold selectionValue. rewrite Huri, nonEmpty_truthy.
  unfold Legacy.generateUriFromColumnName, Legacy.generateUriFromTableName.
  rewrite !nonEmpty_truthy, Hc, Hs, Ht. cbn [negb orb].
  destruct (truthy (valueById (lit "column") (document w))) eqn:Hk;
    cbn [negb app sourceIds map forallb sourceValues separator userNs uriInput
         join];
    rewrite Hc, Hs, Ht, ?Hk; cbn [andb];
    rewrite !orElse_truthy by assumption;
    rewrite <- ?app_assoc;
    destruct (encodeURIComponent _); reflexivity.
Qed.

Lemma updateUriFromSelection_agrees_with_updateUri_witness :
  Legacy.updateUriFromSelection exampleConfig (mkWorld tablesPage [])
  = Binder.updateUri
      (mkUriBinding [3%nat] [lit "catalog"; lit "schema"; lit "table"]
         (lit "http://example.org/") (lit "."))
      (mkWorld tablesPage []).
Proof.
  exact (updateUriFromSelection_agrees_with_updateUri exampleConfig
           (mkWorld tablesPage []) [3%nat] eq_refl eq_refl eq_refl eq_refl).
Defined.

(** X4.  With the catalog, the schema or the table not chosen,
    [updateUriFromSelection] writes the empty string over the URI field,
    whatever the column, where [updateUri], for any binding that has the
    three selects among its sources, writes nothing and records nothing. *)
Theorem updateUriFromSelection_clears_where_updateUri_keeps
    (config : Legacy.Config) (w : World) (uriField : Path) (b : UriBinding) :
  let doc := document w in
  getElementById (lit "uri") doc = Some uriField ->
  truthy (valueById (lit "catalog") doc) = false
  \/ truthy (valueById (lit "schema") doc) = false
  \/ truthy (valueById (lit "table") doc) = false ->
  incl [lit "catalog"; lit "schema"; lit "table"] (sourceIds b) ->
  (Legacy.updateUriFromSelection config w).2
  = mkWorld (alterNode (assignValue []) uriField doc)
      (log w ++ [SetValue uriField []])
  /\ Binder.updateUri b w = (tt, w).
Proof.
  intros doc Huri Hpartial Hincl. subst doc. split.
  - rewrite updateUriFromSelection_run. cbv zeta. rewrite Huri.
    unfold selectionValue, Legacy.generateUriFromColumnName, Legacy.generateUriFromTableName.
    rewrite !nonEmpty_truthy.
    assert (Hany : negb (truthy (valueById (lit "catalog") (document w)))
                   || negb (truthy (valueById (lit "schema") (document w)))
                   || negb (truthy (valueById (lit "table") (document w)))
                   = true).
    { destruct Hpartial as [-> | [-> | ->]]; simpl;
        rewrite ?orb_true_r; reflexivity. }
    rewrite Hany. cbn [orb].
    by destruct (truthy (valueById (lit "column") (document w))).
  - rewrite updateUri_run.
    destruct (forallb truthy _) eqn:Hall; [|reflexivity].
    exfalso. rewrite forallb_forall in Hall.
    assert (Hsrc : forall i, In i [lit "catalog"; lit "schema"; lit "table"] ->
                             truthy (valueById i (document w)) = true).
    { intros i Hi. apply Hall, in_map_iff. exists i. split; [reflexivity|].
      by apply Hincl. }
    destruct Hpartial as [Hp | [Hp | Hp]]; rewrite Hsrc in Hp;
      first [discriminate | simpl; tauto].
Qed.

Lemma updateUriFromSelection_clears_where_updateUri_keeps_witness :
  let w := mkWorld partialPage [] in
  let b := mkUriBinding [3%nat] [lit "catalog"; lit "schema"; lit "table"]
             (lit "http://example.org/") (lit ".") in
  valueAt [3%nat] (document (Legacy.updateUriFromSelection exampleConfig w).2)
  = Some []
  /\ Binder.updateUri b w = (tt, w).
Proof.
  intros w b.
  destruct (updateUriFromSelection_clears_where_updateUri_keeps exampleConfig
              w [3%nat] b eq_refl) as [Hlegacy Hbinder].
  - right. left. reflexivity.
  - intros i Hi. exact Hi.
  - split; [by rewrite Hlegacy | exact Hbinder].
Defined.

(** X5.  On the concept form, [update_uri_from_label] does for a
    non-empty label what [updateUri] does for the binding of the URI field
    to the label alone, whatever the separator; for the empty label it
    writes the empty string, without the namespace, where [updateUri]
    leaves the field as it is. *)
Theorem update_uri_from_label_agrees_with_updateUri
    (config : Legacy.Config) (w : World) (labelInput uriField : Path)
    (label sep : jsstring) :
  let doc := document w in
  let b := mkUriBinding uriField [lit "label"] (Legacy.getUserNs config) sep in
  getElementById (lit "label") doc = Some labelInput ->
  getElementById (lit "uri") doc = Some uriField ->
  valueAt labelInput doc = Some label ->
  (label <> [] -> Legacy.update_uri_from_label config w = Binder.updateUri b w)
  /\ (label = [] ->
      (Legacy.update_uri_from_label config w).2
      = mkWorld (alterNode (assignValue []) uriField doc)
          (log w ++ [SetValue uriField []])
      /\ Binder.updateUri b w = (tt, w)).
Proof.
  intros doc b Hlabel Huri Hv. subst doc b.
  assert (Hid : valueById (lit "label") (document w) = Some label).
  { unfold valueById. rewrite Hlabel. exact Hv. }
  rewrite updateUri_run. cbn [sourceIds map forallb sourceValues join
                              separator userNs uriInput].
  rewrite Hid. unfold Legacy.update_uri_from_label, bind, getDocument.
  rewrite Hlabel, Huri, Hv. split.
  - intros Hne. destruct label as [|c l]; [done|].
    cbn [truthy andb default]. unfold Legacy.generate_uri_from_label.
    change (Datatypes.id (c :: l)) with (c :: l).
    by destruct (encodeURIComponent (c :: l)).
  - intros ->. split; reflexivity.
Qed.

Lemma update_uri_from_label_agrees_with_updateUri_witness :
  Legacy.update_uri_from_label exampleConfig
    (mkWorld (conceptPage "Net revenue") [])
  = Binder.updateUri
      (mkUriBinding [1%nat] [lit "label"] (lit "http://example.org/")
         (lit "."))
      (mkWorld (conceptPage "Net revenue") []).
Proof.
  apply (update_uri_from_label_agrees_with_updateUri exampleConfig
           (mkWorld (conceptPage "Net revenue") []) [0%nat] [1%nat]
           (lit "Net revenue") (lit ".") eq_refl eq_refl eq_refl).
  discriminate.
Defined.

(** ** Finding elements in a changing document *)

Lemma findElement_Text f s : findElement f (Text s) = None.
Proof. reflexivity. Qed.

Lemma findElement_Elem f e ch :
  findElement f (Elem e ch)
  = if f (Elem e ch) then Some [] else findAmong f 0 ch.
Proof.
  unfold findElement, findAmong. simpl. by destruct (f (Elem e ch)).
Qed.

Lemma findAmong_cons f k c ch :
  findAmong f k (c :: ch)
  = match findElement f c with
    | Some p => Some (k :: p)
    | None => findAmong f (S k) ch
    end.
Proof.
  unfold findAmong, findElement. simpl. rewrite find_app, find_under.
  by destruct (List.find _ (elementsOf c)).
Qed.

Lemma getElementById_findAmong i doc :
  getElementById i doc
  = match i with
    | [] => None
    | _ => findAmong (hasId i) 0 (children doc)
    end.
Proof. reflexivity. Qed.

(** Where a search among siblings ends. *)
Lemma findAmong_Some f ch :
  forall k q,
    findAmong f k ch = Some q ->
    exists j p c,
      q = (k + j)%nat :: p /\ ch !! j = Some c /\ findElement f c = Some p
      /\ forall j' c', (j' < j)%nat -> ch !! j' = Some c' ->
                       findElement f c' = None.
Proof.
  induction ch as [|c ch IH]; intros k q; [discriminate|].
  rewrite findAmong_cons. destruct (findElement f c) as [p|] eqn:Hc.
  - intros [= <-]. exists 0%nat, p, c. rewrite Nat.add_0_r.
    split; [reflexivity|]. split; [reflexivity|]. split; [exact Hc|]. lia.
  - intros Hq. destruct (IH _ _ Hq) as (j & p & c' & -> & Hj & Hp & Hbefore).
    exists (S j), p, c'. rewrite Nat.add_succ_r.
    split; [reflexivity|]. split; [exact Hj|]. split; [exact Hp|].
    intros [|j'] c'' Hlt; simpl; [by intros [= <-]|].
    apply Hbefore. lia.
Qed.

Lemma findAmong_found f ch :
  forall k j p c,
    ch !! j = Some c -> findElement f c = Some p ->
    (forall j' c', (j' < j)%nat -> ch !! j' = Some c' ->
                   findElement f c' = None) ->
    findAmong f k ch = Some ((k + j)%nat :: p).
Proof.
  induction ch as [|c0 ch IH]; intros k j p c Hj Hp Hbefore; [discriminate|].
  rewrite findAmong_cons. destruct j as [|j]; simpl in Hj.
  - injection Hj as ->. by rewrite Hp, Nat.add_0_r.
  - rewrite (Hbefore 0%nat c0) by (lia || reflexivity).
    rewrite Nat.add_succ_r. apply (IH (S k) j p c Hj Hp).
    intros j' c' Hlt. apply (Hbefore (S j')). lia.
Qed.

Lemma findAmong_None f ch :
  forall k,
    findAmong f k ch = None <-> Forall (fun c => findElement f c = None) ch.
Proof.
  induction ch as [|c ch IH]; intros k.
  - split; [constructor | reflexivity].
  - rewrite findAmong_cons, Forall_cons.
    destruct (findElement f c); [split; [discriminate | by intros [? _]]|].
    rewrite IH. tauto.
Qed.

(** The node that a search ends at. *)
Lemma findElement_getNode f p :
  forall n, findElement f n = Some p ->
            exists m, getNode p n = Some m /\ f m = true.
Proof.
  induction p as [|j p IH]; intros [s|e ch]; try discriminate;
    rewrite findElement_Elem; destruct (f (Elem e ch)) eqn:Hroot.
  - intros _. by exists (Elem e ch).
  - intros Hq. by destruct (findAmong_Some _ _ _ _ Hq) as (? & ? & ? & ? & _).
  - discriminate.
  - intros Hq.
    destruct (findAmong_Some _ _ _ _ Hq) as (j' & p' & c & [= <- <-] & Hj & Hp & _).
    destruct (IH c Hp) as (m & Hm & Hfm). exists m. simpl. by rewrite Hj.
Qed.

(** What an id denotes is an element with that id. *)
Lemma getElementById_element i doc p :
  getElementById i doc = Some p ->
  exists e ch, getNode p doc = Some (Elem e ch) /\ id e = i.
Proof.
  rewrite getElementById_findAmong. destruct i as [|a i]; [discriminate|].
  intros Hp.
  destruct (findAmong_Some _ _ _ _ Hp) as (j & p' & c & -> & Hj & Hc & _).
  destruct (findElement_getNode _ _ _ Hc) as (m & Hm & Hid).
  destruct m as [|e ch]; [discriminate|]. exists e, ch. simpl.
  rewrite Hj. split; [exact Hm|].
  unfold hasId, eqs in Hid. by apply bool_decide_eq_true in Hid.
Qed.

(** A search among siblings ends where it did when one of them is changed
    in a way that the search does not see. *)
Lemma findAmong_alter f (h : Node -> Node) ch k j jq p c :
  ch !! j = Some c -> findElement f c = Some p ->
  (forall j' c', (j' < j)%nat -> ch !! j' = Some c' ->
                 findElement f c' = None) ->
  (jq = j -> findElement f (h c) = Some p) ->
  (forall c', (jq < j)%nat -> ch !! jq = Some c' ->
              findElement f (h c') = None) ->
  findAmong f k (alter h jq ch) = Some ((k + j)%nat :: p).
Proof.
  intros Hj Hp Hbefore Hsame Hearlier.
  destruct (decide (jq = j)) as [->|Hne].
  - apply findAmong_found with (c := h c).
    + by rewrite list_lookup_alter_eq, Hj.
    + by apply Hsame.
    + intros j' c' Hlt. rewrite list_lookup_alter_ne by lia. by apply Hbefore.
  - apply findAmong_found with (c := c).
    + by rewrite list_lookup_alter_ne.
    + exact Hp.
    + intros j' c' Hlt. destruct (decide (jq = j')) as [->|Hne'].
      * rewrite list_lookup_alter_eq.
        destruct (ch !! j') as [c0|] eqn:Hc0; [|discriminate].
        intros [= <-]. by apply Hearlier.
      * rewrite list_lookup_alter_ne by done. by apply Hbefore.
Qed.

Lemma findElement_alterNode_None f g q :
  onElement f -> bringsNone f g ->
  forall n, findElement f n = None -> findElement f (alterNode g q n) = None.
Proof.
  intros [Htext Hch] Hg. induction q as [|j q IH]; intros n Hn; [by apply Hg|].
  destruct n as [s|e ch]; [exact Hn|]. simpl.
  rewrite findElement_Elem in *. rewrite (Hch e _ ch).
  destruct (f (Elem e ch)); [discriminate|].
  apply findAmong_None. apply findAmong_None in Hn.
  apply Forall_alter; [exact Hn|]. intros c _. apply IH.
Qed.

(** A search ends where it did when the document is changed elsewhere. *)
Lemma findElement_alterNode_apart f g :
  onElement f -> bringsNone f g ->
  forall p q n,
    findElement f n = Some p -> ~ inside p q ->
    findElement f (alterNode g q n) = Some p.
Proof.
  intros Hf Hg. pose proof Hf as [Htext Hch].
  induction p as [|j p IH]; intros q n Hn Hout;
    (destruct q as [|jq q]; [exfalso; apply Hout; by eexists|]);
    (destruct n as [s|e ch]; [discriminate|]); simpl;
    rewrite findElement_Elem in *; rewrite (Hch e _ ch);
    destruct (f (Elem e ch)); try done.
  - by destruct (findAmong_Some _ _ _ _ Hn) as (? & ? & ? & ? & _).
  - destruct (findAmong_Some _ _ _ _ Hn)
      as (j' & p' & c & [= <- <-] & Hj & Hp & Hbefore).
    apply (findAmong_alter f _ ch 0 j jq p c Hj Hp Hbefore).
    + intros ->. apply IH; [exact Hp|]. intros [r ->]. apply Hout. by exists r.
    + intros c' Hlt Hc'. apply findElement_alterNode_None; auto.
      by apply (Hbefore jq c').
Qed.

(** A search ends where it did when the element it ends at is changed in
    a way that the search does not see. *)
Lemma findElement_alterNode_self f g :
  onElement f -> (forall n, f n = true -> f (g n) = true) ->
  forall p n,
    findElement f n = Some p -> findElement f (alterNode g p n) = Some p.
Proof.
  intros [Htext Hch] Hg.
  induction p as [|j p IH]; intros n Hn;
    (destruct n as [s|e ch]; [discriminate|]); simpl;
    rewrite findElement_Elem in *.
  - destruct (f (Elem e ch)) eqn:Hroot.
    + apply Hg in Hroot. destruct (g (Elem e ch)) as [s|e' ch'].
      * by rewrite Htext in Hroot.
      * by rewrite findElement_Elem, Hroot.
    + by destruct (findAmong_Some _ _ _ _ Hn) as (? & ? & ? & ? & _).
  - rewrite (Hch e _ ch). destruct (f (Elem e ch)); [discriminate|].
    destruct (findAmong_Some _ _ _ _ Hn)
      as (j' & p' & c & [= <- <-] & Hj & Hp & Hbefore).
    apply (findAmong_alter f _ ch 0 j j p c Hj Hp Hbefore).
    + intros _. by apply IH.
    + intros c' Hlt. lia.
Qed.

Lemma hasId_onElement i : onElement (hasId i).
Proof. split; reflexivity. Qed.

Lemma getElementById_path i doc p :
  getElementById i doc = Some p ->
  exists e ch j p', doc = Elem e ch /\ p = j :: p' /\ i <> []
                    /\ findAmong (hasId i) 0 ch = Some (j :: p').
Proof.
  rewrite getElementById_findAmong. destruct i as [|a i]; [discriminate|].
  destruct doc as [s|e ch]; [discriminate|]. simpl. intros Hp.
  destruct (findAmong_Some _ _ _ _ Hp) as (j & p' & c & -> & _).
  exists e, ch, j, p'. by rewrite Hp.
Qed.

(** An id denotes the same element after that element has been changed in
    a way that keeps its id. *)
Lemma getElementById_alterNode_self i g p doc :
  (forall n, hasId i n = true -> hasId i (g n) = true) ->
  getElementById i doc = Some p ->
  getElementById i (alterNode g p doc) = Some p.
Proof.
  intros Hg Hp.
  destruct (getElementById_path _ _ _ Hp) as (e & ch & j & p' & -> & -> & Hi & Hq).
  rewrite getElementById_findAmong. destruct i as [|a i]; [done|]. simpl.
  destruct (findAmong_Some _ _ _ _ Hq)
    as (j' & p'' & c & [= <- <-] & Hj & Hc & Hbefore).
  apply (findAmong_alter _ _ ch 0 j j p' c Hj Hc Hbefore).
  - intros _. apply findElement_alterNode_self;
      auto using hasId_onElement.
  - intros c' Hlt. lia.
Qed.

(** An id denotes the same element after the document has been changed
    elsewhere, in a way that brings in no element with that id. *)
Lemma getElementById_alterNode_apart i g p q doc :
  bringsNone (hasId i) g ->
  getElementById i doc = Some p -> ~ inside p q ->
  getElementById i (alterNode g q doc) = Some p.
Proof.
  intros Hg Hp Hout.
  destruct (getElementById_path _ _ _ Hp) as (e & ch & j & p' & -> & -> & Hi & Hq).
  rewrite getElementById_findAmong. destruct i as [|a i]; [done|].
  destruct q as [|jq q]; [exfalso; apply Hout; by eexists|]. simpl.
  destruct (findAmong_Some _ _ _ _ Hq)
    as (j' & p'' & c & [= <- <-] & Hj & Hc & Hbefore).
  apply (findAmong_alter _ _ ch 0 j jq p' c Hj Hc Hbefore).
  - intros ->. apply findElement_alterNode_apart;
      auto using hasId_onElement.
    intros [r ->]. apply Hout. by exists r.
  - intros c' Hlt Hc'. apply findElement_alterNode_None;
      auto using hasId_onElement.
    by apply (Hbefore jq c').
Qed.

(** An id that denotes nothing still denotes nothing after such a change
    below the document node. *)
Lemma getElementById_alterNode_absent i g q doc :
  bringsNone (hasId i) g -> q <> [] ->
  getElementById i doc = None ->
  getElementById i (alterNode g q doc) = None.
Proof.
  intros Hg Hq. rewrite !getElementById_findAmong.
  destruct i as [|a i]; [done|]. destruct q as [|jq q]; [done|].
  destruct doc as [s|e ch]; [done|]. simpl. rewrite !findAmong_None.
  intros Hnone. apply Forall_alter; [exact Hnone|]. intros c _.
  apply findElement_alterNode_None; auto using hasId_onElement.
Qed.

(** A node is what it was after a change apart from it. *)
Lemma getNode_alterNode_apart f p :
  forall q d, apart p q -> getNode p (alterNode f q d) = getNode p d.
Proof.
  induction p as [|i p IH]; intros q d [Hpq Hqp].
  - exfalso. apply Hqp. by exists q.
  - destruct q as [|j q]; [exfalso; apply Hpq; by eexists|].
    destruct d as [s|e ch]; [reflexivity|]. simpl.
    destruct (decide (j = i)) as [->|Hne].
    + rewrite list_lookup_alter_eq. destruct (ch !! i) as [c|]; [|reflexivity].
      simpl. apply IH. split; intros [r ->]; [apply Hpq | apply Hqp];
        by exists r.
    + by rewrite list_lookup_alter_ne.
Qed.

(** ** The cascade of the tables page *)

(** Two changes in a row to the children of one element. *)
Lemma alterNode_setChildren g p doc e ch X X' :
  getNode p doc = Some (Elem e ch) ->
  g (Elem e X) = Elem e X' ->
  alterNode g p (alterNode (setChildren X) p doc)
  = alterNode (setChildren X') p doc.
Proof.
  intros Hp Hg. rewrite alterNode_alterNode.
  by apply (alterNode_ext_at _ _ _ _ _ Hp).
Qed.

Lemma find_selected_items (items : list jsstring) :
  List.find isSelectedOption (map (fun item => optionNode false item item) items)
  = None.
Proof. induction items as [|i items IH]; [reflexivity | exact IH]. Qed.

Lemma existsb_selected_items (items : list jsstring) :
  existsb isSelectedOption (map (fun item => optionNode false item item) items)
  = false.
Proof. induction items as [|i items IH]; [reflexivity | exact IH]. Qed.

(** Adding an option to a select that has been populated so far. *)
Lemma resetSelectedness_populated e items placeholder item :
  resetSelectedness
    (Elem e (populated e items placeholder ++ [optionNode false item item]))
  = Elem e (populated e (items ++ [item]) placeholder).
Proof.
  unfold populated, resetSelectedness. rewrite map_app. cbn [map app].
  fold (dropDown e). destruct (dropDown e) eqn:Hdrop; [|reflexivity].
  reflexivity.
Qed.

Lemma resetSelectedness_placeholder e placeholder :
  resetSelectedness (Elem e [optionNode false [] placeholder])
  = Elem e (populated e [] placeholder).
Proof.
  unfold populated, resetSelectedness. fold (dropDown e).
  by destruct (dropDown e).
Qed.

Lemma addOption_run p text v w :
  Legacy.addOption p text v w
  = (tt, mkWorld
           (alterNode resetSelectedness p
              (alterNode (appendChild (optionNode false v text)) p (document w)))
           (log w ++ [AppendChild p (optionNode false v text)])).
Proof. reflexivity. Qed.

Lemma populateSelect_items p e ch placeholder doc items :
  getNode p doc = Some (Elem e ch) ->
  forall done w,
    document w = alterNode (setChildren (populated e done placeholder)) p doc ->
    (forEach (fun item => Legacy.addOption p item item) items w).2
    = mkWorld
        (alterNode (setChildren (populated e (done ++ items) placeholder)) p doc)
        (log w
         ++ map (fun item => AppendChild p (optionNode false item item)) items).
Proof.
  intros Hp. induction items as [|item items IH]; intros done w Hw.
  - simpl. rewrite !app_nil_r, <- Hw. by destruct w.
  - rewrite forEach_cons, addOption_run. cbn [snd].
    rewrite (IH (done ++ [item])).
    + cbn [log map]. by rewrite <- !app_assoc.
    + cbn [document]. rewrite Hw, alterNode_alterNode.
      apply (alterNode_setChildren _ _ _ _ _ _ _ Hp).
      apply resetSelectedness_populated.
Qed.

(** What [populateSelect] does to an element and what it records. *)
Lemma populateSelect_run p items placeholder w e ch :
  getNode p (document w) = Some (Elem e ch) ->
  Legacy.populateSelect p items placeholder w
  = (tt, mkWorld
           (alterNode (setChildren (populated e items placeholder)) p
              (document w))
           (log w
            ++ ReplaceChildren p []
               :: AppendChild p (optionNode false [] placeholder)
               :: map (fun item => AppendChild p (optionNode false item item))
                    items)).
Proof.
  intros Hp. unfold Legacy.populateSelect.
  unfold bind at 1. unfold replaceChildren at 1. unfold bind at 1.
  unfold emit at 1, modify at 1. cbn [fst snd document log].
  unfold bind at 1. rewrite addOption_run. cbn [document log].
  match goal with
  | |- forEach ?f items ?w1 = _ =>
      pose proof (populateSelect_items p e ch placeholder (document w) items
                    Hp [] w1) as Hloop;
      destruct (forEach f items w1) as [[] w2]
  end.
  cbn [snd] in Hloop. rewrite Hloop.
  - cbn [log app]. by rewrite <- !app_assoc.
  - cbn [document]. rewrite alterNode_alterNode.
    apply (alterNode_setChildren _ _ _ _ _ _ _ Hp).
    apply resetSelectedness_placeholder.
Qed.

Lemma valueOf_populated e items placeholder :
  tagName e = lit "select" ->
  valueOf (Elem e (populated e items placeholder)) = Some [].
Proof.
  intros Htag. unfold valueOf, populated. rewrite Htag.
  change (eqs (lit "select") (lit "select")) with true. cbn iota.
  destruct (dropDown e); [reflexivity|].
  cbn [List.find]. change (isSelectedOption (optionNode false [] placeholder))
    with false. cbn iota.
  by rewrite find_selected_items.
Qed.

(** X6.  [populateSelect] leaves the element with the placeholder
    option, whose value is the empty string, followed by one option for
    each item, in the order of the items, each with the item as its value
    and as its text; whatever the element held before is gone.  None of
    the item options is selected, so that a select then reads the empty
    string: its earlier choice is lost even when it is among the items. *)
Theorem populateSelect_leaves_nothing_chosen
    (selectElement : Path) (items : list jsstring) (placeholder : jsstring)
    (w : World) (e : Element) (before : list Node) :
  getNode selectElement (document w) = Some (Elem e before) ->
  let w' := (Legacy.populateSelect selectElement items placeholder w).2 in
  exists chosen,
    getNode selectElement (document w')
    = Some (Elem e (optionNode chosen [] placeholder
                    :: map (fun item => optionNode false item item) items))
    /\ (tagName e = lit "select" ->
        valueAt selectElement (document w') = Some [])
    /\ log w'
       = log w
         ++ ReplaceChildren selectElement []
            :: AppendChild selectElement (optionNode false [] placeholder)
            :: map (fun item =>
                      AppendChild selectElement (optionNode false item item))
                 items.
Proof.
  intros Hp w'. subst w'. rewrite (populateSelect_run _ _ _ _ _ _ Hp).
  cbn [snd document log]. exists (dropDown e).
  assert (Hnode : getNode selectElement
                    (alterNode (setChildren (populated e items placeholder))
                       selectElement (document w))
                  = Some (Elem e (populated e items placeholder))).
  { by rewrite getNode_alterNode, Hp. }
  split; [exact Hnode|]. split; [|reflexivity].
  intros Htag. unfold valueAt. rewrite Hnode. by apply valueOf_populated.
Qed.

Lemma populateSelect_leaves_nothing_chosen_witness :
  let w' := (Legacy.populateSelect [2%nat] [lit "orders"; lit "items"]
               (lit "Select Table...") (mkWorld tablesPage [])).2 in
  valueAt [2%nat] tablesPage = Some (lit "orders")
  /\ valueAt [2%nat] (document w') = Some [].
Proof.
  intros w'. split; [reflexivity|].
  destruct (populateSelect_leaves_nothing_chosen [2%nat]
              [lit "orders"; lit "items"] (lit "Select Table...")
              (mkWorld tablesPage [])
              (withId "table" (withDataset (data []) (element "select")))
              [optionNode true (lit "orders") (lit "orders")] eq_refl)
    as (chosen & _ & Hvalue & _).
  by apply Hvalue.
Defined.

Lemma bringsNone_setChildren f X :
  onElement f -> Forall (fun c => findElement f c = None) X ->
  bringsNone f (setChildren X).
Proof.
  intros [Htext Hch] HX [s|e ch]; [done|]. simpl.
  rewrite !findElement_Elem, (Hch e X ch).
  destruct (f (Elem e ch)); [done|]. intros _. by apply findAmong_None.
Qed.

Lemma bringsNone_alterElement f h :
  (forall e ch, f (Elem (h e) ch) = f (Elem e ch)) ->
  bringsNone f (alterElement h).
Proof.
  intros Hh [s|e ch]; [done|]. simpl. by rewrite !findElement_Elem, Hh.
Qed.

Lemma optionNode_noId i chosen v label :
  i <> [] -> findElement (hasId i) (optionNode chosen v label) = None.
Proof.
  intros Hi. unfold optionNode. rewrite findElement_Elem.
  replace (hasId i (Elem _ _)) with false.
  - by destruct label.
  - symmetry. apply bool_decide_eq_false_2. by destruct i.
Qed.

Lemma populated_noId i e items placeholder :
  i <> [] ->
  Forall (fun c => findElement (hasId i) c = None)
    (populated e items placeholder).
Proof.
  intros Hi. unfold populated. constructor; [by apply optionNode_noId|].
  apply Forall_map, Forall_forall. intros item _. by apply optionNode_noId.
Qed.

Lemma populateThenDisable_run p items placeholder b w e ch :
  getNode p (document w) = Some (Elem e ch) ->
  (setDisabled p b (Legacy.populateSelect p items placeholder w).2).2
  = mkWorld (alterNode (repopulate e items placeholder b) p (document w))
      (log w ++ populateLog p items placeholder ++ [SetDisabled p b]).
Proof.
  intros Hp. rewrite (populateSelect_run _ _ _ _ _ _ Hp).
  unfold setDisabled, bind, emit, modify. cbn [fst snd document log].
  by rewrite alterNode_alterNode, <- app_assoc.
Qed.

Lemma repopulate_keeps_id i e items placeholder b n :
  hasId i n = true -> hasId i (repopulate e items placeholder b n) = true.
Proof. by destruct n. Qed.

Lemma repopulate_bringsNone i e items placeholder b :
  i <> [] -> bringsNone (hasId i) (repopulate e items placeholder b).
Proof.
  intros Hi n Hn. unfold repopulate.
  apply bringsNone_alterElement; [reflexivity|].
  apply bringsNone_setChildren;
    auto using hasId_onElement, populated_noId.
Qed.

Lemma getNode_repopulate p doc e ch items placeholder b :
  getNode p doc = Some (Elem e ch) ->
  getNode p (alterNode (repopulate e items placeholder b) p doc)
  = Some (Elem (withDisabled b e) (populated e items placeholder)).
Proof. intros Hp. by rewrite getNode_alterNode, Hp. Qed.

(** A repopulated select reads the empty string, under its id too. *)
Lemma valueById_repopulate i p doc e ch items placeholder b :
  getElementById i doc = Some p ->
  getNode p doc = Some (Elem e ch) ->
  tagName e = lit "select" ->
  valueById i (alterNode (repopulate e items placeholder b) p doc) = Some [].
Proof.
  intros Hid Hp Htag. unfold valueById.
  rewrite (getElementById_alterNode_self i _ p doc);
    [|apply repopulate_keeps_id | exact Hid].
  rewrite (getNode_repopulate _ _ _ _ _ _ _ Hp).
  apply (valueOf_populated (withDisabled b e) items placeholder Htag).
Qed.

(** An id reads the same value after a change apart from the element that
    it denotes. *)
Lemma valueById_alterNode_apart i g q doc :
  bringsNone (hasId i) g -> q <> [] ->
  (forall p, getElementById i doc = Some p -> apart p q) ->
  valueById i (alterNode g q doc) = valueById i doc.
Proof.
  intros Hg Hq Hapart. unfold valueById.
  destruct (getElementById i doc) as [p|] eqn:Hp.
  - destruct (Hapart p eq_refl) as [Hpq Hqp].
    rewrite (getElementById_alterNode_apart i g p q doc Hg Hp Hpq).
    by rewrite getNode_alterNode_apart.
  - by rewrite getElementById_alterNode_absent.
Qed.

Lemma getElementById_nonempty i doc p : getElementById i doc = Some p -> p <> [].
Proof.
  intros Hp. by destruct (getElementById_path _ _ _ Hp)
    as (? & ? & ? & ? & _ & -> & _).
Qed.

Lemma getElementById_id_nonempty i doc p :
  getElementById i doc = Some p -> i <> [].
Proof. by destruct i. Qed.

(** Without a table chosen, [updateUriFromSelection] empties the field. *)
Lemma updateUriFromSelection_no_table config w u :
  getElementById (lit "uri") (document w) = Some u ->
  selectionValue "table" (document w) = [] ->
  Legacy.updateUriFromSelection config w = setValue u [] w.
Proof.
  intros Hu Ht. rewrite updateUriFromSelection_run. cbv zeta. rewrite Hu, Ht.
  unfold Legacy.generateUriFromColumnName, Legacy.generateUriFromTableName.
  cbn [nonEmpty negb]. rewrite !orb_true_r.
  by destruct (nonEmpty (selectionValue "column" (document w))).
Qed.

Lemma apart_sym p q : apart p q -> apart q p.
Proof. intros [? ?]. by split. Qed.

(** X7.  When the tables have arrived, [loadTables] puts them into
    the table select after the placeholder, enables the select, in which
    nothing is chosen then, and calls [updateUriFromSelection], which finds
    no table chosen and empties the URI field. *)
Theorem loadTables_response_empties_uri
    (config : Legacy.Config) (w : World) (tableSelect uriField : Path)
    (e : Element) (items : list jsstring) (ok : bool) :
  let doc := document w in
  getElementById (lit "table") doc = Some tableSelect ->
  elementAt tableSelect doc = Some e ->
  tagName e = lit "select" ->
  getElementById (lit "uri") doc = Some uriField ->
  apart uriField tableSelect ->
  let w' :=
    (Legacy.loadTablesSettled config tableSelect
       (Response ok (IsJson (JArray items))) w).2 in
  (exists chosen,
     getNode tableSelect (document w')
     = Some (Elem (withDisabled false e)
               (optionNode chosen [] Legacy.SELECT_PLACEHOLDERS_table
                :: map (fun item => optionNode false item item) items)))
  /\ valueAt tableSelect (document w') = Some []
  /\ log w'
     = log w
       ++ populateLog tableSelect items Legacy.SELECT_PLACEHOLDERS_table
       ++ [SetDisabled tableSelect false; SetValue uriField []]
  /\ (forall field,
        elementAt uriField doc = Some field ->
        tagName field <> lit "select" ->
        valueAt uriField (document w') = Some []).
Proof.
  intros doc Ht He Htag Hu Hapart w'. subst doc.
  unfold elementAt in He.
  destruct (getNode tableSelect (document w)) as [[|e' ch]|] eqn:Hnode;
    try discriminate. injection He as ->.
  set (ph := Legacy.SELECT_PLACEHOLDERS_table) in *.
  set (doc2 := alterNode (repopulate e items ph false) tableSelect (document w)).
  assert (Hw' : w' = mkWorld (alterNode (assignValue []) uriField doc2)
                       (log w ++ populateLog tableSelect items ph
                        ++ [SetDisabled tableSelect false;
                            SetValue uriField []])).
  { unfold w', Legacy.loadTablesSettled. fold ph.
    unfold bind at 1. unfold bind at 1.
    pose proof (populateThenDisable_run tableSelect items ph false w e ch Hnode)
      as Hrun. fold doc2 in Hrun.
    destruct (Legacy.populateSelect tableSelect items ph w) as [[] w1].
    cbn [snd] in Hrun.
    destruct (setDisabled tableSelect false w1) as [[] w2].
    cbn [snd] in Hrun. subst w2.
    rewrite (updateUriFromSelection_no_table config _ uriField).
    - unfold setValue, bind, emit, modify. cbn [fst snd document log].
      by rewrite <- !app_assoc.
    - cbn [document]. apply getElementById_alterNode_apart;
        [by apply repopulate_bringsNone | exact Hu | apply Hapart].
    - cbn [document]. unfold selectionValue, doc2.
      by rewrite (valueById_repopulate _ _ _ _ _ _ _ _ Ht Hnode Htag). }
  assert (Hselect : getNode tableSelect (document w')
                    = Some (Elem (withDisabled false e) (populated e items ph))).
  { rewrite Hw'. cbn [document].
    rewrite getNode_alterNode_apart by (by apply apart_sym).
    by apply (getNode_repopulate _ _ _ ch). }
  split; [by exists (dropDown e)|]. split; [|split].
  - unfold valueAt. rewrite Hselect.
    apply (valueOf_populated (withDisabled false e) items ph Htag).
  - by rewrite Hw'.
  - intros field Hfield Hinput. rewrite Hw'. cbn [document].
    apply (valueAt_assignValue _ _ _ field); [|exact Hinput].
    unfold elementAt, doc2. by rewrite getNode_alterNode_apart.
Qed.

Lemma apart_siblings i j (p q : Path) : i <> j -> apart (i :: p) (j :: q).
Proof. intros Hne. split; intros [r [= ? _]]; congruence. Qed.

Lemma loadTables_response_empties_uri_witness :
  let w' :=
    (Legacy.loadTablesSettled exampleConfig [2%nat]
       (Response true (IsJson (JArray [lit "orders"; lit "items"])))
       (mkWorld tablesPage [])).2 in
  valueAt [3%nat] tablesPage = Some (lit "old")
  /\ valueAt [2%nat] (document w') = Some []
  /\ valueAt [3%nat] (document w') = Some [].
Proof.
  intros w'. split; [reflexivity|].
  destruct (loadTables_response_empties_uri exampleConfig
              (mkWorld tablesPage []) [2%nat] [3%nat]
              (withId "table" (withDataset (data []) (element "select")))
              [lit "orders"; lit "items"] true
              eq_refl eq_refl eq_refl eq_refl)
    as (_ & Hselect & _ & Huri).
  - by apply apart_siblings.
  - split; [exact Hselect|].
    apply (Huri (withId "uri" (withValue (Some (lit "old"))
                                 (withDataset (data []) (element "input")))));
      [reflexivity | discriminate].
Defined.

Lemma selectionValue_alterNode_apart (i : string) g q doc :
  bringsNone (hasId (lit i)) g -> q <> [] ->
  (forall p, getElementById (lit i) doc = Some p -> apart p q) ->
  selectionValue i (alterNode g q doc) = selectionValue i doc.
Proof.
  intros Hg Hq Hapart. unfold selectionValue.
  by rewrite valueById_alterNode_apart.
Qed.

(** X8.  When the columns have arrived, [loadColumns] puts them
    into the column select after the placeholder and enables the select,
    in which nothing is chosen then; the call of [updateUriFromSelection]
    that follows therefore finds no column, and what it writes to the URI
    field is the URI of the table, made from the catalog, the schema and
    the table as they are chosen (the empty string if one of them is not),
    or it fails with the error of the encoding. *)
Theorem loadColumns_response_writes_table_uri
    (config : Legacy.Config) (w : World) (columnSelect uriField : Path)
    (e : Element) (items : list jsstring) (ok : bool) :
  let doc := document w in
  getElementById (lit "column") doc = Some columnSelect ->
  elementAt columnSelect doc = Some e ->
  tagName e = lit "select" ->
  getElementById (lit "uri") doc = Some uriField ->
  standApart [lit "catalog"; lit "schema"; lit "table"; lit "uri"]
    columnSelect doc ->
  let w' :=
    (Legacy.loadColumnsSettled config columnSelect
       (Response ok (IsJson (JArray items))) w).2 in
  let written :=
    match
      Legacy.generateUriFromTableName config (selectionValue "catalog" doc)
        (selectionValue "schema" doc) (selectionValue "table" doc)
    with
    | Some uri => SetValue uriField uri
    | None => Uncaught (lit "URIError")
    end in
  (exists chosen,
     getNode columnSelect (document w')
     = Some (Elem (withDisabled false e)
               (optionNode chosen [] Legacy.SELECT_PLACEHOLDERS_column
                :: map (fun item => optionNode false item item) items)))
  /\ valueAt columnSelect (document w') = Some []
  /\ log w'
     = log w
       ++ populateLog columnSelect items Legacy.SELECT_PLACEHOLDERS_column
       ++ [SetDisabled columnSelect false; written].
Proof.
  intros doc Hc He Htag Hu Hapart w' written. subst doc.
  unfold elementAt in He.
  destruct (getNode columnSelect (document w)) as [[|e' ch]|] eqn:Hnode;
    try discriminate. injection He as ->.
  set (ph := Legacy.SELECT_PLACEHOLDERS_column) in *.
  set (doc2 := alterNode (repopulate e items ph false) columnSelect (document w)).
  pose proof (getElementById_nonempty _ _ _ Hc) as Hq.
  assert (Hframe : forall i : string,
            In (lit i) [lit "catalog"; lit "schema"; lit "table"] ->
            selectionValue i doc2 = selectionValue i (document w)).
  { intros i Hi. apply selectionValue_alterNode_apart; [|exact Hq|].
    - apply repopulate_bringsNone.
      destruct Hi as [<- | [<- | [<- | []]]]; discriminate.
    - intros p Hp. apply (Hapart (lit i)); [|exact Hp].
      simpl in *. tauto. }
  assert (Hu2 : getElementById (lit "uri") doc2 = Some uriField).
  { apply getElementById_alterNode_apart;
      [by apply repopulate_bringsNone | exact Hu|].
    apply (Hapart (lit "uri")); [simpl; tauto | exact Hu]. }
  assert (Hw' : exists doc3,
            w' = mkWorld doc3
                   (log w ++ populateLog columnSelect items ph
                    ++ [SetDisabled columnSelect false; written])
            /\ getNode columnSelect doc3
               = Some (Elem (withDisabled false e) (populated e items ph))).
  { unfold w', Legacy.loadColumnsSettled. fold ph.
    unfold bind at 1. unfold bind at 1.
    pose proof (populateThenDisable_run columnSelect items ph false w e ch Hnode)
      as Hrun. fold doc2 in Hrun.
    destruct (Legacy.populateSelect columnSelect items ph w) as [[] w1].
    cbn [snd] in Hrun.
    destruct (setDisabled columnSelect false w1) as [[] w2].
    cbn [snd] in Hrun. subst w2.
    rewrite updateUriFromSelection_run. cbv zeta. cbn [document].
    rewrite Hu2.
    rewrite (Hframe "catalog"%string), (Hframe "schema"%string),
      (Hframe "table"%string) by (simpl; auto).
    replace (selectionValue "column" doc2) with ([] : jsstring).
    2:{ unfold selectionValue, doc2.
        by rewrite (valueById_repopulate _ _ _ _ _ _ _ _ Hc Hnode Htag). }
    cbn [nonEmpty]. subst written.
    assert (Hcolumn : getNode columnSelect doc2
                      = Some (Elem (withDisabled false e) (populated e items ph)))
      by (by apply (getNode_repopulate _ _ _ ch)).
    destruct (Legacy.generateUriFromTableName _ _ _ _) as [uri|].
    - eexists. split.
      + unfold Legacy.writeUri, setValue, bind, emit, modify.
        cbn [fst snd document log]. by rewrite <- !app_assoc.
      + rewrite getNode_alterNode_apart; [exact Hcolumn|].
        apply apart_sym, (Hapart (lit "uri")); [simpl; tauto | exact Hu].
    - eexists. split.
      + unfold Legacy.writeUri, emit. cbn [fst snd document log].
        by rewrite <- !app_assoc.
      + exact Hcolumn. }
  destruct Hw' as (doc3 & -> & Hselect). cbn [document log].
  split; [by exists (dropDown e)|]. split; [|reflexivity].
  unfold valueAt. rewrite Hselect.
  apply (valueOf_populated (withDisabled false e) items ph Htag).
Qed.

Lemma loadColumns_response_writes_table_uri_witness :
  let w' :=
    (Legacy.loadColumnsSettled exampleConfig [3%nat]
       (Response true (IsJson (JArray [lit "id"; lit "total"])))
       (mkWorld columnsPage [])).2 in
  log w'
  = populateLog [3%nat] [lit "id"; lit "total"] (lit "Select Column...")
    ++ [ SetDisabled [3%nat] false;
         SetValue [4%nat] (lit "http://example.org/main.sales.orders") ].
Proof.
  intros w'.
  destruct (loadColumns_response_writes_table_uri exampleConfig
              (mkWorld columnsPage []) [3%nat] [4%nat]
              (withId "column" (withDataset (data []) (element "select")))
              [lit "id"; lit "total"] true
              eq_refl eq_refl eq_refl eq_refl)
    as (_ & _ & Hlog).
  - intros i p Hi Hp. simpl in Hi.
    destruct Hi as [<- | [<- | [<- | [<- | []]]]];
      injection Hp as <-; by apply apart_siblings.
  - exact Hlog.
Defined.

Lemma selectionValue_falsy (i : string) doc :
  truthy (valueById (lit i) doc) = false -> selectionValue i doc = [].
Proof. apply orElse_falsy. Qed.

(** X9.  [loadColumns], on a page that has the catalog, schema
    and table selects: without a column select it does nothing; with a
    table chosen it shows the loading placeholder in the column select and
    requests the columns, and touches nothing else; with no table chosen
    it issues no request, resets and disables the column select, and
    empties the URI field. *)
Theorem loadColumns_requests_when_table_chosen
    (config : Legacy.Config) (w : World) :
  let doc := document w in
  let r := Legacy.loadColumns config w in
  is_Some (getElementById (lit "catalog") doc) ->
  is_Some (getElementById (lit "schema") doc) ->
  is_Some (getElementById (lit "table") doc) ->
  (getElementById (lit "column") doc = None -> r = ([], w))
  /\ forall columnSelect,
       getElementById (lit "column") doc = Some columnSelect ->
       (truthy (valueById (lit "table") doc) = true ->
        r.1 = [Legacy.LoadColumnsSettled columnSelect]
        /\ log r.2
           = log w
             ++ populateLog columnSelect [] Legacy.SELECT_PLACEHOLDERS_loading
             ++ [fetchOf (lit "/api/columns/"
                          ++ Legacy.interpolate (valueById (lit "catalog") doc)
                          ++ lit "/"
                          ++ Legacy.interpolate (valueById (lit "schema") doc)
                          ++ lit "/"
                          ++ Legacy.interpolate (valueById (lit "table") doc))])
       /\ (truthy (valueById (lit "table") doc) = false ->
           forall uriField,
             getElementById (lit "uri") doc = Some uriField ->
             standApart [lit "table"; lit "uri"] columnSelect doc ->
             r.1 = []
             /\ log r.2
                = log w
                  ++ populateLog columnSelect []
                       Legacy.SELECT_PLACEHOLDERS_column
                  ++ [SetDisabled columnSelect true; SetValue uriField []]).
Proof.
  intros doc r [pc Hpc] [ps Hps] [pt Hpt]. subst doc.
  assert (Hr : r = match getElementById (lit "column") (document w) with
                   | Some c =>
                       (if truthy (valueById (lit "table") (document w)) then
                          Legacy.populateSelect c []
                            Legacy.SELECT_PLACEHOLDERS_loading
                          >> emit (fetchOf
                                     (lit "/api/columns/"
                                      ++ Legacy.interpolate
                                           (valueById (lit "catalog")
                                              (document w))
                                      ++ lit "/"
                                      ++ Legacy.interpolate
                                           (valueById (lit "schema")
                                              (document w))
                                      ++ lit "/"
                                      ++ Legacy.interpolate
                                           (valueById (lit "table")
                                              (document w))))
                          >> ret [Legacy.LoadColumnsSettled c]
                        else
                          Legacy.populateSelect c []
                            Legacy.SELECT_PLACEHOLDERS_column
                          >> setDisabled c true
                          >> Legacy.updateUriFromSelection config
                          >> ret []) w
                   | None => ([], w)
                   end).
  { unfold r, Legacy.loadColumns, bind at 1, getDocument at 1. cbv zeta.
    rewrite Hpc, Hps, Hpt.
    by destruct (getElementById (lit "column") (document w)). }
  clearbody r. subst r. split.
  { by intros ->. }
  intros c Hc. rewrite Hc.
  destruct (getElementById_element _ _ _ Hc) as (e & ch & Hnode & _).
  pose proof (getElementById_nonempty _ _ _ Hc) as Hq.
  split; intros Htable; rewrite Htable.
  - unfold bind. rewrite (populateSelect_run _ _ _ _ _ _ Hnode).
    split; [reflexivity|]. unfold emit, ret. cbn [fst snd document log].
    by rewrite <- !app_assoc.
  - intros u Hu Hapart.
    set (ph := Legacy.SELECT_PLACEHOLDERS_column).
    unfold bind.
    pose proof (populateThenDisable_run c [] ph true w e ch Hnode) as Hrun.
    destruct (Legacy.populateSelect c [] ph w) as [[] w1]. cbn [snd] in Hrun.
    destruct (setDisabled c true w1) as [[] w2]. cbn [snd] in Hrun. subst w2.
    rewrite (updateUriFromSelection_no_table config _ u).
    + split; [reflexivity|].
      unfold setValue, bind, emit, modify, ret. cbn [fst snd document log].
      by rewrite <- !app_assoc.
    + cbn [document]. apply getElementById_alterNode_apart;
        [by apply repopulate_bringsNone | exact Hu|].
      apply (Hapart (lit "uri")); [simpl; tauto | exact Hu].
    + cbn [document].
      rewrite selectionValue_alterNode_apart;
        [by apply selectionValue_falsy | by apply repopulate_bringsNone
        | exact Hq|].
      intros p Hp. apply (Hapart (lit "table")); [simpl; tauto | exact Hp].
Qed.

Lemma loadColumns_requests_when_table_chosen_witness :
  let r := Legacy.loadColumns exampleConfig (mkWorld columnsPage []) in
  r.1 = [Legacy.LoadColumnsSettled [3%nat]]
  /\ log r.2
     = populateLog [3%nat] [] (lit "Loading...")
       ++ [fetchOf (lit "/api/columns/main/sales/orders")].
Proof.
  destruct (loadColumns_requests_when_table_chosen exampleConfig
              (mkWorld columnsPage []))
    as [_ Hcolumn]; [by eexists..|].
  destruct (Hcolumn [3%nat] eq_refl) as [Hrequest _].
  exact (Hrequest eq_refl).
Defined.

(** The reset of the column select, on pages with and without one. *)
Lemma optionalReset_run (p : option Path) placeholder w :
  (forall c, p = Some c -> exists e ch, getNode c (document w) = Some (Elem e ch)) ->
  (match p with
   | Some c =>
       Legacy.populateSelect c [] placeholder >> setDisabled c true
   | None => ret tt
   end w).2
  = mkWorld (resetAt p placeholder (document w))
      (log w ++ resetLog p placeholder).
Proof.
  intros Hp. destruct p as [c|]; cbn [resetAt resetLog].
  - destruct (Hp c eq_refl) as (e & ch & Hnode). rewrite Hnode.
    unfold bind.
    pose proof (populateThenDisable_run c [] placeholder true w e ch Hnode)
      as Hrun.
    destruct (Legacy.populateSelect c [] placeholder w) as [[] w1].
    exact Hrun.
  - rewrite app_nil_r. by destruct w.
Qed.

Lemma resetAt_getElementById p placeholder doc i q :
  getElementById i doc = Some q -> outsideOf q p ->
  getElementById i (resetAt p placeholder doc) = Some q.
Proof.
  intros Hq Hout. destruct p as [c|]; [|exact Hq]. simpl.
  destruct (getNode c doc) as [[|e ch]|]; try exact Hq.
  apply getElementById_alterNode_apart; [|exact Hq | by apply Hout].
  apply repopulate_bringsNone. by eapply getElementById_id_nonempty.
Qed.

Lemma resetAt_getNode p placeholder doc q :
  apartFrom q p -> getNode q (resetAt p placeholder doc) = getNode q doc.
Proof.
  intros Hout. destruct p as [c|]; [|reflexivity]. simpl.
  destruct (getNode c doc) as [[|e ch]|]; try reflexivity.
  apply getNode_alterNode_apart. by apply Hout.
Qed.

Lemma apartFrom_outsideOf q p : apartFrom q p -> outsideOf q p.
Proof. intros Hq c Hc. by destruct (Hq c Hc). Qed.

Lemma optionalReset_element i doc :
  forall c, getElementById i doc = Some c ->
            exists e ch, getNode c doc = Some (Elem e ch).
Proof.
  intros c Hc. destruct (getElementById_element _ _ _ Hc) as (e & ch & H & _).
  eauto.
Qed.

(** X10.  [loadTables], on a page with the catalog, schema and
    table selects, first resets and disables the column select if the
    page has one.  With a schema chosen it then shows the loading
    placeholder in the table select and requests the tables, and writes
    nothing to the URI field; with no schema chosen it issues no request,
    resets and disables the table select, and empties the URI field. *)
Theorem loadTables_requests_when_schema_chosen
    (config : Legacy.Config) (w : World) (tableSelect : Path) :
  let doc := document w in
  let column := getElementById (lit "column") doc in
  let r := Legacy.loadTables config w in
  is_Some (getElementById (lit "catalog") doc) ->
  is_Some (getElementById (lit "schema") doc) ->
  getElementById (lit "table") doc = Some tableSelect ->
  apartFrom tableSelect column ->
  (truthy (valueById (lit "schema") doc) = true ->
   r.1 = [Legacy.LoadTablesSettled tableSelect]
   /\ log r.2
      = log w
        ++ resetLog column Legacy.SELECT_PLACEHOLDERS_column
        ++ populateLog tableSelect [] Legacy.SELECT_PLACEHOLDERS_loading
        ++ [fetchOf (lit "/api/tables/"
                     ++ Legacy.interpolate (valueById (lit "catalog") doc)
                     ++ lit "/"
                     ++ Legacy.interpolate (valueById (lit "schema") doc))])
  /\ (truthy (valueById (lit "schema") doc) = false ->
      forall e uriField,
        elementAt tableSelect doc = Some e ->
        tagName e = lit "select" ->
        getElementById (lit "uri") doc = Some uriField ->
        ~ inside uriField tableSelect ->
        outsideOf uriField column ->
        r.1 = []
        /\ log r.2
           = log w
             ++ resetLog column Legacy.SELECT_PLACEHOLDERS_column
             ++ populateLog tableSelect [] Legacy.SELECT_PLACEHOLDERS_table
             ++ [SetDisabled tableSelect true; SetValue uriField []]).
Proof.
  intros doc column r [pc Hpc] [ps Hps] Ht Hapart. subst doc.
  set (phc := Legacy.SELECT_PLACEHOLDERS_column).
  set (doc1 := resetAt column phc (document w)).
  set (w1 := mkWorld doc1 (log w ++ resetLog column phc)).
  assert (Hr : r = (if truthy (valueById (lit "schema") (document w)) then
                      Legacy.populateSelect tableSelect []
                        Legacy.SELECT_PLACEHOLDERS_loading
                      >> emit (fetchOf
                                 (lit "/api/tables/"
                                  ++ Legacy.interpolate
                                       (valueById (lit "catalog") (document w))
                                  ++ lit "/"
                                  ++ Legacy.interpolate
                                       (valueById (lit "schema") (document w))))
                      >> ret [Legacy.LoadTablesSettled tableSelect]
                    else
                      Legacy.populateSelect tableSelect []
                        Legacy.SELECT_PLACEHOLDERS_table
                      >> setDisabled tableSelect true
                      >> Legacy.updateUriFromSelection config
                      >> ret []) w1).
  { unfold r, Legacy.loadTables, bind at 1, getDocument at 1. cbv zeta.
    rewrite Hpc, Hps, Ht. unfold bind at 1. fold phc.
    pose proof (optionalReset_run column phc w
                  (optionalReset_element _ _)) as Hreset.
    fold doc1 w1 in Hreset. unfold column in Hreset at 1. revert Hreset.
    match goal with
    | |- context [let (_, _) := ?x in _] => destruct x as [[] w1']
    end.
    cbn [snd]. by intros ->. }
  clearbody r. subst r.
  destruct (getElementById_element _ _ _ Ht) as (e & ch & Hnode & _).
  assert (Hnode1 : getNode tableSelect (document w1) = Some (Elem e ch)).
  { cbn [w1 document]. unfold doc1. by rewrite resetAt_getNode. }
  split; intros Hschema; rewrite Hschema.
  - unfold bind. rewrite (populateSelect_run _ _ _ _ _ _ Hnode1).
    split; [reflexivity|]. unfold emit, ret. cbn [fst snd document log w1].
    by rewrite <- !app_assoc.
  - intros e' u He Htag Hu Hut Huc.
    unfold elementAt in He. rewrite Hnode in He. injection He as <-.
    set (ph := Legacy.SELECT_PLACEHOLDERS_table). unfold bind.
    pose proof (populateThenDisable_run tableSelect [] ph true w1 e ch Hnode1)
      as Hrun.
    destruct (Legacy.populateSelect tableSelect [] ph w1) as [[] w2].
    cbn [snd] in Hrun.
    destruct (setDisabled tableSelect true w2) as [[] w3].
    cbn [snd] in Hrun. subst w3.
    assert (Ht1 : getElementById (lit "table") doc1 = Some tableSelect).
    { apply resetAt_getElementById; [exact Ht|].
      by apply apartFrom_outsideOf. }
    rewrite (updateUriFromSelection_no_table config _ u).
    + split; [reflexivity|].
      unfold setValue, bind, emit, modify, ret.
      cbn [fst snd document log w1]. by rewrite <- !app_assoc.
    + cbn [document w1]. apply getElementById_alterNode_apart;
        [by apply repopulate_bringsNone | | exact Hut].
      by apply resetAt_getElementById.
    + cbn [document w1]. unfold selectionValue.
      by rewrite (valueById_repopulate _ _ _ _ _ _ _ _ Ht1 Hnode1 Htag).
Qed.

Lemma loadTables_requests_when_schema_chosen_witness :
  let r := Legacy.loadTables exampleConfig (mkWorld columnsPage []) in
  r.1 = [Legacy.LoadTablesSettled [2%nat]]
  /\ log r.2
     = populateLog [3%nat] [] (lit "Select Column...")
       ++ SetDisabled [3%nat] true
       :: populateLog [2%nat] [] (lit "Loading...")
       ++ [fetchOf (lit "/api/tables/main/sales")].
Proof.
  destruct (loadTables_requests_when_schema_chosen exampleConfig
              (mkWorld columnsPage []) [2%nat])
    as [Hrequest _]; [by eexists | by eexists | reflexivity | |].
  - intros c [= <-]. by apply apart_siblings.
  - exact (Hrequest eq_refl).
Defined.

Lemma populated_bringsNone i e items placeholder :
  i <> [] -> bringsNone (hasId i) (setChildren (populated e items placeholder)).
Proof.
  intros Hi. apply bringsNone_setChildren;
    auto using hasId_onElement, populated_noId.
Qed.

Lemma resetAt_valueById p placeholder doc i :
  (forall c, p = Some c -> c <> []) ->
  (forall q, getElementById i doc = Some q -> apartFrom q p) ->
  valueById i (resetAt p placeholder doc) = valueById i doc.
Proof.
  intros Hne Hq. destruct p as [c|]; [|reflexivity]. simpl.
  destruct (getNode c doc) as [[|e ch]|] eqn:Hc; try reflexivity.
  destruct i as [|a i]; [reflexivity|].
  apply valueById_alterNode_apart.
  - by apply repopulate_bringsNone.
  - by apply Hne.
  - intros q Hi. by apply (Hq q Hi c).
Qed.

Lemma bind_then {A B} (m : M A) (k : M B) w : (m >> k) w = k (m w).2.
Proof. unfold bind. by destruct (m w). Qed.

(** X11.  [loadSchemas], on a page whose catalog, schema and
    table selects and URI field do not lie inside one another, shows the
    loading placeholder in the schema select, resets and disables the
    table select and, if the page has one, the column select, and empties
    the URI field, in this order and whatever was chosen.  Only then, with
    a catalog chosen, does it request the schemas; with none it issues no
    request, and resets and disables the schema select. *)
Theorem loadSchemas_empties_uri_before_request
    (config : Legacy.Config) (w : World)
    (schemaSelect tableSelect uriField : Path) (table : Element) :
  let doc := document w in
  let column := getElementById (lit "column") doc in
  let catalog := valueById (lit "catalog") doc in
  let r := Legacy.loadSchemas config w in
  let resets :=
    populateLog schemaSelect [] Legacy.SELECT_PLACEHOLDERS_loading
    ++ populateLog tableSelect [] Legacy.SELECT_PLACEHOLDERS_table
    ++ [SetDisabled tableSelect true]
    ++ resetLog column Legacy.SELECT_PLACEHOLDERS_column
    ++ [SetValue uriField []] in
  is_Some (getElementById (lit "catalog") doc) ->
  getElementById (lit "schema") doc = Some schemaSelect ->
  getElementById (lit "table") doc = Some tableSelect ->
  elementAt tableSelect doc = Some table ->
  tagName table = lit "select" ->
  getElementById (lit "uri") doc = Some uriField ->
  apart tableSelect schemaSelect ->
  apart uriField schemaSelect ->
  apart uriField tableSelect ->
  apartFrom schemaSelect column ->
  apartFrom tableSelect column ->
  apartFrom uriField column ->
  (truthy catalog = true ->
   r.1 = [LoadSchemasSettled schemaSelect]
   /\ log r.2
      = log w ++ resets ++ [fetchOf (lit "/api/schemas/" ++ default [] catalog)])
  /\ (truthy catalog = false ->
      r.1 = []
      /\ log r.2
         = log w ++ resets
           ++ populateLog schemaSelect [] Legacy.SELECT_PLACEHOLDERS_schema
           ++ [SetDisabled schemaSelect true]).
Proof.
  intros doc column catalog r resets [pc Hpc] Hs Ht He Htag Hu
    Hts Hus Hut Hsc Htc Huc.
  subst doc.
  destruct (getElementById_element _ _ _ Hs) as (es & chs & Hnode_s & _).
  unfold elementAt in He.
  destruct (getNode tableSelect (document w)) as [[|et cht]|] eqn:Hnode_t;
    try discriminate. injection He as ->.
  set (phl := Legacy.SELECT_PLACEHOLDERS_loading) in *.
  set (pht := Legacy.SELECT_PLACEHOLDERS_table) in *.
  set (phc := Legacy.SELECT_PLACEHOLDERS_column) in *.
  set (doc1 := alterNode (setChildren (populated es [] phl)) schemaSelect
                 (document w)).
  set (w1 := mkWorld doc1 (log w ++ populateLog schemaSelect [] phl)).
  set (doc2 := alterNode (repopulate table [] pht true) tableSelect doc1).
  set (w2 := mkWorld doc2
               (log w1 ++ populateLog tableSelect [] pht
                ++ [SetDisabled tableSelect true])).
  set (doc3 := resetAt column phc doc2).
  set (w3 := mkWorld doc3 (log w2 ++ resetLog column phc)).
  set (w4 := (setValue uriField [] w3).2).
  assert (H1 : Legacy.populateSelect schemaSelect [] phl w = (tt, w1))
    by apply (populateSelect_run _ _ _ _ _ _ Hnode_s).
  assert (Hnode_t1 : getNode tableSelect (document w1) = Some (Elem table cht)).
  { cbn [w1 document]. unfold doc1. by rewrite getNode_alterNode_apart. }
  assert (H2 : (setDisabled tableSelect true
                  (Legacy.populateSelect tableSelect [] pht w1).2).2 = w2)
    by apply (populateThenDisable_run _ _ _ _ _ _ _ Hnode_t1).
  assert (H3 : (match column with
                | Some c =>
                    Legacy.populateSelect c [] phc >> setDisabled c true
                | None => ret tt
                end w2).2 = w3).
  { apply optionalReset_run. intros c Hc.
    destruct (optionalReset_element _ _ c Hc) as (ec & chc & Hnode_c).
    exists ec, chc. cbn [w2 document]. unfold doc2, doc1.
    rewrite !getNode_alterNode_apart; [exact Hnode_c | |];
      apply apart_sym; [by apply Hsc | by apply Htc]. }
  assert (Ht1 : getElementById (lit "table") doc1 = Some tableSelect).
  { apply getElementById_alterNode_apart;
      [by apply populated_bringsNone | exact Ht | apply Hts]. }
  assert (Ht2 : getElementById (lit "table") doc2 = Some tableSelect).
  { apply getElementById_alterNode_self; [|exact Ht1].
    apply repopulate_keeps_id. }
  assert (Hu3 : getElementById (lit "uri") doc3 = Some uriField).
  { apply resetAt_getElementById; [|by apply apartFrom_outsideOf].
    apply getElementById_alterNode_apart;
      [by apply repopulate_bringsNone | | apply Hut].
    apply getElementById_alterNode_apart;
      [by apply populated_bringsNone | exact Hu | apply Hus]. }
  assert (H4 : Legacy.updateUriFromSelection config w3 = setValue uriField [] w3).
  { apply updateUriFromSelection_no_table; [exact Hu3|].
    cbn [w3 document]. unfold selectionValue, doc3.
    rewrite resetAt_valueById.
    - unfold doc2.
      by rewrite (valueById_repopulate _ _ _ _ _ _ _ _ Ht1 Hnode_t1 Htag).
    - intros c Hc. by eapply getElementById_nonempty.
    - intros q Hq. rewrite Ht2 in Hq. by injection Hq as <-. }
  assert (Hlog4 : log w4 = log w ++ resets).
  { unfold w4, setValue, bind, emit, modify, resets.
    cbn [fst snd log w3 w2 w1]. by rewrite <- !app_assoc. }
  assert (Hr : r = (if truthy catalog then
                      emit (fetchOf (lit "/api/schemas/" ++ default [] catalog))
                      >> ret [LoadSchemasSettled schemaSelect]
                    else
                      Legacy.populateSelect schemaSelect []
                        Legacy.SELECT_PLACEHOLDERS_schema
                      >> setDisabled schemaSelect true
                      >> ret []) w4).
  { unfold r, Legacy.loadSchemas, bind at 1, getDocument at 1. cbv zeta.
    rewrite Hpc, Hs, Ht. fold phl pht phc column catalog.
    rewrite bind_then, H1. cbn [snd].
    rewrite bind_then, bind_then, H2.
    rewrite bind_then, H3.
    by rewrite bind_then, H4. }
  clearbody r. subst r.
  split; intros Hcatalog; rewrite Hcatalog.
  - unfold bind, emit, ret. cbn [fst snd log]. rewrite Hlog4.
    split; [reflexivity | by rewrite <- !app_assoc].
  - assert (Hnode_s4 : exists e ch,
              getNode schemaSelect (document w4) = Some (Elem e ch)).
    { exists es, (populated es [] phl).
      unfold w4, setValue, bind, emit, modify.
      cbn [fst snd document w3].
      rewrite getNode_alterNode_apart by (by apply apart_sym).
      unfold doc3. rewrite resetAt_getNode by exact Hsc.
      unfold doc2. rewrite getNode_alterNode_apart by (by apply apart_sym).
      unfold doc1. by rewrite getNode_alterNode, Hnode_s. }
    destruct Hnode_s4 as (e4 & ch4 & Hnode_s4).
    rewrite !bind_then.
    rewrite (populateThenDisable_run _ _ _ _ _ _ _ Hnode_s4).
    unfold ret. cbn [fst snd log]. rewrite Hlog4.
    split; [reflexivity | by rewrite <- !app_assoc].
Qed.

Lemma loadSchemas_empties_uri_before_request_witness :
  let r := Legacy.loadSchemas exampleConfig (mkWorld tablesPage []) in
  r.1 = [LoadSchemasSettled [1%nat]]
  /\ log r.2
     = populateLog [1%nat] [] (lit "Loading...")
       ++ populateLog [2%nat] [] (lit "Select Table...")
       ++ [ SetDisabled [2%nat] true; SetValue [3%nat] [];
            fetchOf (lit "/api/schemas/main") ].
Proof.
  destruct (loadSchemas_empties_uri_before_request exampleConfig
              (mkWorld tablesPage []) [1%nat] [2%nat] [3%nat]
              (withId "table" (withDataset (data []) (element "select"))))
    as [Hrequest _];
    [by eexists | reflexivity | reflexivity | reflexivity | reflexivity
    | reflexivity | by apply apart_siblings | by apply apart_siblings
    | by apply apart_siblings | discriminate | discriminate | discriminate |].
  exact (Hrequest eq_refl).
Defined.

(** ** The listeners of the attribute-driven script *)

Section Consent.
Context `{Platform}.

Lemma filter_records P input container :
  (forall p b, P (SetHidden p b)) -> (forall e, P (Uncaught e)) ->
  records P (Binder.filter input container).
Proof.
  intros H1 H2. unfold Binder.filter, setHidden. records_auto; auto.
Qed.

Lemma updateUri_records P b :
  (forall p v, P (SetValue p v)) -> (forall e, P (Uncaught e)) ->
  records P (Binder.updateUri b).
Proof.
  intros H1 H2. unfold Binder.updateUri, setValue. records_auto; auto.
Qed.

Lemma altLabelClick_records P clicked :
  (forall p c, P (AppendChild p c)) -> (forall p, P (RemoveNode p)) ->
  records P (Binder.altLabelClick clicked).
Proof.
  intros H1 H2. unfold Binder.altLabelClick, appendChildAt, removeAt.
  records_auto; auto.
Qed.

Lemma deleteClick_declined_records P clicked :
  (forall m, P (Confirm m)) -> records P (Binder.deleteClick false clicked).
Proof.
  intros H1. unfold Binder.deleteClick. records_auto; auto.
Qed.

Lemma cascadeChange_records_get P dispatch select :
  (forall el, records P (dispatch (recalculateEvent el))) ->
  (forall p m, P (SetInnerHTML p m)) ->
  (forall p b, P (SetDisabled p b)) ->
  (forall p t, P (DispatchEvent p t)) ->
  (forall u, P (Fetch (Binder.getRequest u))) ->
  (forall e, P (Uncaught e)) ->
  records P (Binder.cascadeChange dispatch select).
Proof.
  intros Hd H1 H2 H3 H4 H5.
  unfold Binder.cascadeChange, setInnerHTML.
  records_auto; auto.
  apply resetDependent_records; auto.
Qed.

End Consent.

(** X12.  Whatever event is delivered, to whatever listeners of the
    script, at whatever depth of nested dispatch: as long as the user
    declines the confirmation dialogs, every request that is issued is a
    GET.  No DELETE leaves without the user's consent. *)
Theorem no_delete_without_consent `{Platform}
    (depth : nat) (regs : list Registration) (ev : Event) (w : World) :
  exists actions,
    log (Binder.dispatchEvent depth regs false ev w).2 = log w ++ actions
    /\ Forall noRequestButGet actions.
Proof.
  revert w. change (records noRequestButGet
                      (Binder.dispatchEvent depth regs false ev)).
  revert ev. induction depth as [|depth IH]; intros ev; simpl.
  - apply records_ret.
  - apply records_runAll. intros h. destruct h; simpl.
    + apply records_bind; [|intros; apply records_ret].
      apply filter_records; by intros.
    + apply deleteClick_declined_records. by intros.
    + apply records_bind; [|intros; apply records_ret].
      apply updateUri_records; by intros.
    + apply records_bind; [|intros; apply records_ret].
      apply altLabelClick_records; by intros.
    + apply cascadeChange_records_get; auto; try by intros.
      by intros u r [= <-].
Qed.

Lemma filter_filter_and {A} (f g : A -> bool) l :
  List.filter (fun x => f x && g x) l = List.filter f (List.filter g l).
Proof.
  induction l as [|x l IH]; simpl; [reflexivity|].
  destruct (g x); simpl; rewrite ?andb_true_r, ?andb_false_r.
  - destruct (f x); by rewrite IH.
  - exact IH.
Qed.

Lemma listenersAt_listeningFor regs type p :
  listenersAt regs type p
  = map handler
      (List.filter (fun r => bool_decide (listensOn r = p))
         (listeningFor type regs)).
Proof. unfold listenersAt, listeningFor. by rewrite filter_filter_and. Qed.

Lemma listeningFor_app type l1 l2 :
  listeningFor type (l1 ++ l2) = listeningFor type l1 ++ listeningFor type l2.
Proof. apply List.filter_app. Qed.

Lemma listeningFor_In type r regs :
  In r (listeningFor type regs) <-> In r regs /\ listensFor r = type.
Proof.
  unfold listeningFor. rewrite filter_In. unfold eqs.
  by rewrite bool_decide_eq_true.
Qed.

Lemma listeningFor_other type r regs :
  listensFor r <> type ->
  listeningFor type (addEventListener r regs) = listeningFor type regs.
Proof.
  intros Hr. unfold addEventListener. case_bool_decide; [reflexivity|].
  rewrite listeningFor_app. simpl. unfold eqs.
  by rewrite bool_decide_eq_false_2, app_nil_r.
Qed.

Lemma listeningFor_new type r regs :
  listensFor r = type -> ~ In r (listeningFor type regs) ->
  listeningFor type (addEventListener r regs) = listeningFor type regs ++ [r].
Proof.
  intros Hr Hnew. unfold addEventListener. case_bool_decide as Hin.
  - exfalso. apply Hnew, listeningFor_In. split; [|exact Hr].
    by apply list_elem_of_In.
  - rewrite listeningFor_app. simpl. unfold eqs.
    by rewrite bool_decide_eq_true_2.
Qed.

Lemma listeningFor_foldl {A} type (f : list Registration -> A -> list Registration) l :
  (forall regs x, listeningFor type (f regs x) = listeningFor type regs) ->
  forall regs, listeningFor type (foldl f regs l) = listeningFor type regs.
Proof.
  intros Hf. induction l as [|x l IH]; intros regs; simpl; [reflexivity|].
  by rewrite IH, Hf.
Qed.

Section Clicks.
Context `{Platform}.

Lemma initFilteringEach_clicks inputs :
  forall regs w,
    listeningFor (lit "click") (Binder.initFilteringEach inputs regs w).1
    = listeningFor (lit "click") regs.
Proof.
  induction inputs as [|input rest IH]; intros regs w; [reflexivity|].
  simpl. unfold bind at 1. unfold getDocument at 1. cbn beta iota.
  destruct (getElementById _ (document w)) as [container|]; [|apply IH].
  unfold bind at 1.
  destruct ((if truthy (valueAt input (document w))
             then Binder.filter input container else ret tt) w) as [[] w1].
  rewrite IH. by apply listeningFor_other.
Qed.

(** Of all that [DOMContentLoaded] registers, two listeners are for
    clicks: the one of [initDeleteButtons], then the one of
    [initAltLabels], both on the document. *)
Lemma DOMContentLoaded_clicks w :
  listeningFor (lit "click") (Binder.DOMContentLoaded w).1
  = [deleteListener; altLabelListener].
Proof.
  unfold Binder.DOMContentLoaded, Binder.initFiltering.
  unfold bind at 1. unfold bind at 1. unfold getDocument at 1.
  cbn beta iota.
  pose proof (initFilteringEach_clicks
                (map fst (querySelectorAll (byData "filterFor") (document w)))
                [] w) as Hfilter.
  destruct (Binder.initFilteringEach _ [] w) as [regs w1].
  cbn [fst] in Hfilter. change (listeningFor (lit "click") [])
    with ([] : list Registration) in Hfilter.
  unfold bind, getDocument, ret. cbn [fst].
  unfold Binder.initCascadeSelects, Binder.initAltLabels,
    Binder.initUriGeneration, Binder.initDeleteButtons.
  assert (Hdelete : listeningFor (lit "click")
                      (addEventListener deleteListener regs)
                    = [deleteListener]).
  { rewrite listeningFor_new; rewrite ?Hfilter; by try intros []. }
  assert (Huri : forall regs',
            listeningFor (lit "click")
              (foldl
                 (fun regs uriInput =>
                    let b := Binder.readUriBinding (document w1) uriInput in
                    foldl
                      (fun regs i =>
                         match getElementById i (document w1) with
                         | Some el =>
                             addEventListener
                               (mkRegistration el (lit "input")
                                  (UpdateUriHandler b)) regs
                         | None => regs
                         end)
                      regs (sourceIds b))
                 regs'
                 (map fst (querySelectorAll (byData "uriFrom") (document w1))))
            = listeningFor (lit "click") regs').
  { apply listeningFor_foldl. intros regs' x. apply listeningFor_foldl.
    intros regs'' i. destruct (getElementById i (document w1)); [|reflexivity].
    by apply listeningFor_other. }
  rewrite listeningFor_foldl by (intros; by apply listeningFor_other).
  rewrite listeningFor_new; [|reflexivity|];
    fold deleteListener; rewrite Huri, Hdelete; [reflexivity|].
  intros [Heq | []]. discriminate.
Qed.

Lemma inits_tail p : exists l, inits p = [] :: l /\ Forall (fun q => q <> []) l.
Proof.
  destruct p as [|i p]; simpl; eexists; (split; [reflexivity|]).
  - constructor.
  - apply Forall_map, Forall_forall. by intros.
Qed.

Lemma click_listeners w p :
  listenersFor (Binder.DOMContentLoaded w).1 (clickEvent p)
  = [DeleteClickHandler; AltLabelClickHandler].
Proof.
  unfold listenersFor, propagationPath.
  cbn [bubbles clickEvent target eventType].
  destruct (inits_tail p) as (l & -> & Hl). cbn [rev].
  rewrite flat_map_app. cbn [flat_map]. rewrite app_nil_r.
  assert (Hat : forall q,
            listenersAt (Binder.DOMContentLoaded w).1 (lit "click") q
            = if bool_decide (q = [])
              then [DeleteClickHandler; AltLabelClickHandler] else []).
  { intros q. rewrite listenersAt_listeningFor, DOMContentLoaded_clicks.
    cbn [List.filter listensOn deleteListener altLabelListener].
    replace (bool_decide ([] = q)) with (bool_decide (q = []))
      by (apply bool_decide_ext; split; congruence).
    by case_bool_decide. }
  rewrite Hat. cbn [bool_decide decide_rel].
  replace (flat_map _ (rev l)) with ([] : list Handler); [reflexivity|].
  symmetry. apply Forall_rev in Hl.
  induction Hl as [|q qs Hq Hqs IH]; cbn [flat_map]; [reflexivity|].
  by rewrite IH, Hat, bool_decide_eq_false_2.
Qed.

End Clicks.

(** X13.  After initialisation, a click on any node of the document,
    one that was there at load time or one added since, is delivered to
    the listener of [initDeleteButtons] and then to the listener of
    [initAltLabels], each once, and to nothing else: its effect is that of
    the first followed by that of the second, and what it leaves pending
    is what the first does. *)
Theorem click_runs_the_two_document_listeners `{Platform}
    (loaded w : World) (depth : nat) (answer : bool) (clicked : Path) :
  let regs := (Binder.DOMContentLoaded loaded).1 in
  let r := Binder.dispatchEvent (S depth) regs answer (clickEvent clicked) w in
  let deleted := Binder.deleteClick answer clicked w in
  listenersFor regs (clickEvent clicked)
  = [DeleteClickHandler; AltLabelClickHandler]
  /\ r.1 = deleted.1
  /\ r.2 = (Binder.altLabelClick clicked deleted.2).2.
Proof.
  intros regs r deleted. split; [apply click_listeners|].
  subst r deleted regs. cbn [Binder.dispatchEvent]. rewrite click_listeners.
  cbn [runAll Binder.runHandler target clickEvent].
  unfold bind. destruct (Binder.deleteClick answer clicked w) as [ks w1].
  cbn [fst snd].
  destruct (Binder.altLabelClick clicked w1) as [[] w2]. simpl.
  by rewrite app_nil_r.
Qed.

Section Initialisation.
Context `{Platform}.

(** The filter of an input that holds a value only writes [hidden]
    flags. *)
Lemma filter_hides input container w :
  truthy (valueAt input (document w)) = true ->
  exists actions,
    log (Binder.filter input container w).2 = log w ++ actions
    /\ Forall hides actions.
Proof.
  intros Hv. unfold Binder.filter. unfold bind at 1, getDocument at 1.
  cbn beta iota.
  destruct (valueAt input (document w)) as [v|]; [|discriminate].
  match goal with
  | |- exists actions, log (?m w).2 = _ /\ _ =>
      assert (Hm : records hides m); [|exact (Hm w)]
  end.
  unfold setHidden. records_auto. by eexists _, _.
Qed.

Lemma initFilteringEach_hides inputs :
  forall regs w,
    exists actions,
      log (Binder.initFilteringEach inputs regs w).2 = log w ++ actions
      /\ Forall hides actions.
Proof.
  induction inputs as [|input rest IH]; intros regs w.
  - exists []. split; [by rewrite app_nil_r | constructor].
  - simpl. unfold bind at 1. unfold getDocument at 1. cbn beta iota.
    destruct (getElementById _ (document w)) as [container|]; [|apply IH].
    unfold bind at 1.
    destruct (truthy (valueAt input (document w))) eqn:Hv.
    + destruct (filter_hides input container w Hv) as (l1 & Hl1 & HP1).
      destruct (Binder.filter input container w) as [[] w1]. cbn [snd] in Hl1.
      destruct (IH (addEventListener
                      (mkRegistration input (lit "input")
                         (FilterHandler input container)) regs) w1)
        as (l2 & Hl2 & HP2).
      exists (l1 ++ l2). rewrite Hl2, Hl1, app_assoc.
      split; [reflexivity | by apply Forall_app].
    + apply IH.
Qed.

End Initialisation.

(** X14.  All that the initialisation on [DOMContentLoaded] does to
    the page is to write [hidden] flags, those of the initial filtering
    for the search inputs that already hold a value: it issues no request,
    opens no dialog, and writes no value and no content. *)
Theorem initialisation_only_hides `{Platform} (w : World) :
  exists actions,
    log (Binder.DOMContentLoaded w).2 = log w ++ actions
    /\ Forall hides actions.
Proof.
  unfold Binder.DOMContentLoaded, Binder.initFiltering.
  unfold bind at 1. unfold bind at 1. unfold getDocument at 1.
  cbn beta iota.
  destruct (initFilteringEach_hides
              (map fst (querySelectorAll (byData "filterFor") (document w)))
              [] w) as (actions & Hlog & Hhides).
  destruct (Binder.initFilteringEach _ [] w) as [regs w1].
  exists actions. split; [exact Hlog | exact Hhides].
Qed.

Section Stop.
Context `{Platform}.

Lemma dispatch_recalculate depth regs answer el w :
  Forall notForRecalculate regs ->
  Binder.dispatchEvent depth regs answer (recalculateEvent el) w = ([], w).
Proof.
  intros Hregs. destruct depth as [|depth]; simpl; [reflexivity|].
  by rewrite listenersFor_recalculate.
Qed.

Lemma runAll_recalculate depth regs answer l :
  Forall notForRecalculate regs ->
  forall w,
    runAll
      (fun el =>
         emit (DispatchEvent el (lit "recalculate"))
         >> Binder.dispatchEvent depth regs answer (recalculateEvent el))
      l w
    = ([], mkWorld (document w)
             (log w ++ map (fun el => DispatchEvent el (lit "recalculate")) l)).
Proof.
  intros Hregs. induction l as [|el l IH]; intros w.
  - simpl. rewrite app_nil_r. by destruct w.
  - cbn [runAll map]. unfold bind at 1. rewrite bind_then.
    rewrite dispatch_recalculate by exact Hregs.
    unfold bind. rewrite IH. unfold emit, ret. cbn [fst snd document log].
    by rewrite <- app_assoc.
Qed.

(** The run of the change handler when no listener is registered for
    [recalculate]: the resets, the dispatches, and then the loading
    placeholder and the request, or nothing. *)
Lemma cascadeChange_run depth regs answer select w :
  Forall notForRecalculate regs ->
  let doc := document w in
  let w1 := (forEach Binder.resetDependent (declaredResets select doc) w).2 in
  let w2 :=
    mkWorld (document w1) (log w1 ++ recalculations (document w1)) in
  Binder.cascadeChange (Binder.dispatchEvent depth regs answer) select w
  = match targetOf select doc with
    | Some t =>
        if truthy (valueAt select (document w1)) then
          match datasetAt select "cascade" doc with
          | Some path =>
              (setInnerHTML t loadingMarkup
               >> emit (Fetch (Binder.getRequest
                                 (Binder.buildUrl path (document w1))))
               >> ret [CascadeSettled t
                         (default [] (datasetAt select "enables" doc))]) w2
          | None => (emit (Uncaught (lit "TypeError")) >> ret []) w2
          end
        else ([], w2)
    | None => ([], w2)
    end.
Proof.
  intros Hregs doc w1 w2. unfold Binder.cascadeChange.
  unfold bind at 1, getDocument at 1. cbv zeta. fold doc.
  fold (declaredResets select doc) (targetOf select doc).
  rewrite bind_then. fold w1.
  unfold bind at 1, getDocument at 1. unfold bind at 1.
  rewrite runAll_recalculate by exact Hregs.
  fold (recalculations (document w1)). fold w2.
  unfold bind at 1, getDocument at 1. cbn [fst snd document].
  destruct (targetOf select doc); [|reflexivity].
  change (document w2) with (document w1).
  destruct (truthy (valueAt select (document w1))); [|reflexivity].
  by destruct (datasetAt select "cascade" doc).
Qed.

End Stop.

(** X15.  When a cascade-bound select names no element to populate, or
    names one that the document does not have, or reads the empty string
    once its dependents have been reset, its change handler stops after
    the resets and the dispatch of [recalculate] on the URI fields: with
    the listeners that the script registers, it issues no request, writes
    no loading placeholder, and leaves nothing pending. *)
Theorem cascade_without_target_or_value_stops `{Platform}
    (loaded w : World) (depth : nat) (answer : bool) (select : Path) :
  let regs := (Binder.DOMContentLoaded loaded).1 in
  let doc := document w in
  let w1 := (forEach Binder.resetDependent (declaredResets select doc) w).2 in
  let r :=
    Binder.cascadeChange (Binder.dispatchEvent depth regs answer) select w in
  targetOf select doc = None \/ truthy (valueAt select (document w1)) = false ->
  r.1 = []
  /\ document r.2 = document w1
  /\ log r.2 = log w1 ++ recalculations (document w1).
Proof.
  intros regs doc w1 r Hstop. unfold r, regs.
  rewrite cascadeChange_run by apply DOMContentLoaded_listens.
  fold doc w1.
  destruct Hstop as [-> | Hvalue]; [by repeat split|].
  destruct (targetOf select doc); [|by repeat split].
  rewrite Hvalue. by repeat split.
Qed.

Lemma cascade_without_target_or_value_stops_witness :
  let regs := (Binder.DOMContentLoaded (mkWorld lonelySelectPage [])).1 in
  let r := Binder.cascadeChange (Binder.dispatchEvent 2 regs true) [0%nat]
             (mkWorld lonelySelectPage []) in
  r.1 = []
  /\ log r.2
     = [ SetInnerHTML [1%nat] (selectMarkup (lit "schema"));
         SetDisabled [1%nat] true;
         DispatchEvent [2%nat] (lit "recalculate") ].
Proof.
  destruct (cascade_without_target_or_value_stops
              (mkWorld lonelySelectPage []) (mkWorld lonelySelectPage [])
              2 true [0%nat]) as (Hleft & _ & Hlog).
  - left. reflexivity.
  - split; [exact Hleft | exact Hlog].
Defined.

(** ** Alternative labels: what a click can do *)

Lemma delete_last {A} (l : list A) x : delete (length l) (l ++ [x]) = l.
Proof.
  rewrite <- (Nat.add_0_r (length l)), delete_app_r. simpl.
  apply app_nil_r.
Qed.

(** Appending a child and removing it again. *)
Lemma alterNode_append_delete c p doc e rows :
  getNode p doc = Some (Elem e rows) ->
  alterNode (setChildren (delete (length rows) (rows ++ [c]))) p
    (alterNode (appendChild c) p doc)
  = doc.
Proof.
  intros Hp. rewrite alterNode_alterNode.
  apply (alterNode_id _ _ _ _ Hp). simpl. by rewrite delete_last.
Qed.

(** X16.  On a page where a click adds rows to a container, the row
    that an add-click appends holds a remove control.  When the container
    does not lie inside an add control, a click on that remove control
    gives back the document as it was: the row appended last is the one
    removed, and nothing else has changed.  When the container does lie
    inside an add control, the click removes nothing and the document is
    not the one before the add-click: the listener finds the add control
    first, and does nothing or appends another row. *)
Theorem add_click_then_remove_click_restores `{Platform}
    (w : World) (clicked addBtn container : Path) (e : Element)
    (rows : list Node) :
  addsRowsTo clicked addBtn container e rows (document w) ->
  let added := (Binder.altLabelClick clicked w).2 in
  let row := container ++ [length rows] in
  let removed := (Binder.altLabelClick (removeControl row) added).2 in
  getNode row (document added) = Some Binder.createAltLabelField
  /\ (exists n,
        getNode (removeControl row) (document added) = Some n
        /\ isRemoveControl n)
  /\ (outsideAddControls container (document w) ->
      document removed = document w
      /\ log removed
         = log w ++ [AppendChild container Binder.createAltLabelField;
                     RemoveNode row])
  /\ (~ outsideAddControls container (document w) ->
      document removed <> document w
      /\ (removed = added
          \/ exists target,
               removed
               = mkWorld
                   (alterNode (appendChild Binder.createAltLabelField) target
                      (document added))
                   (log added
                    ++ [AppendChild target Binder.createAltLabelField]))).
Proof.
  intros Hpage added row removed.
  pose proof Hpage as (_ & _ & _ & Hrows).
  assert (Hadded : added
                   = mkWorld
                       (alterNode (appendChild Binder.createAltLabelField)
                          container (document w))
                       (log w ++ [AppendChild container
                                    Binder.createAltLabelField])).
  { unfold added. by rewrite (altLabelClick_add _ _ _ _ _ _ Hpage). }
  assert (Hrows' : getNode container (document added)
                   = Some (Elem e (rows ++ [Binder.createAltLabelField]))).
  { rewrite Hadded. cbn [document]. by rewrite getNode_alterNode, Hrows. }
  assert (Hrow : (rows ++ [Binder.createAltLabelField]) !! length rows
                 = Some Binder.createAltLabelField)
    by (by apply list_lookup_middle).
  destruct (added_row_holds _ _ _ _ _ Hrows' Hrow) as (Hdiv & _ & Hbutton).
  fold row in Hdiv, Hbutton.
  split; [by rewrite createAltLabelField_row|].
  split.
  { eexists. split; [exact Hbutton|]. eexists _, _.
    split; [reflexivity | apply button_is_remove]. }
  split.
  - intros Houtside.
    assert (Hremoved : removed
                       = mkWorld
                           (alterNode
                              (setChildren
                                 (delete (length rows)
                                    (rows ++ [Binder.createAltLabelField])))
                              container (document added))
                           (log added ++ [RemoveNode row])).
    { unfold removed, row.
      rewrite (altLabelClick_remove added container e _ _ Hrows' Hrow);
        [reflexivity|].
      rewrite Hadded. cbn [document].
      by apply outsideAddControls_appendChild. }
    rewrite Hremoved, Hadded. cbn [document log]. split.
    + by apply (alterNode_append_delete _ _ _ e).
    + by rewrite <- app_assoc.
  - intros Hinside. unfold outsideAddControls in Hinside.
    destruct (closest (byData "addAltLabel") (document w) container)
      as [enclosing|] eqn:Henclosing; [|done].
    assert (Hclick : closest (byData "addAltLabel") (document added)
                       (removeControl row)
                     = Some enclosing).
    { unfold removeControl, row in *. unfold closest.
      rewrite !inclusiveAncestors_snoc. cbn [List.find].
      unfold matchesAt at 1. rewrite Hbutton. cbn [matches].
      rewrite button_not_add. unfold matchesAt at 1. rewrite Hdiv.
      cbn [matches]. rewrite row_not_add.
      fold (closest (byData "addAltLabel") (document added) container).
      rewrite Hadded. cbn [document].
      rewrite closest_alterNode_prefix; [exact Henclosing|].
      apply keepsElement_appendChild. }
    assert (Hnone : getNode row (document w) = None).
    { pose proof (lookup_ge_None_2 rows (length rows) ltac:(lia)) as Hout.
      unfold row. rewrite getNode_app, Hrows. simpl. by rewrite Hout. }
    assert (Hcases :
              removed = added
              \/ exists target,
                   removed
                   = mkWorld
                       (alterNode (appendChild Binder.createAltLabelField)
                          target (document added))
                       (log added
                        ++ [AppendChild target Binder.createAltLabelField])).
    { unfold removed, Binder.altLabelClick, bind, getDocument.
      rewrite Hclick.
      destruct (getElementById _ (document added)) as [target|];
        [right; by exists target | left; by destruct added]. }
    split; [|exact Hcases].
    intros Heq. rewrite <- Heq in Hnone.
    destruct Hcases as [Hsame | [target Htarget]].
    + rewrite Hsame, Hdiv in Hnone. discriminate.
    + rewrite Htarget in Hnone. cbn [document] in Hnone.
      destruct (getNode_appendChild Binder.createAltLabelField target _ _ _
                  Hdiv) as (n' & Hn' & _).
      rewrite Hn' in Hnone. discriminate.
Qed.

Lemma add_click_then_remove_click_restores_witness :
  let added := (Binder.altLabelClick [1%nat] (mkWorld altLabelPage [])).2 in
  let removed :=
    (Binder.altLabelClick (removeControl [0%nat; 0%nat]) added).2 in
  let added' :=
    (Binder.altLabelClick [0%nat; 1%nat] (mkWorld nestedAltLabelPage [])).2 in
  let removed' :=
    (Binder.altLabelClick (removeControl [0%nat; 0%nat; 0%nat]) added').2 in
  childrenAt [0%nat] (document added) = Some [Binder.createAltLabelField]
  /\ document removed = altLabelPage
  /\ document removed' <> nestedAltLabelPage.
Proof.
  intros added removed added' removed'.
  destruct (add_click_then_remove_click_restores (mkWorld altLabelPage [])
              [1%nat] [1%nat] [0%nat]
              (withId "alt_labels_container" (element "div")) [])
    as (_ & _ & Hrestored & _).
  { split; [by eexists|]. split; [reflexivity|].
    split; [exists (lit "alt_labels_container"); by split|].
    reflexivity. }
  destruct (add_click_then_remove_click_restores
              (mkWorld nestedAltLabelPage [])
              [0%nat; 1%nat] [0%nat] [0%nat; 0%nat]
              (withId "alt_labels_container" (element "div")) [])
    as (_ & _ & _ & Hkept).
  { split; [by eexists|]. split; [reflexivity|].
    split; [exists (lit "alt_labels_container"); by split|].
    reflexivity. }
  split; [reflexivity|]. split.
  - apply Hrestored. reflexivity.
  - apply Hkept. discriminate.
Defined.

(** X17.  Whatever node is clicked, the click listener of
    [initAltLabels] does one of three things: nothing at all; or it
    appends one new row to the element that the nearest add control names;
    or it removes one element, which carries the class [alt-label-field]
    and is the clicked node or one of its ancestors. *)
Theorem altLabelClick_appends_a_row_or_removes_an_enclosing_row `{Platform}
    (w : World) (clicked : Path) :
  let doc := document w in
  let w' := (Binder.altLabelClick clicked w).2 in
  w' = w
  \/ (exists addBtn containerId container,
        closest (byData "addAltLabel") doc clicked = Some addBtn
        /\ datasetAt addBtn "addAltLabel" doc = Some containerId
        /\ getElementById containerId doc = Some container
        /\ w' = mkWorld
                  (alterNode (appendChild Binder.createAltLabelField)
                     container doc)
                  (log w ++ [AppendChild container Binder.createAltLabelField]))
  \/ (exists row below e ch,
        clicked = row ++ below
        /\ getNode row doc = Some (Elem e ch)
        /\ In (lit "alt-label-field") (classList e)
        /\ w' = mkWorld (removeNode row doc) (log w ++ [RemoveNode row])).
Proof.
  intros doc w'. subst w' doc.
  unfold Binder.altLabelClick, bind, getDocument. cbn beta iota.
  destruct (closest (byData "addAltLabel") (document w) clicked)
    as [addBtn|] eqn:Hadd.
  - destruct (closest_matches _ _ _ _ Hadd) as (eb & chb & Hb & Hdata).
    unfold byData in Hdata. apply bool_decide_eq_true in Hdata as [cid Hcid].
    assert (Hid : datasetAt addBtn "addAltLabel" (document w) = Some cid).
    { unfold datasetAt. by rewrite Hb. }
    rewrite Hid. cbn [default].
    destruct (getElementById (Datatypes.id cid) (document w)) as [container|]
      eqn:Hc; [|by left].
    right. left. exists addBtn, cid, container. by repeat split.
  - destruct (closest (byData "removeField") (document w) clicked)
      as [removeBtn|] eqn:Hremove; [|by left].
    destruct (closest (byClass "alt-label-field") (document w) removeBtn)
      as [row|] eqn:Hrow; [|by left].
    right. right.
    destruct (closest_matches _ _ _ _ Hrow) as (e & ch & He & Hclass).
    unfold closest in Hremove, Hrow.
    apply find_some in Hremove as [Hremove _].
    apply find_some in Hrow as [Hrow' _].
    apply in_inclusiveAncestors in Hremove as [r1 ->].
    apply in_inclusiveAncestors in Hrow' as [r2 ->].
    exists row, (r2 ++ r1), e, ch. rewrite app_assoc.
    split; [reflexivity|]. split; [exact He|]. split; [|reflexivity].
    unfold byClass in Hclass. apply existsb_exists in Hclass as (c & Hin & Hc).
    apply bool_decide_eq_true in Hc. by subst c.
Qed.

(** X18.  [addAltLabelField] appends to the container that its
    argument names (the element [alt_labels_container] without one) a row
    of a required text input and a button whose [onclick] is
    [removeAltLabelField]; that function, called on the button of the row
    just added, gives back the document as it was. *)
Theorem addAltLabelField_then_removeAltLabelField_restores
    (containerId : option jsstring) (w : World) (container : Path)
    (e : Element) (rows : list Node) :
  let doc := document w in
  getElementById (orElse containerId (lit "alt_labels_container")) doc
  = Some container ->
  getNode container doc = Some (Elem e rows) ->
  let added := (Legacy.addAltLabelField containerId w).2 in
  let row := container ++ [length rows] in
  let button := row ++ [1%nat] in
  let removed := (Legacy.removeAltLabelField button added).2 in
  getNode container (document added) = Some (Elem e (rows ++ [Legacy.newField]))
  /\ (exists input,
        getNode (row ++ [0%nat]) (document added) = Some (Elem input [])
        /\ tagName input = lit "input" /\ required input = true)
  /\ (exists btn label,
        getNode button (document added) = Some (Elem btn label)
        /\ onclick btn = Some OnclickRemoveAltLabelField)
  /\ document removed = doc
  /\ log removed = log w ++ [AppendChild container Legacy.newField;
                             RemoveNode row].
Proof.
  intros doc Hid Hrows added row button removed. subst doc.
  assert (Hadded : added
                   = mkWorld
                       (alterNode (appendChild Legacy.newField) container
                          (document w))
                       (log w ++ [AppendChild container Legacy.newField])).
  { unfold added, Legacy.addAltLabelField, bind, getDocument. by rewrite Hid. }
  assert (Hcontainer : getNode container (document added)
                       = Some (Elem e (rows ++ [Legacy.newField]))).
  { rewrite Hadded. cbn [document]. by rewrite getNode_alterNode, Hrows. }
  assert (Hrow : getNode row (document added) = Some Legacy.newField).
  { unfold row. rewrite getNode_app, Hcontainer. simpl.
    by rewrite list_lookup_middle. }
  split; [exact Hcontainer|]. split; [|split].
  - eexists. rewrite getNode_app, Hrow. by repeat split.
  - eexists _, _. unfold button. rewrite getNode_app, Hrow. by repeat split.
  - assert (Hremoved : removed
                       = mkWorld (removeNode row (document added))
                           (log added ++ [RemoveNode row])).
    { unfold removed, button, Legacy.removeAltLabelField.
      rewrite removelast_last. unfold row at 1.
      by destruct (container ++ [length rows]) eqn:Hp;
        [destruct container|]. }
    rewrite Hremoved, Hadded. cbn [document log]. split.
    + unfold removeNode, row. rewrite rev_app_distr. simpl.
      rewrite rev_involutive.
      rewrite <- (alterNode_append_delete Legacy.newField container
                    (document w) e rows Hrows) at 2.
      apply (alterNode_ext_at _ _ _ _
               (Elem e (rows ++ [Legacy.newField]))); [|reflexivity].
      by rewrite getNode_alterNode, Hrows.
    + by rewrite <- app_assoc.
Qed.

Lemma addAltLabelField_then_removeAltLabelField_restores_witness :
  let added := (Legacy.addAltLabelField None (mkWorld altLabelPage [])).2 in
  let removed :=
    (Legacy.removeAltLabelField [0%nat; 0%nat; 1%nat] added).2 in
  childrenAt [0%nat] (document added) = Some [Legacy.newField]
  /\ document removed = altLabelPage.
Proof.
  intros added removed.
  destruct (addAltLabelField_then_removeAltLabelField_restores None
              (mkWorld altLabelPage []) [0%nat]
              (withId "alt_labels_container" (element "div")) []
              eq_refl eq_refl)
    as (Hadded & _ & _ & Hrestored & _).
  split; [|exact Hrestored].
  unfold childrenAt. fold added in Hadded. by rewrite Hadded.
Defined.

(** ** Splitting and joining *)

Lemma split_not_nil sep s : split sep s <> [].
Proof.
  induction s as [|c s IH]; simpl; [discriminate|].
  destruct (c =? sep); [discriminate|].
  by destruct (split sep s).
Qed.

Lemma split_app sep a b :
  split sep (a ++ sep :: b) = split sep a ++ split sep b.
Proof.
  induction a as [|c a IH]; simpl.
  - by rewrite N.eqb_refl.
  - destruct (c =? sep); [by rewrite IH|].
    rewrite IH. pose proof (split_not_nil sep a).
    by destruct (split sep a).
Qed.

Lemma split_freeOf sep s : freeOf sep s -> split sep s = [s].
Proof.
  induction 1 as [|c s Hc Hs IH]; simpl; [reflexivity|].
  apply N.eqb_neq in Hc. by rewrite Hc, IH.
Qed.

Lemma join_cons sep p ps :
  ps <> [] -> join sep (p :: ps) = p ++ sep ++ join sep ps.
Proof. by destruct ps. Qed.

Lemma join_app sep l1 l2 :
  l1 <> [] -> l2 <> [] ->
  join sep (l1 ++ l2) = join sep l1 ++ sep ++ join sep l2.
Proof.
  intros H1 H2. induction l1 as [|p l1 IH]; [done|].
  destruct l1 as [|p' l1].
  - cbn [app]. by rewrite join_cons.
  - change ((p :: p' :: l1) ++ l2) with (p :: (p' :: l1) ++ l2).
    rewrite join_cons by done. rewrite IH by done.
    rewrite (join_cons sep p (p' :: l1)) by done. by rewrite <- !app_assoc.
Qed.

(** Joining the pieces of a string gives the string back. *)
Lemma join_split sep s : join [sep] (split sep s) = s.
Proof.
  induction s as [|c s IH]; simpl; [reflexivity|].
  destruct (c =? sep) eqn:Hc.
  - apply N.eqb_eq in Hc as ->.
    rewrite join_cons by apply split_not_nil. by rewrite IH.
  - pose proof (split_not_nil sep s).
    destruct (split sep s) as [|h t]; [done|].
    destruct t; simpl in *; by rewrite <- IH.
Qed.

(** Splitting the join of pieces that are free of the separator gives the
    pieces back. *)
Lemma split_join sep parts :
  parts <> [] -> Forall (freeOf sep) parts ->
  split sep (join [sep] parts) = parts.
Proof.
  intros Hne Hfree. induction Hfree as [|p ps Hp Hps IH]; [done|].
  destruct ps as [|p' ps].
  - simpl. by apply split_freeOf.
  - rewrite join_cons by done. cbn [app].
    rewrite split_app, IH by done. by rewrite split_freeOf.
Qed.

(** ** The attributes of a binding *)

(** X19.  The request path of a cascade-bound select is made segment by
    segment: the path built from two templates joined by a slash is the
    two paths joined by a slash.  A segment that begins with a colon
    becomes the value of the element that the rest of it names, as it is
    and without any escaping, and the empty string when there is no such
    element or it has no value; any other segment is kept.  A template
    without such a segment is requested as it is. *)
Theorem buildUrl_substitutes_segment_by_segment
    (doc : Node) (template rest segment : jsstring) :
  Binder.buildUrl (template ++ [slash] ++ rest) doc
  = Binder.buildUrl template doc ++ [slash] ++ Binder.buildUrl rest doc
  /\ (freeOf slash segment ->
      Binder.buildUrl segment doc
      = if isPlaceholder segment
        then orElse (valueById (drop 1 segment) doc) []
        else segment)
  /\ (Forall (fun part => isPlaceholder part = false) (split slash template) ->
      Binder.buildUrl template doc = template).
Proof.
  unfold Binder.buildUrl. split; [|split].
  - cbn [app]. rewrite split_app, map_app.
    apply join_app; intros Hnil; apply map_eq_nil in Hnil;
      by apply split_not_nil in Hnil.
  - intros Hfree. by rewrite split_freeOf.
  - intros Hplain. rewrite <- (join_split slash template) at 2. f_equal.
    induction Hplain as [|part parts Hpart Hparts IH]; [reflexivity|].
    cbn [map]. unfold isPlaceholder in Hpart. by rewrite Hpart, IH.
Qed.

Lemma buildUrl_substitutes_segment_by_segment_witness :
  Binder.buildUrl (lit ":catalog") cascadePage = lit "main"
  /\ Binder.buildUrl (lit "/api/schemas") cascadePage = lit "/api/schemas".
Proof.
  destruct (buildUrl_substitutes_segment_by_segment cascadePage
              (lit "/api/schemas") [] (lit ":catalog"))
    as (_ & Hsegment & Hplain).
  split.
  - rewrite Hsegment; [reflexivity|]. repeat constructor; discriminate.
  - apply Hplain. repeat constructor.
Defined.

Lemma filter_nonEmpty ids :
  Forall (fun i => i <> []) ids -> List.filter nonEmpty ids = ids.
Proof.
  induction 1 as [|i ids Hi Hids IH]; [reflexivity|].
  destruct i; [done|]. simpl. by rewrite IH.
Qed.

(** What [data-resets] declares when it lists ids. *)
Lemma declaredResets_join select doc ids :
  Forall (fun i => i <> []) ids -> Forall (freeOf comma) ids ->
  datasetAt select "resets" doc = Some (join [comma] ids) ->
  declaredResets select doc = ids.
Proof.
  intros Hne Hfree Hdata. unfold declaredResets. rewrite Hdata.
  destruct ids as [|i ids]; [reflexivity|].
  assert (Hor : orElse (Some (join [comma] (i :: ids))) []
                = join [comma] (i :: ids))
    by (by destruct (join [comma] (i :: ids))).
  rewrite Hor, split_join by done. by apply filter_nonEmpty.
Qed.

(** X20.  The change handler of a cascade-bound select takes the ids
    to reset from [data-resets] by splitting it at the commas and dropping
    the empty pieces, without trimming.  When the attribute is the
    comma-separated list of non-empty ids, the handler, with the listeners
    that the script registers, resets exactly these, in this order: its
    record is that of the reset loop over these ids, then the dispatches
    of [recalculate], then the loading placeholder and the request if
    there is one, and nothing after the loop disables an element.  When
    the attribute is missing, the record begins with the dispatches: the
    handler resets nothing. *)
Theorem data_resets_lists_the_dependents `{Platform}
    (loaded w : World) (depth : nat) (answer : bool)
    (select : Path) (ids : list jsstring) :
  let regs := (Binder.DOMContentLoaded loaded).1 in
  let doc := document w in
  let w1 := (forEach Binder.resetDependent ids w).2 in
  let w' :=
    (Binder.cascadeChange (Binder.dispatchEvent depth regs answer) select w).2
  in
  let rest := recalculations (document w1) ++ cascadeRequest select doc w1 in
  Forall (fun i => i <> []) ids ->
  Forall (freeOf comma) ids ->
  datasetAt select "resets" doc = Some (join [comma] ids)
  \/ (ids = [] /\ datasetAt select "resets" doc = None) ->
  declaredResets select doc = ids
  /\ log w' = log w1 ++ rest
  /\ Forall (fun a => forall p b, a <> SetDisabled p b) rest
  /\ (ids = [] -> log w' = log w ++ rest).
Proof.
  intros regs doc w1 w' rest Hne Hfree Hdata.
  assert (Hids : declaredResets select doc = ids).
  { destruct Hdata as [Hdata | [-> Hdata]].
    - by apply declaredResets_join.
    - unfold declaredResets. by rewrite Hdata. }
  assert (Hlog : log w' = log w1 ++ rest).
  { unfold w', regs.
    rewrite cascadeChange_run by apply DOMContentLoaded_listens.
    fold doc. rewrite Hids. fold w1. unfold rest, cascadeRequest.
    destruct (targetOf select doc) as [t|];
      [|cbn [snd log]; by rewrite app_nil_r].
    destruct (truthy (valueAt select (document w1)));
      [|cbn [snd log]; by rewrite app_nil_r].
    destruct (datasetAt select "cascade" doc) as [path|].
    - unfold setInnerHTML, bind, emit, modify, ret, fetchOf, Binder.getRequest.
      cbn [fst snd document log]. by rewrite <- !app_assoc.
    - unfold bind, emit, ret. cbn [fst snd document log].
      by rewrite <- !app_assoc. }
  split; [exact Hids|]. split; [exact Hlog|]. split.
  - unfold rest. apply Forall_app. split.
    + unfold recalculations. apply Forall_forall. intros a Ha p b ->.
      apply list_elem_of_fmap in Ha as (el & [=] & _).
    + unfold cascadeRequest.
      destruct (targetOf select doc) as [t|]; [|constructor].
      destruct (truthy (valueAt select (document w1))); [|constructor].
      destruct (datasetAt select "cascade" doc);
        repeat constructor; discriminate.
  - intros ->. exact Hlog.
Qed.

Lemma data_resets_lists_the_dependents_witness :
  let regs := (Binder.DOMContentLoaded (mkWorld cascadePage [])).1 in
  let w' :=
    (Binder.cascadeChange (Binder.dispatchEvent 2 regs true) [0%nat]
       (mkWorld cascadePage [])).2 in
  declaredResets [0%nat] cascadePage = [lit "schema"; lit "table"]
  /\ log w'
     = [ SetInnerHTML [1%nat] (selectMarkup (lit "schema"));
         SetDisabled [1%nat] true;
         SetInnerHTML [2%nat] (selectMarkup (lit "table"));
         SetDisabled [2%nat] true;
         SetInnerHTML [1%nat] loadingMarkup;
         fetchOf (lit "/api/schemas/main") ].
Proof.
  destruct (data_resets_lists_the_dependents
              (mkWorld cascadePage []) (mkWorld cascadePage []) 2 true
              [0%nat] [lit "schema"; lit "table"])
    as (Hids & Hlog & _); [| |by left|].
  - repeat constructor; discriminate.
  - repeat constructor; discriminate.
  - split; [exact Hids | exact Hlog].
Defined.

(** X21.  [initUriGeneration] takes the ids of the source fields
    from [data-uri-from] by splitting it at the commas and trimming each
    piece; the separator is the full stop when [data-uri-separator] is
    missing or empty, and the namespace is empty when no element carries
    [data-user-ns]. *)
Theorem data_uri_from_lists_the_sources
    (doc : Node) (field : Path) (pieces : list jsstring) :
  let b := Binder.readUriBinding doc field in
  pieces <> [] ->
  Forall (freeOf comma) pieces ->
  datasetAt field "uriFrom" doc = Some (join [comma] pieces) ->
  uriInput b = field
  /\ sourceIds b = map trim pieces
  /\ (truthy (datasetAt field "uriSeparator" doc) = false ->
      separator b = lit ".")
  /\ (querySelector (byData "userNs") doc = None -> userNs b = []).
Proof.
  intros b Hne Hfree Hdata. subst b. unfold Binder.readUriBinding.
  cbn [uriInput sourceIds separator userNs]. rewrite Hdata. cbn [default].
  change (Datatypes.id (join [comma] pieces)) with (join [comma] pieces).
  rewrite split_join by done.
  split; [reflexivity|]. split; [reflexivity|]. split.
  - by destruct (datasetAt field "uriSeparator" doc) as [[|c s]|].
  - by intros ->.
Qed.

Lemma data_uri_from_lists_the_sources_witness :
  datasetAt [2%nat] "uriFrom" spacedUriPage = Some (lit "catalog, table")
  /\ sourceIds (Binder.readUriBinding spacedUriPage [2%nat])
     = [lit "catalog"; lit "table"]
  /\ separator (Binder.readUriBinding spacedUriPage [2%nat]) = lit ".".
Proof.
  destruct (data_uri_from_lists_the_sources spacedUriPage [2%nat]
              [lit "catalog"; lit " table"])
    as (_ & Hsources & Hseparator & _);
    [discriminate | repeat constructor; discriminate | reflexivity|].
  split; [reflexivity|].
  split; [exact Hsources | by apply Hseparator].
Defined.

(** ** The list filter, run again *)

Section FilterAgain.
Context `{Platform}.

Lemma searchableText_hideUnless query item :
  Binder.searchableText (hideUnless query item) = Binder.searchableText item.
Proof. by destruct item. Qed.

Lemma hideUnless_idem query item :
  hideUnless query (hideUnless query item) = hideUnless query item.
Proof.
  unfold hideUnless at 1. rewrite searchableText_hideUnless.
  by destruct item.
Qed.

Lemma includes_trans s q1 q2 :
  includes s q2 = true -> includes q2 q1 = true -> includes s q1 = true.
Proof.
  rewrite !includes_spec. intros (a & b & ->) (c & d & ->).
  exists (a ++ c), (d ++ b). by rewrite <- !app_assoc.
Qed.

End FilterAgain.

(** X22.  Filtering is idempotent: when the filter of a search input
    runs again on the list it has just filtered, the input holding the
    same value, the document does not change. *)
Theorem filter_twice_is_filter_once `{Platform}
    (input container : Path) (w : World) (query : jsstring)
    (e : Element) (items : list Node) :
  let w' := (Binder.filter input container w).2 in
  valueAt input (document w) = Some query ->
  getNode container (document w) = Some (Elem e items) ->
  valueAt input (document w') = Some query ->
  document (Binder.filter input container w').2 = document w'.
Proof.
  intros w' Hv Hl Hv'.
  destruct (filter_run input container w query e items Hv Hl) as [Hdoc _].
  fold w' in Hdoc.
  assert (Hl' : getNode container (document w')
                = Some (Elem e (map (hideUnless (toUpperCase query)) items))).
  { by rewrite Hdoc, getNode_alterNode, Hl. }
  destruct (filter_run input container w' query e _ Hv' Hl') as [Hdoc' _].
  rewrite Hdoc', map_map.
  rewrite (map_ext _ (hideUnless (toUpperCase query)))
    by (intros; apply hideUnless_idem).
  rewrite Hdoc, alterNode_alterNode. apply alterNode_ext. by intros [].
Qed.

Lemma filter_twice_is_filter_once_witness :
  let w' := (Binder.filter [0%nat] [1%nat] (mkWorld (filterPage "cust") [])).2
  in
  document (Binder.filter [0%nat] [1%nat] w').2 = document w'.
Proof.
  exact (filter_twice_is_filter_once [0%nat] [1%nat]
           (mkWorld (filterPage "cust") []) (lit "cust")
           (withId "table_list" (element "ul"))
           [ Elem (withHidden true (element "li")) [spanNode "Revenue"];
             listItem [spanNode "Customer"; spanNode "Count"] ]
           eq_refl eq_refl eq_refl).
Defined.

(** X23.  Narrowing the query never shows more: an item that the
    filter hides for one value of the search input is hidden for every
    value that, in upper case, contains that value in upper case. *)
Theorem narrowing_the_query_keeps_items_hidden `{Platform}
    (input container : Path) (w1 w2 : World) (query1 query2 : jsstring)
    (e1 e2 : Element) (items : list Node) (i : nat) :
  valueAt input (document w1) = Some query1 ->
  valueAt input (document w2) = Some query2 ->
  getNode container (document w1) = Some (Elem e1 items) ->
  getNode container (document w2) = Some (Elem e2 items) ->
  includes (toUpperCase query2) (toUpperCase query1) = true ->
  hiddenAt (container ++ [i]) (document (Binder.filter input container w1).2)
  = Some true ->
  hiddenAt (container ++ [i]) (document (Binder.filter input container w2).2)
  = Some true.
Proof.
  intros Hv1 Hv2 Hl1 Hl2 Hsub.
  destruct (filter_run input container w1 query1 e1 items Hv1 Hl1) as [-> _].
  destruct (filter_run input container w2 query2 e2 items Hv2 Hl2) as [-> _].
  unfold hiddenAt, elementAt.
  rewrite (getNode_child _ _ _ _ _ _ Hl1), (getNode_child _ _ _ _ _ _ Hl2).
  rewrite !list_lookup_fmap.
  destruct (items !! i) as [[s|ei chi]|]; try discriminate. simpl.
  intros [= Hhidden]. f_equal.
  apply negb_true_iff in Hhidden. apply negb_true_iff.
  destruct (includes (Binder.searchableText (Elem ei chi))
              (toUpperCase query2)) eqn:Hin; [|reflexivity].
  by rewrite (includes_trans _ _ _ Hin Hsub) in Hhidden.
Qed.

Lemma narrowing_the_query_keeps_items_hidden_witness :
  hiddenAt [1%nat; 0%nat]
    (document (Binder.filter [0%nat] [1%nat]
                 (mkWorld (filterPage "customer") [])).2)
  = Some true.
Proof.
  apply (narrowing_the_query_keeps_items_hidden (H := referencePlatform)
           [0%nat] [1%nat]
           (mkWorld (filterPage "cust") []) (mkWorld (filterPage "customer") [])
           (lit "cust") (lit "customer")
           (withId "table_list" (element "ul"))
           (withId "table_list" (element "ul"))
           [ Elem (withHidden true (element "li")) [spanNode "Revenue"];
             listItem [spanNode "Customer"; spanNode "Count"] ]
           0%nat eq_refl eq_refl eq_refl eq_refl eq_refl eq_refl).
Defined.

(** ** [filterList] *)

Section FilterList.
Context `{Platform}.

Lemma filterListRound_run ul cls filter doc e ch done c todo w :
  getNode ul doc = Some (Elem e ch) ->
  document w = alterNode (setChildren (done ++ c :: todo)) ul doc ->
  document (filterListRound ul cls filter (length done) w).2
  = alterNode (setChildren (done ++ showOrHide cls filter c :: todo)) ul doc.
Proof.
  intros Hl Hdoc. unfold filterListRound, bind, getDocument.
  rewrite Hdoc, (getNode_child _ _ _ _ _ _ Hl).
  rewrite list_lookup_middle by reflexivity.
  assert (Hset : forall s,
            document (setDisplay (ul ++ [length done]) s w).2
            = alterNode
                (setChildren (done ++ alterElement (withDisplay s) c :: todo))
                ul doc).
  { intros s. unfold setDisplay, bind, emit, modify. simpl.
    rewrite Hdoc, alterNode_child. f_equal.
    rewrite <- (Nat.add_0_r (length done)), alter_app_r. reflexivity. }
  unfold showOrHide, displayFor.
  destruct (includes _ filter); apply Hset.
Qed.

Lemma filterList_loop ul cls filter doc e ch todo :
  getNode ul doc = Some (Elem e ch) ->
  forall done w,
    document w = alterNode (setChildren (done ++ todo)) ul doc ->
    document
      (forEach (filterListRound ul cls filter)
         (indexedFlatMap (fun i c => if isElement c then [i] else [])
            (length done) todo) w).2
    = alterNode (setChildren (done ++ map (showOrHide cls filter) todo)) ul doc.
Proof.
  intros Hl. induction todo as [|c todo IH]; intros done w Hdoc.
  - exact Hdoc.
  - destruct c as [s|ec chc].
    + specialize (IH (done ++ [Text s]) w).
      rewrite length_app, Nat.add_1_r, <- !app_assoc in IH.
      by apply IH.
    + cbn [indexedFlatMap isElement app map]. rewrite forEach_cons.
      pose proof (filterListRound_run ul cls filter doc e ch done
                    (Elem ec chc) todo w Hl Hdoc) as Hround.
      specialize (IH (done ++ [showOrHide cls filter (Elem ec chc)])
                    (filterListRound ul cls filter (length done) w).2).
      rewrite length_app, Nat.add_1_r, <- !app_assoc in IH.
      by apply IH.
Qed.

(** What [filterList] makes of the document. *)
Lemma filterList_run searchInputId listId cls w v ul e items :
  valueById searchInputId (document w) = Some v ->
  getElementById listId (document w) = Some ul ->
  getNode ul (document w) = Some (Elem e items) ->
  document (Legacy.filterList searchInputId listId cls w).2
  = alterNode (setChildren (map (showOrHide cls (toUpperCase v)) items)) ul
      (document w).
Proof.
  intros Hv Hul Hl. unfold Legacy.filterList, bind at 1, getDocument at 1.
  cbn beta iota. rewrite Hv, Hul, Hl. cbn [children].
  apply (filterList_loop ul cls (toUpperCase v) (document w) e items items Hl
           [] w).
  simpl. symmetry. by eapply alterNode_id.
Qed.

Lemma itemText_flat_map cls item :
  Legacy.itemText cls item
  = if truthy cls then
      flat_map (fun span => Legacy.textOf span.2)
        (querySelectorAll (Legacy.byClassName (default [] cls)) item)
    else
      flat_map (fun span => lit " " ++ Legacy.textOf span.2)
        (querySelectorAll (byTag "span") item).
Proof.
  unfold Legacy.itemText.
  assert (Hfold : forall (f : Path * Node -> jsstring) l acc,
            foldl (fun txt span => txt ++ f span) acc l = acc ++ flat_map f l).
  { intros f l. induction l as [|x l IH]; intros acc; simpl.
    - by rewrite app_nil_r.
    - by rewrite IH, app_assoc. }
  destruct (truthy cls).
  - exact (Hfold (fun span => Legacy.textOf span.2) _ []).
  - exact (Hfold (fun span => lit " " ++ Legacy.textOf span.2) _ []).
Qed.

End FilterList.

(** X24.  [filterList] leaves the children of the list in their
    places and sets [style.display] of each element child to the empty
    string when the text gathered from it contains the value of the search
    input, both in upper case, and to [none] when it does not.  The text
    is that of the descendants with the given class, one after the other
    without anything between them; without a class it is that of the
    spans, each preceded by a blank. *)
Theorem filterList_shows_exactly_the_matching_items `{Platform}
    (searchInputId listId : jsstring) (searchableClass : option jsstring)
    (w : World) (filter : jsstring) (ul : Path) (e : Element)
    (items : list Node) :
  let doc := document w in
  let w' := (Legacy.filterList searchInputId listId searchableClass w).2 in
  valueById searchInputId doc = Some filter ->
  getElementById listId doc = Some ul ->
  getNode ul doc = Some (Elem e items) ->
  exists items',
    getNode ul (document w') = Some (Elem e items')
    /\ length items' = length items
    /\ forall i item,
         items !! i = Some item ->
         match item with
         | Text _ => items' !! i = Some item
         | Elem ei chi =>
             let txt :=
               if truthy searchableClass then
                 flat_map (fun span => Legacy.textOf span.2)
                   (querySelectorAll
                      (Legacy.byClassName (default [] searchableClass)) item)
               else
                 flat_map (fun span => lit " " ++ Legacy.textOf span.2)
                   (querySelectorAll (byTag "span") item) in
             items' !! i
             = Some (Elem (withDisplay
                             (if includes (toUpperCase txt)
                                   (toUpperCase filter)
                              then [] else lit "none") ei) chi)
         end.
Proof.
  intros doc w' Hv Hul Hl. subst doc w'.
  rewrite (filterList_run _ _ _ _ _ _ _ _ Hv Hul Hl).
  exists (map (showOrHide searchableClass (toUpperCase filter)) items).
  split; [by rewrite getNode_alterNode, Hl|]. split; [apply length_map|].
  intros i item Hi. rewrite list_lookup_fmap, Hi.
  destruct item as [s|ei chi]; [reflexivity|]. cbv zeta.
  rewrite <- itemText_flat_map. reflexivity.
Qed.

Lemma filterList_shows_exactly_the_matching_items_witness :
  let w' := (Legacy.filter_concepts (mkWorld (bareItemPage "rev") [])).2 in
  map (fun item => display <$> elementAt [] item)
    (default [] (childrenAt [1%nat] (document w')))
  = [Some (lit "none"); Some []].
Proof.
  intros w'.
  destruct (filterList_shows_exactly_the_matching_items
              (H := referencePlatform)
              (lit "concept_search") (lit "concept_list") None
              (mkWorld (bareItemPage "rev") []) (lit "rev") [1%nat]
              (withId "concept_list" (element "ul"))
              [ listItem [Text (lit "Revenue")]; listItem [spanNode "Revenue"] ]
              eq_refl eq_refl eq_refl)
    as (items' & Hget & Hlen & Hitems).
  unfold w', Legacy.filter_concepts, childrenAt. rewrite Hget.
  cbn [fmap option_fmap option_map default children].
  pose proof (Hitems 0%nat _ eq_refl) as H0.
  pose proof (Hitems 1%nat _ eq_refl) as H1.
  destruct items' as [|a [|b [|c rest]]]; try discriminate.
  injection H0 as ->. injection H1 as ->. reflexivity.
Defined.

(** ** The two delete dispatchers *)

Lemma excluded_not k :
  k <> lit "url" -> k <> lit "type" -> k <> lit "delete" ->
  bool_decide (k ∈ Binder.excludedKeys) = false.
Proof.
  intros H1 H2 H3. apply bool_decide_eq_false_2.
  unfold Binder.excludedKeys. rewrite !elem_of_cons, elem_of_nil. tauto.
Qed.

Lemma buildBody_item deleted url itemType uri :
  Binder.buildBody (map_to_list (itemButtonData deleted url itemType uri))
  = {[lit "uri" := uri]}.
Proof.
  apply map_eq. intros k. rewrite buildBody_lookup.
  unfold itemButtonData, eqs.
  case_bool_decide as Hk; [|case_bool_decide as Hp]; cbn [orb].
  - unfold Binder.excludedKeys in Hk.
    rewrite !elem_of_cons, elem_of_nil in Hk.
    rewrite lookup_singleton_ne; [reflexivity|].
    destruct Hk as [-> | [-> | [-> | []]]]; discriminate.
  - subst k. symmetry. apply lookup_singleton_ne. discriminate.
  - unfold Binder.excludedKeys in Hk.
    rewrite !elem_of_cons, elem_of_nil in Hk.
    rewrite !lookup_insert_ne; [reflexivity|..]; intros <-; tauto.
Qed.

Lemma buildBody_relationship deleted url subject_uri predicate_type object_uri :
  Binder.buildBody
    (map_to_list
       (relationshipButtonData deleted url subject_uri predicate_type
          object_uri))
  = <[lit "subject_uri" := subject_uri]>
      (<[lit "predicate_type" := predicate_type]>
         {[lit "object_uri" := object_uri]}).
Proof.
  apply map_eq. intros k. rewrite buildBody_lookup.
  unfold relationshipButtonData, eqs.
  case_bool_decide as Hk; [|case_bool_decide as Hp]; cbn [orb].
  - unfold Binder.excludedKeys in Hk.
    rewrite !elem_of_cons, elem_of_nil in Hk.
    rewrite !lookup_insert_ne, lookup_singleton_ne; [reflexivity|..];
      destruct Hk as [-> | [-> | [-> | []]]]; discriminate.
  - subst k.
    rewrite !lookup_insert_ne, lookup_singleton_ne;
      [reflexivity|..]; discriminate.
  - unfold Binder.excludedKeys in Hk.
    rewrite !elem_of_cons, elem_of_nil in Hk.
    rewrite (lookup_insert_ne _ (lit "delete")) by (intros <-; tauto).
    rewrite (lookup_insert_ne _ (lit "url")) by (intros <-; tauto).
    by rewrite (lookup_insert_ne _ (lit "type")) by (intros <-; tauto).
Qed.

Lemma itemButtonData_url deleted url itemType uri :
  itemButtonData deleted url itemType uri !! lit "url" = Some url.
Proof.
  unfold itemButtonData.
  rewrite lookup_insert_ne by discriminate. apply lookup_insert_eq.
Qed.

Lemma itemButtonData_type deleted url itemType uri :
  itemButtonData deleted url itemType uri !! lit "type" = Some itemType.
Proof.
  unfold itemButtonData.
  rewrite !lookup_insert_ne by discriminate. apply lookup_insert_eq.
Qed.

Lemma deleteSettled_agree itemType outcome w :
  let binder := (Binder.deleteSettled itemType outcome w).2 in
  let legacy := (Legacy.deleteItemSettled itemType outcome w).2 in
  document binder = document legacy
  /\ log binder = log w ++ withoutConsole (drop (length (log w)) (log legacy)).
Proof.
  destruct outcome as [|[] b]; simpl; rewrite ?drop_app_length;
    split; try reflexivity.
  rewrite <- app_assoc, drop_app_length. reflexivity.
Qed.

(** X25.  A delete button that declares a URL, a non-empty item
    type and the URI of the item does, through the click listener of
    [initDeleteButtons], what [deleteItem] does for that URI, URL and item
    type: the same dialog, on confirmation the same request with the body
    [{uri}], and once the request has settled the same reload or the same
    alert ([deleteItem] also writes to the console when the request itself
    fails). *)
Theorem delete_button_does_what_deleteItem_does
    (answer : bool) (clicked btn : Path) (w : World) (e : Element)
    (ch : list Node) (deleted url itemType uri : jsstring)
    (outcome : FetchOutcome) :
  let r := Binder.deleteClick answer clicked w in
  let r' := Legacy.deleteItem answer uri (Some url) itemType w in
  closest (byData "delete") (document w) clicked = Some btn ->
  getNode btn (document w) = Some (Elem e ch) ->
  dataset e = itemButtonData deleted url itemType uri ->
  itemType <> [] ->
  r.2 = r'.2
  /\ sameSettling r.1 r'.1
  /\ (r.1 = [DeleteSettled itemType] <-> answer = true)
  /\ let settled := (Binder.deleteSettled itemType outcome r.2).2 in
     let settled' := (Legacy.deleteItemSettled itemType outcome r'.2).2 in
     document settled = document settled'
     /\ log settled
        = log r.2 ++ withoutConsole (drop (length (log r.2)) (log settled')).
Proof.
  intros r r' Hbtn He Hdata Htype. subst r r'.
  rewrite (deleteClick_run answer clicked w btn e ch Hbtn He). cbv zeta.
  rewrite Hdata, buildBody_item, itemButtonData_url, itemButtonData_type.
  assert (Hor : orElse (Some itemType) (lit "item") = itemType)
    by (by destruct itemType).
  rewrite Hor.
  assert (Hsame : (if answer then
                     ([DeleteSettled itemType],
                      mkWorld (document w)
                        ((log w ++ [Confirm (Binder.confirmMessage itemType)])
                         ++ [Fetch (mkRequest (lit "DELETE") (Some url)
                                      (Some (lit "application/json"))
                                      (Some {[lit "uri" := uri]}))]))
                   else
                     ([], mkWorld (document w)
                            (log w ++ [Confirm (Binder.confirmMessage itemType)])))
                  .2
                  = (Legacy.deleteItem answer uri (Some url) itemType w).2).
  { by destruct answer. }
  split; [exact Hsame|]. split; [|split].
  - destruct answer; repeat constructor. by exists itemType.
  - destruct answer; split; try done.
  - rewrite Hsame. apply deleteSettled_agree.
Qed.

Lemma delete_button_does_what_deleteItem_does_witness :
  (Binder.deleteClick true [0%nat; 0%nat; 0%nat] (mkWorld deletePage [])).2
  = (Legacy.deleteItem true (lit "http://example.org/main.orders")
       (Some (lit "/tables/delete")) (lit "table") (mkWorld deletePage [])).2.
Proof.
  destruct (delete_button_does_what_deleteItem_does true
              [0%nat; 0%nat; 0%nat] [0%nat; 0%nat] (mkWorld deletePage [])
              deleteButton [spanNode "x"] [] (lit "/tables/delete")
              (lit "table") (lit "http://example.org/main.orders")
              NetworkError eq_refl eq_refl)
    as [Hsame _]; [|discriminate | exact Hsame].
  apply map_eq. intros k. unfold deleteButton, itemButtonData, data, attr.
  cbn [dataset withDataset list_to_map foldr fst snd].
  destruct (decide (k = lit "delete")) as [->|H1];
    [by rewrite !lookup_insert_eq|].
  rewrite !(lookup_insert_ne _ (lit "delete")) by done.
  destruct (decide (k = lit "url")) as [->|H2];
    [by rewrite !lookup_insert_eq|].
  rewrite !(lookup_insert_ne _ (lit "url")) by done.
  destruct (decide (k = lit "type")) as [->|H3];
    [by rewrite !lookup_insert_eq|].
  rewrite !(lookup_insert_ne _ (lit "type")) by done.
  reflexivity.
Defined.

Lemma relationshipButtonData_url deleted url s p o :
  relationshipButtonData deleted url s p o !! lit "url" = Some url.
Proof.
  unfold relationshipButtonData.
  rewrite lookup_insert_ne by discriminate. apply lookup_insert_eq.
Qed.

Lemma relationshipButtonData_type deleted url s p o :
  relationshipButtonData deleted url s p o !! lit "type"
  = Some (lit "relationship").
Proof.
  unfold relationshipButtonData.
  rewrite !lookup_insert_ne by discriminate. apply lookup_insert_eq.
Qed.

(** X26.  A delete button that declares the type
    [relationship], the URL of the configuration and the three fields
    [subject_uri], [predicate_type] and [object_uri] does, through the
    click listener of [initDeleteButtons], what [delete_relationship] does
    for these three: the same dialog and, on confirmation, the same
    request, whose body holds the three fields under the names that the
    attributes give them. *)
Theorem delete_button_does_what_delete_relationship_does
    (config : Legacy.Config) (answer : bool) (clicked btn : Path) (w : World)
    (e : Element) (ch : list Node)
    (deleted url subject_uri predicate_type object_uri : jsstring) :
  let r := Binder.deleteClick answer clicked w in
  let r' :=
    Legacy.delete_relationship config answer subject_uri predicate_type
      object_uri w in
  closest (byData "delete") (document w) clicked = Some btn ->
  getNode btn (document w) = Some (Elem e ch) ->
  dataset e
  = relationshipButtonData deleted url subject_uri predicate_type object_uri ->
  Legacy.relationshipDeleteUrl config = Some url ->
  r.2 = r'.2 /\ sameSettling r.1 r'.1.
Proof.
  intros r r' Hbtn He Hdata Hurl. subst r r'.
  rewrite (deleteClick_run answer clicked w btn e ch Hbtn He). cbv zeta.
  rewrite Hdata, buildBody_relationship, relationshipButtonData_url,
    relationshipButtonData_type.
  unfold Legacy.delete_relationship. rewrite Hurl.
  destruct answer; (split; [reflexivity|]); repeat constructor.
  by exists (lit "relationship").
Qed.

Lemma delete_button_does_what_delete_relationship_does_witness :
  (Binder.deleteClick true [0%nat] (mkWorld relationshipPage [])).2
  = (Legacy.delete_relationship relationshipConfig true (lit "s")
       (lit "broader") (lit "o") (mkWorld relationshipPage [])).2.
Proof.
  by destruct (delete_button_does_what_delete_relationship_does
                 relationshipConfig true [0%nat] [0%nat]
                 (mkWorld relationshipPage [])
                 (withDataset
                    (relationshipButtonData [] (lit "/relationships/delete")
                       (lit "s") (lit "broader") (lit "o"))
                    (element "button"))
                 [] [] (lit "/relationships/delete") (lit "s") (lit "broader")
                 (lit "o") eq_refl eq_refl eq_refl eq_refl)
    as [Hsame _].
Defined.

(** ** What the initialisation wires *)

Lemma addEventListener_In r regs : In r (addEventListener r regs).
Proof.
  unfold addEventListener. case_bool_decide as Hin.
  - by apply list_elem_of_In.
  - apply in_app_iff. right. by left.
Qed.

Lemma addEventListener_incl r r' regs :
  In r regs -> In r (addEventListener r' regs).
Proof.
  intros Hr. unfold addEventListener. case_bool_decide; [exact Hr|].
  apply in_app_iff. by left.
Qed.

Lemma foldl_incl {A} (f : list Registration -> A -> list Registration) l r :
  (forall regs x, In r regs -> In r (f regs x)) ->
  forall regs, In r regs -> In r (foldl f regs l).
Proof.
  intros Hf. induction l as [|x l IH]; intros regs Hr; [exact Hr|].
  simpl. by apply IH, Hf.
Qed.

Lemma foldl_adds {A} (f : list Registration -> A -> list Registration) l r x :
  (forall regs y, In r regs -> In r (f regs y)) ->
  (forall regs, In r (f regs x)) ->
  In x l -> forall regs, In r (foldl f regs l).
Proof.
  intros Hkeep Hadd. induction l as [|y l IH]; intros Hx regs; [done|].
  simpl. destruct Hx as [-> | Hx].
  - apply foldl_incl; [exact Hkeep | apply Hadd].
  - by apply IH.
Qed.

Lemma inits_self p : In p (inits p).
Proof.
  induction p as [|i p IH]; simpl; [by left|].
  right. apply in_map_iff. by exists p.
Qed.

Lemma listenersFor_registered regs r ev :
  In r regs -> listensOn r = target ev -> listensFor r = eventType ev ->
  In (handler r) (listenersFor regs ev).
Proof.
  intros Hr Hon Hfor. unfold listenersFor. apply in_flat_map.
  exists (target ev). split.
  - unfold propagationPath. destruct (bubbles ev); [|by left].
    rewrite <- in_rev. apply inits_self.
  - unfold listenersAt. apply in_map, filter_In. split; [exact Hr|].
    apply andb_true_iff. split; by apply bool_decide_eq_true.
Qed.

Lemma DOMContentLoaded_run `{Platform} w :
  let filtered :=
    Binder.initFilteringEach
      (map fst (querySelectorAll (byData "filterFor") (document w))) [] w in
  Binder.DOMContentLoaded w
  = (Binder.initCascadeSelects (document filtered.2)
       (Binder.initAltLabels
          (Binder.initUriGeneration (document filtered.2)
             (Binder.initDeleteButtons filtered.1))),
     filtered.2).
Proof.
  unfold Binder.DOMContentLoaded, Binder.initFiltering, bind, getDocument, ret.
  cbv zeta. by destruct (Binder.initFilteringEach _ [] w).
Qed.

(** X27.  Once [DOMContentLoaded] has run, every source field of a
    URI binding that the document has listens for [input] with the
    closure [updateUri] of that binding, and every cascade-bound select
    listens for [change] with its handler: an [input] event on such a
    field reaches the former, a [change] event on such a select the
    latter. *)
Theorem initialisation_wires_sources_and_selects `{Platform} (w : World) :
  let loaded := Binder.DOMContentLoaded w in
  let regs := loaded.1 in
  let doc := document loaded.2 in
  (forall field i el,
     In field (map fst (querySelectorAll (byData "uriFrom") doc)) ->
     In i (sourceIds (Binder.readUriBinding doc field)) ->
     getElementById i doc = Some el ->
     In (UpdateUriHandler (Binder.readUriBinding doc field))
       (listenersFor regs (inputEvent el)))
  /\ (forall select,
        In select (map fst (querySelectorAll (byData "cascade") doc)) ->
        In (CascadeChangeHandler select) (listenersFor regs (changeEvent select))).
Proof.
  rewrite DOMContentLoaded_run. cbv zeta.
  destruct (Binder.initFilteringEach _ [] w) as [regs0 w1]. cbn [fst snd].
  unfold Binder.initCascadeSelects, Binder.initAltLabels,
    Binder.initUriGeneration.
  split.
  - intros field i el Hfield Hi Hel.
    apply (listenersFor_registered _
             (mkRegistration el (lit "input")
                (UpdateUriHandler
                   (Binder.readUriBinding (document w1) field))));
      [|reflexivity..].
    apply foldl_incl; [intros; by apply addEventListener_incl|].
    apply addEventListener_incl.
    apply (foldl_adds _ _ _ field); [| |exact Hfield].
    + intros regs y Hr. apply foldl_incl; [|exact Hr].
      intros regs' j Hr'. destruct (getElementById j (document w1));
        [by apply addEventListener_incl | exact Hr'].
    + intros regs. cbv zeta. apply (foldl_adds _ _ _ i); [| |exact Hi].
      * intros regs' j Hr'. destruct (getElementById j (document w1));
          [by apply addEventListener_incl | exact Hr'].
      * intros regs'. rewrite Hel. apply addEventListener_In.
  - intros select Hselect.
    apply (listenersFor_registered _
             (mkRegistration select (lit "change")
                (CascadeChangeHandler select)));
      [|reflexivity..].
    apply (foldl_adds _ _ _ select); [| |exact Hselect].
    + intros; by apply addEventListener_incl.
    + intros. apply addEventListener_In.
Qed.

Lemma initialisation_wires_sources_and_selects_witness :
  In (UpdateUriHandler (Binder.readUriBinding uriPage [4%nat]))
    (listenersFor (Binder.DOMContentLoaded (mkWorld uriPage [])).1
       (inputEvent [3%nat]))
  /\ In (CascadeChangeHandler [1%nat])
       (listenersFor (Binder.DOMContentLoaded (mkWorld uriPage [])).1
          (changeEvent [1%nat])).
Proof.
  destruct (initialisation_wires_sources_and_selects
              (H := referencePlatform) (mkWorld uriPage []))
    as [Hsources Hselects].
  split.
  - apply (Hsources [4%nat] (lit "table") [3%nat]).
    + by left.
    + right. by left.
    + reflexivity.
  - apply Hselects. by left.
Defined.
